(** * The row generator of mysql_data_generator

    A shallow embedding of [src/generation/generator.ts]: the class
    [Generator] with its methods [empty], [getForeignKeyValues], [fill],
    [before], [generateData] and [after].

    The database connector, the [Randomizer] module, [Math.random] and
    [uuid4] are collaborators whose code is not part of the generator; they
    are taken as parameters.  Every call of the connector is recorded in a
    trace together with its answer, so that statements about "which calls
    were made, with which arguments, in which order" are statements about a
    list. *)

From Stdlib Require Import ZArith QArith Qround Lia.
From stdpp Require Import base option list strings pretty gmap.

Local Open Scope string_scope.
Local Open Scope list_scope.
Local Open Scope Z_scope.

(** ** JavaScript values and numbers *)

(** A JavaScript number that the generator computes with.  [None] stands for
    [undefined] as well as for [NaN]: both are falsy, and arithmetic and
    comparisons on them give [NaN] and [false]. *)
Abbreviation num := (option Z).

(** The values that end up in a row. *)
Inductive value : Type :=
| VUndefined
| VNull
| VNaN
| VInt (n : Z)
| VReal (q : Q)
| VStr (s : string)
| VDate (ms : num).

(** A row is a JavaScript object used as a map from column names to values. *)
Abbreviation row := (gmap string value).

(** [if (n)] on a number: [0], [NaN] and [undefined] are falsy. *)
Definition truthy (n : num) : bool :=
  match n with
  | Some k => negb (k =? 0)
  | None => false
  end.

(** [Math.min(a, b)]. *)
Definition Math_min (a b : num) : num :=
  match a, b with
  | Some x, Some y => Some (Z.min x y)
  | _, _ => None
  end.

(** [a >= k] for a literal [k]. *)
Definition num_ge (a : num) (k : Z) : bool :=
  match a with
  | Some x => k <=? x
  | None => false
  end.

(** [`${n}`]. *)
Definition show_num (n : num) : string :=
  match n with
  | Some k => pretty k
  | None => "NaN"
  end.

(** [table.maxLines] inside a string concatenation. *)
Definition show_field (n : num) : string :=
  match n with
  | Some k => pretty k
  | None => "undefined"
  end.

(** [arr[i]] where [i] is a computed number. *)
Definition js_index {A} (arr : list A) (i : num) : option A :=
  match i with
  | Some k => if k <? 0 then None else arr !! Z.to_nat k
  | None => None
  end.

Definition or_undefined (o : option value) : value :=
  match o with
  | Some v => v
  | None => VUndefined
  end.

(** The properties that every plain object inherits from
    [Object.prototype], each with the [length] of its value: the arity of
    the function, and [undefined] for the accessor [__proto__], whose value
    is the prototype. *)
Definition Object_prototype : list (string * num) :=
  [ ("constructor", Some 1); ("__defineGetter__", Some 2);
    ("__defineSetter__", Some 2); ("hasOwnProperty", Some 1);
    ("__lookupGetter__", Some 1); ("__lookupSetter__", Some 1);
    ("isPrototypeOf", Some 1); ("propertyIsEnumerable", Some 1);
    ("toString", Some 0); ("valueOf", Some 0); ("__proto__", None);
    ("toLocaleString", Some 0) ].

Definition Object_prototype_length (key : string) : option num :=
  snd <$> find (fun p => String.eqb (fst p) key) Object_prototype.

(** The double nearest to [0.1], the constant of [Math.random() <= 0.1]. *)
Definition one_tenth : Q := 3602879701896397 # 36028797018963968.

(** ** Descriptors *)

Module Options.
Record t : Type := Build {
  nullable : bool;
  unique : bool;
  autoIncrement : bool;
  min : num;
  max : num
}.
End Options.

Record ForeignKey : Type := {
  fk_table : string;
  fk_column : string;
  fk_where : option string
}.

(** The three shapes of [column.values]. *)
Inductive Values : Type :=
| ValuesArray (vs : list value)
| ValuesName (key : string)
| ValuesRatio (weights : list (string * Z)).

(** The tags of the [switch (column.generator)]; a tag without a [case] is
    [g_other]. *)
Inductive GeneratorTag : Type :=
| g_bit | g_tinyint | g_bool | g_boolean | g_smallint | g_mediumint
| g_int | g_integer | g_bigint
| g_decimal | g_dec | g_float | g_double
| g_date | g_datetime | g_timestamp
| g_time | g_year
| g_varchar | g_char | g_binary | g_varbinary
| g_tinyblob
| g_text | g_mediumtext | g_longtext
| g_blob | g_mediumblob | g_longblob
| g_set | g_enum
| g_other (tag : string).

Record Column : Type := {
  col_name : string;
  generator : GeneratorTag;
  options : Options.t;
  foreignKey : option ForeignKey;
  values : option Values
}.

(** [BaseTable]. *)
Record Table : Type := {
  name : string;
  lines : num;
  columns : list Column;
  before_ : option (list string);
  after_ : option (list string);
  maxLines : num;
  addLines : num
}.

Record Schema : Type := {
  maxCharLength : num;
  schema_values : gmap string (list value)
}.

(** [if (column.values)]: arrays and objects are truthy, the empty string is
    not. *)
Definition values_truthy (v : option Values) : bool :=
  match v with
  | Some (ValuesName key) => negb (String.eqb key "")
  | Some _ => true
  | None => false
  end.

(** ** The collaborators *)

(** A promise of the connector settles: it resolves with a value or rejects
    with an error. *)
Inductive reply (A : Type) : Type :=
| Resolved (a : A)
| Rejected (msg : string).
Arguments Resolved {A} a.
Arguments Rejected {A} msg.

(** The part of [DatabaseConnector] that the generator calls, over a
    database state [S]. *)
Record DatabaseConnector (S : Type) : Type := {
  countLines : Table -> S -> reply Z * S;
  emptyTable : Table -> S -> reply unit * S;
  executeRawQuery : string -> S -> reply unit * S;
  getValuesForForeignKeys :
    string -> string -> string -> string -> Z -> bool -> option string ->
    S -> reply (list value) * S;
  insert : string -> list row -> S -> reply Z * S
}.
Arguments countLines {S}.
Arguments emptyTable {S}.
Arguments executeRawQuery {S}.
Arguments getValuesForForeignKeys {S}.
Arguments insert {S}.

(** The sources of randomness, over a generator state [R]: the [Randomizer]
    module, [Math.random], [uuid4(MersenneTwister19937.autoSeed())], and the
    two dates that depend on the environment. *)
Record Randomness (R : Type) : Type := {
  randomInt : num -> num -> R -> num * R;
  randomBit : num -> R -> value * R;
  randomFloat : num -> num -> R -> value * R;
  randomDate : num -> num -> R -> value * R;
  randomString : num -> R -> string * R;
  Math_random : R -> Q * R;
  uuid4 : R -> string * R;
  date_1970 : num;
  date_now : R -> num * R
}.
Arguments randomInt {R}.
Arguments randomBit {R}.
Arguments randomFloat {R}.
Arguments randomDate {R}.
Arguments randomString {R}.
Arguments Math_random {R}.
Arguments uuid4 {R}.
Arguments date_1970 {R}.
Arguments date_now {R}.

(** ** Traces *)

Inductive event : Type :=
| CountLines (table : string) (answer : reply Z)
| EmptyTable (table : string) (answer : reply unit)
| ExecuteRawQuery (query : string) (answer : reply unit)
| GetValuesForForeignKeys
    (table column refTable refColumn : string) (count : Z) (uniq : bool)
    (where_ : option string) (answer : reply (list value))
| Insert (table : string) (rows : list row) (answer : reply Z)
| ConsoleLog (msg : string)
| ConsoleWarn (msg : string).

(** ** The monad of the generator *)

(** How a computation ends.  [OutOfFuel] is not a behaviour of the program:
    it is the model giving up on a loop. *)
Inductive result (A : Type) : Type :=
| Ok (a : A)
| Throw (msg : string)
| OutOfFuel.
Arguments Ok {A} a.
Arguments Throw {A} msg.
Arguments OutOfFuel {A}.

Record world (S R : Type) : Type := World {
  db : S;
  rng : R;
  trace : list event
}.
Arguments World {S R}.
Arguments db {S R}.
Arguments rng {S R}.
Arguments trace {S R}.

Definition M (S R A : Type) : Type := world S R -> result A * world S R.

Definition ret {S R A} (a : A) : M S R A := fun w => (Ok a, w).

Definition bind {S R A B} (m : M S R A) (k : A -> M S R B) : M S R B :=
  fun w =>
    match m w with
    | (Ok a, w') => k a w'
    | (Throw msg, w') => (Throw msg, w')
    | (OutOfFuel, w') => (OutOfFuel, w')
    end.

Definition throw {S R A} (msg : string) : M S R A := fun w => (Throw msg, w).

(** [try { m } catch (ex) { h(ex.message) }]. *)
Definition try_catch {S R A} (m : M S R A) (h : string -> M S R A) : M S R A :=
  fun w =>
    match m w with
    | (Throw msg, w') => h msg w'
    | other => other
    end.

Declare Scope gen_scope.
Delimit Scope gen_scope with gen.
Notation "x <- m ;; k" := (bind m (fun x => k))
  (at level 100, m at next level, right associativity) : gen_scope.
Notation "m ;;; k" := (bind m (fun _ => k))
  (at level 100, right associativity) : gen_scope.

Local Open Scope gen_scope.

(** ** The generator *)

(** How the batch loop of [generateData] is left: the target is reached, a
    foreign key could not be resolved, or a batch inserted nothing. *)
Inductive Exit : Type :=
| Reached
| Starved (msg : string)
| Stalled.

(** What one iteration of the batch loop does to the loop: go on with a new
    row count and the foreign-key pools, or [break]. *)
Inductive Step : Type :=
| Continue (currentNbRows : Z) (tableForeignKeyValues : gmap string (list value))
| Break (e : Exit) (currentNbRows : Z).

Section Generator.
Context {S R : Type}.
Variable dbConnector : DatabaseConnector S.
Variable Randomizer : Randomness R.
Variable schema : Schema.

Abbreviation Gen := (M S R).

(** *** Primitive actions *)

(** [await this.dbConnector.f(...)]: the database moves on, the call is
    recorded, a rejection is thrown. *)
Definition await {A} (f : S -> reply A * S) (ev : reply A -> event) : Gen A :=
  fun w =>
    let (a, s') := f (db w) in
    let w' := World s' (rng w) (trace w ++ [ev a]) in
    match a with
    | Resolved x => (Ok x, w')
    | Rejected msg => (Throw msg, w')
    end.

Definition random {A} (f : R -> A * R) : Gen A :=
  fun w => let (a, r') := f (rng w) in (Ok a, World (db w) r' (trace w)).

Definition console (ev : event) : Gen unit :=
  fun w => (Ok tt, World (db w) (rng w) (trace w ++ [ev])).

Definition out_of_fuel {A} : Gen A := fun w => (OutOfFuel, w).

(** *** [empty] *)

Definition empty (table : Table) : Gen unit :=
  console (ConsoleLog ("empty:  " +:+ name table)) ;;;
  await (emptyTable dbConnector table) (EmptyTable (name table)).

(** *** [getForeignKeyValues] *)

Definition fk_key (column : Column) (foreignKey : ForeignKey) : string :=
  col_name column +:+ "_" +:+ fk_table foreignKey +:+ "_" +:+ fk_column foreignKey.

(** The message of the error; [`${table}`] of an object is
    [[object Object]]. *)
Definition starvation_message (foreignKey : ForeignKey) : string :=
  "[object Object]: Not enough values available for foreign key "
    +:+ fk_table foreignKey +:+ "." +:+ fk_column foreignKey.

(** The loop over [table.columns].  The map is updated in place in the
    source; when the method throws, its caller leaves the batch loop and
    never reads the map again, so that the model returns the map only on
    success. *)
Fixpoint getForeignKeyValues_from (table : Table) (cols : list Column)
    (tableForeignKeyValues : gmap string (list value)) (runRows : Z)
    : Gen (gmap string (list value)) :=
  match cols with
  | [] => ret tableForeignKeyValues
  | column :: rest =>
      match foreignKey column with
      | Some foreignKey =>
          values <- await
            (getValuesForForeignKeys dbConnector (name table) (col_name column)
               (fk_table foreignKey) (fk_column foreignKey) runRows
               (Options.unique (options column)) (fk_where foreignKey))
            (GetValuesForForeignKeys (name table) (col_name column)
               (fk_table foreignKey) (fk_column foreignKey) runRows
               (Options.unique (options column)) (fk_where foreignKey)) ;;
          if (length values =? 0)%nat && negb (Options.nullable (options column))
          then throw (starvation_message foreignKey)
          else getForeignKeyValues_from table rest
                 (<[fk_key column foreignKey := values]> tableForeignKeyValues) runRows
      | None => getForeignKeyValues_from table rest tableForeignKeyValues runRows
      end
  end.

Definition getForeignKeyValues (table : Table)
    (tableForeignKeyValues : gmap string (list value)) (runRows : Z)
    : Gen (gmap string (list value)) :=
  getForeignKeyValues_from table (columns table) tableForeignKeyValues runRows.

(** *** [before] and [after] *)

Fixpoint executeAll (queries : list string) : Gen unit :=
  match queries with
  | [] => ret tt
  | query :: rest =>
      await (executeRawQuery dbConnector query) (ExecuteRawQuery query) ;;;
      executeAll rest
  end.

Definition before (table : Table) : Gen unit :=
  match before_ table with
  | None => ret tt
  | Some queries => executeAll queries
  end.

Definition after (table : Table) : Gen unit :=
  match after_ table with
  | None => ret tt
  | Some queries => executeAll queries
  end.

(** *** The synthesis of one column of one row *)

Definition num_value (n : num) : value :=
  match n with
  | Some k => VInt k
  | None => VNaN
  end.

(** [if (column.options.nullable && Math.random() <= 0.1)
      row[column.name] = null;] *)
Definition nullify (column : Column) (r : row) : Gen row :=
  if Options.nullable (options column) then
    u <- random (Math_random Randomizer) ;;
    ret (if Qle_bool u one_tenth then <[col_name column := VNull]> r else r)
  else ret r.

(** [new Array(n).fill(key)]: a [RangeError] unless [n] is an array
    length. *)
Definition filled_array (n : Z) (key : string) : Gen (list string) :=
  if (n <? 0) || (4294967295 <? n) then throw "Invalid array length"
  else ret (replicate (Z.to_nat n) key).

Fixpoint valuesWithRatio (weights : list (string * Z)) (acc : list string)
    : Gen (list string) :=
  match weights with
  | [] => ret acc
  | (key, n) :: rest =>
      arr <- filled_array n key ;;
      valuesWithRatio rest (acc ++ arr)
  end.

Definition pick {A} (inj : A -> value) (arr : list A) : Gen value :=
  i <- random (randomInt Randomizer (Some 0) (Some (Z.of_nat (length arr) - 1))) ;;
  ret (or_undefined (inj <$> js_index arr i)).

(** [this.schema.values[column.values]] reads a plain object: a name that
    is not a key of [schema.values] is looked up in [Object.prototype].
    What is found there is a function, whose [length] is its arity and
    which has no property at a number, or, at [__proto__], the prototype
    itself, which has neither. *)
Definition from_values (vals : Values) : Gen value :=
  match vals with
  | ValuesArray vs => pick id vs
  | ValuesName key =>
      match schema_values schema !! key with
      | Some vs => pick id vs
      | None =>
          match Object_prototype_length key with
          | Some len =>
              random (randomInt Randomizer (Some 0) (Z.pred <$> len)) ;;;
              ret VUndefined
          | None => throw "Cannot read properties of undefined (reading 'length')"
          end
      end
  | ValuesRatio weights =>
      arr <- valuesWithRatio weights [] ;;
      pick VStr arr
  end.

Definition random_string (lo hi : num) : Gen value :=
  n <- random (randomInt Randomizer lo hi) ;;
  s <- random (randomString Randomizer n) ;;
  ret (VStr s).

Definition random_integer (lo hi : num) : Gen value :=
  n <- random (randomInt Randomizer lo hi) ;;
  ret (num_value n).

(** [Math.floor(Math.random() * k) + d]. *)
Definition scaled (u : Q) (k : num) (d : Z) : value :=
  match k with
  | Some k => VInt (Qfloor (u * inject_Z k) + d)
  | None => VNaN
  end.

(** The body of [for (var c = 0; ...)] in [generateData], for row [i] of
    the batch. *)
Definition generateColumn (i : nat)
    (tableForeignKeyValues : gmap string (list value))
    (column : Column) (r : row) : Gen row :=
  let o := options column in
  let set v := <[col_name column := v]> r in
  if Options.autoIncrement o then ret r
  else if values_truthy (values column) then
    match values column with
    | Some vals => v <- from_values vals ;; ret (set v)
    | None => ret r
    end
  else
    match foreignKey column with
    | Some fk =>
        match tableForeignKeyValues !! fk_key column fk with
        | Some foreignKeys => ret (set (or_undefined (foreignKeys !! i)))
        | None => throw "Cannot read properties of undefined"
        end
    | None =>
        match generator column with
        | g_bit | g_set =>
            v <- random (randomBit Randomizer (Options.max o)) ;;
            nullify column (set v)
        | g_tinyint | g_smallint | g_mediumint
        | g_int | g_integer | g_bigint | g_year =>
            v <- random_integer (Options.min o) (Options.max o) ;;
            nullify column (set v)
        | g_bool | g_boolean =>
            v <- random_integer (Some 0) (Some 1) ;;
            nullify column (set v)
        | g_decimal | g_dec | g_float | g_double =>
            v <- random (randomFloat Randomizer (Options.min o) (Options.max o)) ;;
            nullify column (set v)
        | g_date | g_datetime | g_timestamp =>
            let min :=
              if truthy (Options.min o) then Options.min o
              else date_1970 Randomizer in
            max <- (if truthy (Options.max o) then ret (Options.max o)
                    else random (date_now Randomizer)) ;;
            v <- random (randomDate Randomizer min max) ;;
            nullify column (set v)
        | g_time =>
            hours <- random (randomInt Randomizer (Some (-838)) (Some 838)) ;;
            minutes <- random (randomInt Randomizer (Some 0) (Some 59)) ;;
            seconds <- random (randomInt Randomizer (Some 0) (Some 59)) ;;
            nullify column
              (set (VStr (show_num hours +:+ ":" +:+ show_num minutes
                            +:+ ":" +:+ show_num seconds)))
        | g_varchar | g_char | g_binary | g_varbinary =>
            if num_ge (Options.max o) 36 && Options.unique o then
              u <- random (uuid4 Randomizer) ;;
              ret (set (VStr u))
            else
              v <- random_string (Options.min o)
                     (Math_min (maxCharLength schema) (Options.max o)) ;;
              nullify column (set v)
        | g_tinyblob =>
            v <- random_string (Some 0) (Some 10) ;;
            nullify column (set v)
        | g_text | g_mediumtext | g_longtext
        | g_blob | g_mediumblob | g_longblob =>
            v <- random_string (Some 0)
                   (Math_min (maxCharLength schema) (Options.max o)) ;;
            nullify column (set v)
        | g_enum =>
            u <- random (Math_random Randomizer) ;;
            if Options.nullable o
            then ret (set (scaled u (Z.succ <$> Options.max o) 0))
            else ret (set (scaled u (Options.max o) 1))
        | g_other _ => ret r
        end
    end.

Fixpoint generateRow (i : nat) (fks : gmap string (list value))
    (cols : list Column) (r : row) : Gen row :=
  match cols with
  | [] => ret r
  | column :: rest =>
      r' <- generateColumn i fks column r ;;
      generateRow i fks rest r'
  end.

(** [for (let i = 0; i < runRows; i++) { ...; rows.push(row); }], from
    index [i] on, [n] rows to go. *)
Fixpoint generateRows (table : Table) (fks : gmap string (list value))
    (n i : nat) : Gen (list row) :=
  match n with
  | O => ret []
  | Datatypes.S n' =>
      r <- generateRow i fks (columns table) ∅ ;;
      rows <- generateRows table fks n' (Datatypes.S i) ;;
      ret (r :: rows)
  end.

(** *** [generateData] *)

(** The local [maxLines]: the row count to reach. *)
Definition targetLines (table : Table) (currentNbRows : Z) : Z :=
  if truthy (addLines table) then
    let m := currentNbRows + default 0 (addLines table) in
    if truthy (maxLines table) then Z.min m (default 0 (maxLines table))
    else m
  else if truthy (maxLines table) then default 0 (maxLines table)
  else 0.

Definition stall_message (table : Table) : string :=
  "Last run didn't insert any new rows in " +:+ name table.

(** The body of [batch: while (currentNbRows < maxLines)]; [target] is the
    local [maxLines]. *)
Definition batch (table : Table) (target : Z)
    (tableForeignKeyValues : gmap string (list value)) (currentNbRows : Z)
    : Gen Step :=
  let previousRunRows := currentNbRows in
  let runRows := Z.min 1000 (target - currentNbRows) in
  resolved <-
    try_catch
      (fks <- getForeignKeyValues table tableForeignKeyValues runRows ;;
       ret (inl fks))
      (fun msg => console (ConsoleWarn msg) ;;; ret (inr msg)) ;;
  match resolved with
  | inr msg => ret (Break (Starved msg) currentNbRows)
  | inl fks =>
      rows <- generateRows table fks (Z.to_nat runRows) 0 ;;
      inserted <- await (insert dbConnector (name table) rows)
                    (Insert (name table) rows) ;;
      let currentNbRows := currentNbRows + inserted in
      if previousRunRows =? currentNbRows then
        console (ConsoleWarn (stall_message table)) ;;;
        ret (Break Stalled currentNbRows)
      else
        console (ConsoleLog (pretty currentNbRows +:+ " / "
                               +:+ show_field (maxLines table))) ;;;
        ret (Continue currentNbRows fks)
  end.

Fixpoint batches (fuel : nat) (table : Table) (target : Z)
    (tableForeignKeyValues : gmap string (list value)) (currentNbRows : Z)
    : Gen (Exit * Z) :=
  if currentNbRows <? target then
    match fuel with
    | O => out_of_fuel
    | Datatypes.S fuel' =>
        s <- batch table target tableForeignKeyValues currentNbRows ;;
        match s with
        | Continue currentNbRows fks => batches fuel' table target fks currentNbRows
        | Break e currentNbRows => ret (e, currentNbRows)
        end
    end
  else ret (Reached, currentNbRows).

(** [generateData] returns nothing in the source; the model returns how
    the loop was left and the last value of [currentNbRows]. *)
Definition generateData (fuel : nat) (table : Table) : Gen (Exit * Z) :=
  currentNbRows <- await (countLines dbConnector table)
                     (CountLines (name table)) ;;
  batches fuel table (targetLines table currentNbRows) ∅ currentNbRows.

(** *** [fill] *)

(** [if (this.before)] tests that the method exists, which it does. *)
Definition fill (fuel : nat) (table : Table) (reset : bool) : Gen (Exit * Z) :=
  (if reset then empty table else ret tt) ;;;
  console (ConsoleLog ("fill:  " +:+ name table)) ;;;
  before table ;;;
  x <- generateData fuel table ;;
  after table ;;;
  ret x.

End Generator.


(** ** Concrete collaborators

    A connector in the manner of the test connector of the repository: the
    database is the row count of the one table, [insert] reports
    [accept (rows.length)] rows, and a foreign-key fetch answers with the
    first [count] values of the [pool] of the current row count.  The
    randomness is a counter; every draw of [Math.random] is [0], so that
    every null replacement that is attempted happens. *)
Module Stub.

Definition connector (pool : Z -> list value) (accept : Z -> Z)
    : DatabaseConnector Z := {|
  countLines _ s := (Resolved s, s);
  emptyTable _ _ := (Resolved tt, 0);
  executeRawQuery _ s := (Resolved tt, s);
  getValuesForForeignKeys _ _ _ _ count _ _ s :=
    (Resolved (take (Z.to_nat count) (pool s)), s);
  insert _ rows s :=
    let k := accept (Z.of_nat (length rows)) in (Resolved k, s + k)
|}.

Definition a_uuid : string := "6f1c2a94-3b7e-4d58-9a10-2c4e8f7b5d31".

Fixpoint xs (n : nat) : string :=
  match n with
  | O => ""
  | Datatypes.S k => "x" +:+ xs k
  end.

Definition randomness : Randomness nat := {|
  randomInt lo _ r := (lo, Datatypes.S r);
  randomBit _ r := (VInt 0, Datatypes.S r);
  randomFloat lo _ r := (num_value lo, Datatypes.S r);
  randomDate lo _ r := (VDate lo, Datatypes.S r);
  randomString n r := (xs (Z.to_nat (default 0 n)), Datatypes.S r);
  Math_random r := (0%Q, Datatypes.S r);
  uuid4 r := (a_uuid, Datatypes.S r);
  date_1970 := Some 0;
  date_now r := (Some 1000, Datatypes.S r)
|}.

Definition schema : Schema :=
  {| maxCharLength := Some 255; schema_values := ∅ |}.

Definition start (rows : Z) : world Z nat :=
  {| db := rows; rng := O; trace := [] |}.

Definition plain : Options.t :=
  {| Options.nullable := false; Options.unique := false;
     Options.autoIncrement := false; Options.min := Some 0;
     Options.max := Some 10 |}.

(** [id int auto_increment], [name varchar(10)]: the table of the scenario
    of the specification, with a target that is left open. *)
Definition users (maxLines addLines : num) : Table := {|
  name := "users";
  lines := None;
  columns :=
    [ {| col_name := "id"; generator := g_int;
         options := {| Options.nullable := false; Options.unique := false;
                       Options.autoIncrement := true; Options.min := Some 0;
                       Options.max := Some 100 |};
         foreignKey := None; values := None |};
      {| col_name := "name"; generator := g_varchar; options := plain;
         foreignKey := None; values := None |} ];
  before_ := None;
  after_ := None;
  maxLines := maxLines;
  addLines := addLines
|}.

(** A table with a required foreign key and two [after] statements. *)
Definition orders : Table := {|
  name := "orders";
  lines := None;
  columns :=
    [ {| col_name := "user_id"; generator := g_int; options := plain;
         foreignKey := Some {| fk_table := "users"; fk_column := "id";
                               fk_where := None |};
         values := None |};
      {| col_name := "note"; generator := g_text; options := plain;
         foreignKey := None; values := None |} ];
  before_ := None;
  after_ := Some ["ANALYZE TABLE orders"; "SET FOREIGN_KEY_CHECKS = 1"];
  maxLines := Some 3;
  addLines := None
|}.

(** One referenced value as long as the table is empty, none after. *)
Definition one_user (rows : Z) : list value :=
  if rows =? 0 then [VInt 7] else [].

End Stub.

(** * Properties *)

(** ** What a computation may touch *)

Definition is_insert (e : event) : Prop :=
  match e with Insert _ _ _ => True | _ => False end.

Definition is_fetch (e : event) : Prop :=
  match e with GetValuesForForeignKeys _ _ _ _ _ _ _ _ => True | _ => False end.

Definition is_query (e : event) : Prop :=
  match e with ExecuteRawQuery _ _ => True | _ => False end.

Section Frames.
Context {S R : Type}.
Implicit Types w : world S R.

(** Every event that [m] adds to the trace satisfies [P]. *)
Definition emits {A} (P : event -> Prop) (m : M S R A) : Prop :=
  forall w, exists evs, trace (m w).2 = trace w ++ evs /\ Forall P evs.

(** [m] only draws random numbers: the database and the trace stay. *)
Definition synthesizes {A} (m : M S R A) : Prop :=
  forall w, db (m w).2 = db w /\ trace (m w).2 = trace w.

(** [m] draws no random number. *)
Definition draws_nothing {A} (m : M S R A) : Prop :=
  forall w, rng (m w).2 = rng w.

(** [m] ends: the model does not give up on it. *)
Definition terminates {A} (m : M S R A) : Prop :=
  forall w, (m w).1 <> OutOfFuel.

Lemma emits_ret {A} P (a : A) : emits P (ret a).
Proof. intros w. exists []. simpl. by rewrite app_nil_r. Qed.

Lemma emits_throw {A} P msg : emits P (@throw S R A msg).
Proof. intros w. exists []. simpl. by rewrite app_nil_r. Qed.

Lemma emits_out_of_fuel {A} P : emits P (@out_of_fuel S R A).
Proof. intros w. exists []. simpl. by rewrite app_nil_r. Qed.

Lemma emits_bind {A B} P (m : M S R A) (k : A -> M S R B) :
  emits P m -> (forall a, emits P (k a)) -> emits P (bind m k).
Proof.
  intros Hm Hk w. unfold bind.
  destruct (Hm w) as (evs & Ht & HP).
  destruct (m w) as [[a | msg |] w1]; simpl in *; eauto.
  destruct (Hk a w1) as (evs' & Ht' & HP').
  exists (evs ++ evs'). rewrite Ht', Ht, <- app_assoc.
  split; [done | by apply Forall_app].
Qed.

Lemma emits_try_catch {A} P (m : M S R A) h :
  emits P m -> (forall msg, emits P (h msg)) -> emits P (try_catch m h).
Proof.
  intros Hm Hh w. unfold try_catch.
  destruct (Hm w) as (evs & Ht & HP).
  destruct (m w) as [[a | msg |] w1]; simpl in *; eauto.
  destruct (Hh msg w1) as (evs' & Ht' & HP').
  exists (evs ++ evs'). rewrite Ht', Ht, <- app_assoc.
  split; [done | by apply Forall_app].
Qed.

Lemma emits_await {A} (P : event -> Prop) (f : S -> reply A * S) ev :
  (forall a, P (ev a)) -> emits P (await (R := R) f ev).
Proof.
  intros HP w. unfold await. destruct (f (db w)) as [a s'].
  exists [ev a]. destruct a; simpl; auto.
Qed.

Lemma emits_console (P : event -> Prop) e : P e -> emits P (@console S R e).
Proof. intros HP w. exists [e]. simpl. auto. Qed.

Lemma emits_weaken {A} (P Q : event -> Prop) (m : M S R A) :
  (forall e, P e -> Q e) -> emits P m -> emits Q m.
Proof.
  intros HPQ Hm w. destruct (Hm w) as (evs & Ht & HP).
  exists evs. split; [done |]. eapply Forall_impl; eauto.
Qed.

Lemma synthesizes_emits {A} P (m : M S R A) : synthesizes m -> emits P m.
Proof.
  intros Hm w. exists []. rewrite app_nil_r. split; [apply Hm | constructor].
Qed.

Lemma synthesizes_ret {A} (a : A) : synthesizes (@ret S R A a).
Proof. by intros w. Qed.

Lemma synthesizes_throw {A} msg : synthesizes (@throw S R A msg).
Proof. by intros w. Qed.

Lemma synthesizes_random {A} (f : R -> A * R) : synthesizes (@random S R A f).
Proof. intros w. unfold random. by destruct (f (rng w)). Qed.

Lemma synthesizes_bind {A B} (m : M S R A) (k : A -> M S R B) :
  synthesizes m -> (forall a, synthesizes (k a)) -> synthesizes (bind m k).
Proof.
  intros Hm Hk w. unfold bind. destruct (Hm w) as [Hd Ht].
  destruct (m w) as [[a | msg |] w1]; simpl in *; auto.
  destruct (Hk a w1) as [Hd' Ht']. split; congruence.
Qed.

Lemma draws_nothing_ret {A} (a : A) : draws_nothing (@ret S R A a).
Proof. by intros w. Qed.

Lemma draws_nothing_throw {A} msg : draws_nothing (@throw S R A msg).
Proof. by intros w. Qed.

Lemma draws_nothing_await {A} (f : S -> reply A * S) ev :
  draws_nothing (await (R := R) f ev).
Proof. intros w. unfold await. by destruct (f (db w)) as [[a | msg] s']. Qed.

Lemma draws_nothing_console e : draws_nothing (@console S R e).
Proof. by intros w. Qed.

Lemma draws_nothing_bind {A B} (m : M S R A) (k : A -> M S R B) :
  draws_nothing m -> (forall a, draws_nothing (k a)) -> draws_nothing (bind m k).
Proof.
  intros Hm Hk w. unfold bind. specialize (Hm w).
  destruct (m w) as [[a | msg |] w1]; simpl in *; auto.
  rewrite Hk. done.
Qed.

Lemma terminates_ret {A} (a : A) : terminates (@ret S R A a).
Proof. by intros w. Qed.

Lemma terminates_throw {A} msg : terminates (@throw S R A msg).
Proof. by intros w. Qed.

Lemma terminates_random {A} (f : R -> A * R) : terminates (@random S R A f).
Proof. intros w. unfold random. by destruct (f (rng w)). Qed.

Lemma terminates_await {A} (f : S -> reply A * S) ev :
  terminates (await (R := R) f ev).
Proof. intros w. unfold await. by destruct (f (db w)) as [[a | msg] s']. Qed.

Lemma terminates_console e : terminates (@console S R e).
Proof. by intros w. Qed.

Lemma terminates_bind {A B} (m : M S R A) (k : A -> M S R B) :
  terminates m -> (forall a, terminates (k a)) -> terminates (bind m k).
Proof.
  intros Hm Hk w. unfold bind. specialize (Hm w).
  destruct (m w) as [[a | msg |] w1]; simpl in *; [apply Hk | done | done].
Qed.

Lemma terminates_try_catch {A} (m : M S R A) h :
  terminates m -> (forall msg, terminates (h msg)) ->
  terminates (try_catch m h).
Proof.
  intros Hm Hh w. unfold try_catch. specialize (Hm w).
  destruct (m w) as [[a | msg |] w1]; simpl in *; [done | apply Hh | done].
Qed.

End Frames.

Create HintDb frames.
#[export] Hint Resolve emits_ret emits_throw emits_out_of_fuel emits_console
  synthesizes_ret synthesizes_throw synthesizes_random
  draws_nothing_ret draws_nothing_throw draws_nothing_await
  draws_nothing_console
  terminates_ret terminates_throw terminates_random terminates_await
  terminates_console : frames.

(** One step of a frame proof: through a [bind], a [match] or an [if], or
    closed by a hint. *)
Ltac frame_step :=
  match goal with
  | |- synthesizes (bind _ _) => apply synthesizes_bind; [| intros ?]
  | |- draws_nothing (bind _ _) => apply draws_nothing_bind; [| intros ?]
  | |- emits _ (bind _ _) => apply emits_bind; [| intros ?]
  | |- terminates (bind _ _) => apply terminates_bind; [| intros ?]
  | |- terminates (try_catch _ _) => apply terminates_try_catch; [| intros ?]
  | |- emits _ (try_catch _ _) => apply emits_try_catch; [| intros ?]
  | |- ?F (match ?x with _ => _ end) => destruct x
  | |- ?F _ (match ?x with _ => _ end) => destruct x
  | |- _ => solve [auto with frames]
  end.

Ltac frames := repeat frame_step.

(** ** The frames of the methods *)

Section MethodFrames.
Context {S R : Type}.
Variable dbConnector : DatabaseConnector S.
Variable Randomizer : Randomness R.
Variable schema : Schema.
Implicit Types w : world S R.

Lemma synthesizes_nullify column r :
  synthesizes (S := S) (nullify Randomizer column r).
Proof. unfold nullify. frames. Qed.

Lemma synthesizes_valuesWithRatio weights acc :
  synthesizes (S := S) (R := R) (valuesWithRatio weights acc).
Proof.
  revert acc. induction weights as [| [key n] rest IH]; intros acc; simpl.
  - frames.
  - unfold filled_array. frames.
Qed.

Lemma synthesizes_from_values vals :
  synthesizes (S := S) (from_values Randomizer schema vals).
Proof.
  unfold from_values, pick. destruct vals; frames.
  apply synthesizes_valuesWithRatio.
Qed.

Lemma synthesizes_generateColumn i fks column r :
  synthesizes (S := S) (generateColumn Randomizer schema i fks column r).
Proof.
  pose proof synthesizes_nullify. pose proof synthesizes_from_values.
  unfold generateColumn, random_string, random_integer.
  repeat first [ frame_step | done ].
Qed.

Lemma synthesizes_generateRow i fks cols r :
  synthesizes (S := S) (generateRow Randomizer schema i fks cols r).
Proof.
  pose proof synthesizes_generateColumn.
  revert r. induction cols as [| column rest IH]; intros r; simpl; frames.
Qed.

Lemma synthesizes_generateRows table fks n i :
  synthesizes (S := S) (generateRows Randomizer schema table fks n i).
Proof.
  pose proof synthesizes_generateRow.
  revert i. induction n as [| n IH]; intros i; simpl; frames.
Qed.

Lemma terminates_generateColumn i fks column r :
  terminates (S := S) (generateColumn Randomizer schema i fks column r).
Proof.
  assert (Hw : forall weights acc,
             terminates (S := S) (R := R) (valuesWithRatio weights acc)).
  { induction weights as [| [key n] rest IH]; intros acc; simpl;
      unfold filled_array; frames. }
  unfold generateColumn, from_values, pick, nullify, random_string,
    random_integer.
  repeat first [ frame_step | done ].
Qed.

Lemma terminates_generateRows table fks n i :
  terminates (S := S) (generateRows Randomizer schema table fks n i).
Proof.
  pose proof terminates_generateColumn.
  assert (forall j cols r,
             terminates (S := S) (generateRow Randomizer schema j fks cols r)).
  { intros j cols. induction cols as [| column rest IH]; intros r; simpl; frames. }
  revert i. induction n as [| n IH]; intros i; simpl; frames.
Qed.

Lemma terminates_getForeignKeyValues table fks runRows :
  terminates (R := R) (getForeignKeyValues dbConnector table fks runRows).
Proof.
  unfold getForeignKeyValues. generalize (columns table) as cols.
  intros cols. revert fks.
  induction cols as [| column rest IH]; intros fks; simpl; frames.
Qed.

Lemma terminates_executeAll queries :
  terminates (R := R) (executeAll dbConnector queries).
Proof. induction queries as [| query rest IH]; simpl; frames. Qed.

(** The batch has as many rows as the loop has turns. *)
Lemma generateRows_length table fks n i w rows w' :
  generateRows Randomizer schema table fks n i w = (Ok rows, w') ->
  length rows = n.
Proof.
  revert i w rows w'. induction n as [| n IH]; intros i w rows w'; simpl.
  - unfold ret. by intros [= <- _].
  - unfold bind, ret.
    destruct (generateRow _ _ _ _ _ _ w) as [[r | msg |] w1]; [| done ..].
    destruct (generateRows _ _ _ _ _ _ w1) as [[rest | msg |] w2] eqn:E;
      [| done ..].
    intros [= <- _]. simpl. f_equal. eauto.
Qed.

Lemma emits_getForeignKeyValues_from table cols fks runRows :
  emits (R := R) is_fetch
    (getForeignKeyValues_from dbConnector table cols fks runRows).
Proof.
  revert fks. induction cols as [| column rest IH]; intros fks; simpl.
  - frames.
  - destruct (foreignKey column) as [fk |]; [| apply IH].
    apply emits_bind; [by apply emits_await |].
    intros vs. destruct (_ && _); [frames | apply IH].
Qed.

Lemma draws_nothing_getForeignKeyValues_from table cols fks runRows :
  draws_nothing (R := R)
    (getForeignKeyValues_from dbConnector table cols fks runRows).
Proof.
  revert fks. induction cols as [| column rest IH]; intros fks; simpl.
  - frames.
  - destruct (foreignKey column) as [fk |]; [| apply IH].
    apply draws_nothing_bind; [frames |].
    intros vs. destruct (_ && _); [frames | apply IH].
Qed.

Lemma emits_executeAll queries :
  emits (R := R) is_query (executeAll dbConnector queries).
Proof.
  induction queries as [| query rest IH]; simpl; [frames |].
  apply emits_bind; [by apply emits_await | done].
Qed.

Lemma emits_before table : emits (R := R) is_query (before dbConnector table).
Proof. unfold before. destruct (before_ table); [apply emits_executeAll | frames]. Qed.

Lemma emits_after table : emits (R := R) is_query (after dbConnector table).
Proof. unfold after. destruct (after_ table); [apply emits_executeAll | frames]. Qed.

End MethodFrames.

(** ** The batch loop, one iteration at a time *)

Section Loop.
Context {S R : Type}.
Variable dbConnector : DatabaseConnector S.
Variable Randomizer : Randomness R.
Variable schema : Schema.
Implicit Types w : world S R.

Definition logged (evs : list event) w : world S R :=
  World (db w) (rng w) (trace w ++ evs).

(** The number of rows of the batch that starts at [cur]. *)
Definition runRows_at (target cur : Z) : Z := Z.min 1000 (target - cur).

(** The foreign keys of the batch were resolved, by the calls [fetches]. *)
Definition resolved (table : Table) (fks : gmap string (list value))
    (runRows : Z) w (fks' : gmap string (list value)) w1
    (fetches : list event) : Prop :=
  getForeignKeyValues dbConnector table fks runRows w = (Ok fks', w1) /\
  trace w1 = trace w ++ fetches /\ Forall is_fetch fetches /\ rng w1 = rng w.

(** The rows of the batch were synthesized. *)
Definition generated (table : Table) (fks' : gmap string (list value))
    (runRows : Z) w1 (rows : list row) w2 : Prop :=
  generateRows Randomizer schema table fks' (Z.to_nat runRows) 0 w1 = (Ok rows, w2) /\
  trace w2 = trace w1 /\ db w2 = db w1 /\ length rows = Z.to_nat runRows.

(** The five ways through the body of the loop. *)
Variant batch_outcome (table : Table) (target : Z)
    (fks : gmap string (list value)) (cur : Z) w
    : result Step -> world S R -> Prop :=
| starved msg w1 fetches :
    getForeignKeyValues dbConnector table fks (runRows_at target cur) w
      = (Throw msg, w1) ->
    trace w1 = trace w ++ fetches -> Forall is_fetch fetches ->
    rng w1 = rng w ->
    batch_outcome table target fks cur w
      (Ok (Break (Starved msg) cur)) (logged [ConsoleWarn msg] w1)
| synthesis_failed fks' w1 fetches msg w2 :
    resolved table fks (runRows_at target cur) w fks' w1 fetches ->
    generateRows Randomizer schema table fks'
      (Z.to_nat (runRows_at target cur)) 0 w1 = (Throw msg, w2) ->
    trace w2 = trace w1 ->
    batch_outcome table target fks cur w (Throw msg) w2
| insert_rejected fks' w1 fetches rows w2 msg s' :
    resolved table fks (runRows_at target cur) w fks' w1 fetches ->
    generated table fks' (runRows_at target cur) w1 rows w2 ->
    insert dbConnector (name table) rows (db w2) = (Rejected msg, s') ->
    batch_outcome table target fks cur w (Throw msg)
      (World s' (rng w2)
         (trace w2 ++ [Insert (name table) rows (Rejected msg)]))
| stalled fks' w1 fetches rows w2 s' :
    resolved table fks (runRows_at target cur) w fks' w1 fetches ->
    generated table fks' (runRows_at target cur) w1 rows w2 ->
    insert dbConnector (name table) rows (db w2) = (Resolved 0, s') ->
    batch_outcome table target fks cur w (Ok (Break Stalled cur))
      (World s' (rng w2)
         (trace w2 ++ [Insert (name table) rows (Resolved 0);
                       ConsoleWarn (stall_message table)]))
| continued fks' w1 fetches rows w2 k s' :
    resolved table fks (runRows_at target cur) w fks' w1 fetches ->
    generated table fks' (runRows_at target cur) w1 rows w2 ->
    insert dbConnector (name table) rows (db w2) = (Resolved k, s') ->
    k <> 0 ->
    batch_outcome table target fks cur w (Ok (Continue (cur + k) fks'))
      (World s' (rng w2)
         (trace w2 ++ [Insert (name table) rows (Resolved k);
                       ConsoleLog (pretty (cur + k) +:+ " / "
                                     +:+ show_field (maxLines table))])).

Lemma batch_outcome_of table target fks cur w r w' :
  batch dbConnector Randomizer schema table target fks cur w = (r, w') ->
  batch_outcome table target fks cur w r w'.
Proof.
  unfold batch. fold (runRows_at target cur).
  set (runRows := runRows_at target cur).
  pose proof (terminates_getForeignKeyValues dbConnector table fks runRows w) as Htot.
  destruct (emits_getForeignKeyValues_from dbConnector table (columns table)
              fks runRows w) as (fetches & Ht & Hf).
  pose proof (draws_nothing_getForeignKeyValues_from dbConnector table
                (columns table) fks runRows w) as Hr.
  change (getForeignKeyValues_from dbConnector table (columns table) fks runRows w)
    with (getForeignKeyValues dbConnector table fks runRows w) in Ht, Hr.
  unfold bind, try_catch, await, console, ret.
  destruct (getForeignKeyValues dbConnector table fks runRows w)
    as [[fks' | msg |] w1] eqn:E1; simpl in *; [| | done].
  - pose proof (terminates_generateRows (S := S) Randomizer schema table fks'
                  (Z.to_nat runRows) 0 w1) as Htot2.
    destruct (synthesizes_generateRows (S := S) Randomizer schema table fks'
                (Z.to_nat runRows) 0 w1) as [Hd2 Ht2].
    destruct (generateRows Randomizer schema table fks' (Z.to_nat runRows) 0 w1)
      as [[rows | msg |] w2] eqn:E2; simpl in *; [| | done].
    + pose proof E2 as Hlen. apply generateRows_length in Hlen.
      destruct (insert dbConnector (name table) rows (db w2))
        as [[k | msg] s'] eqn:E3; simpl.
      * destruct (Z.eqb_spec cur (cur + k)) as [Hk | Hk]; simpl;
          intros [= <- <-].
        -- assert (k = 0) as -> by lia. rewrite Z.add_0_r, <- app_assoc.
           eapply stalled; unfold resolved, generated; eauto.
        -- rewrite <- app_assoc.
           eapply continued; unfold resolved, generated; eauto. lia.
      * intros [= <- <-].
        eapply insert_rejected; unfold resolved, generated; eauto.
    + intros [= <- <-]. eapply synthesis_failed; unfold resolved; eauto.
  - intros [= <- <-]. by eapply starved.
Qed.

Lemma batches_reached fuel table target fks cur w :
  target <= cur ->
  batches dbConnector Randomizer schema fuel table target fks cur w
    = (Ok (Reached, cur), w).
Proof.
  intros H. destruct fuel; simpl; destruct (Z.ltb_spec cur target); done || lia.
Qed.

Lemma batches_unfold fuel table target fks cur w :
  cur < target ->
  batches dbConnector Randomizer schema (Datatypes.S fuel) table target fks cur w =
  match batch dbConnector Randomizer schema table target fks cur w with
  | (Ok (Continue cur' fks'), w') =>
      batches dbConnector Randomizer schema fuel table target fks' cur' w'
  | (Ok (Break e cur'), w') => (Ok (e, cur'), w')
  | (Throw msg, w') => (Throw msg, w')
  | (OutOfFuel, w') => (OutOfFuel, w')
  end.
Proof.
  intros H. simpl. destruct (Z.ltb_spec cur target); [| lia].
  unfold bind.
  by destruct (batch _ _ _ _ _ _ _ w) as [[[cur' fks' | e cur'] | msg |] w'].
Qed.

End Loop.

(** ** [generateData] and [fill], stage by stage *)

(** The events of the hooks, and of the batch loop. *)
Definition is_hook (e : event) : Prop :=
  match e with
  | ExecuteRawQuery _ _ | ConsoleLog _ | EmptyTable _ _ => True
  | _ => False
  end.

Definition is_batch (e : event) : Prop :=
  match e with
  | GetValuesForForeignKeys _ _ _ _ _ _ _ _ | Insert _ _ _
  | ConsoleLog _ | ConsoleWarn _ => True
  | _ => False
  end.

#[export] Hint Extern 1 (is_hook _) => exact I : frames.
#[export] Hint Extern 1 (is_batch _) => exact I : frames.

Section Fill.
Context {S R : Type}.
Variable dbConnector : DatabaseConnector S.
Variable Randomizer : Randomness R.
Variable schema : Schema.
Implicit Types w : world S R.

(** What [fill] does before it calls [generateData]. *)
Definition fill_prologue (table : Table) (reset : bool) : M S R unit :=
  (if reset then empty dbConnector table else ret tt) ;;;
  console (ConsoleLog ("fill:  " +:+ name table)) ;;;
  before dbConnector table.

(** The result of [fill] once [generateData] has returned [x] in [w]. *)
Definition fill_epilogue (table : Table) (x : Exit * Z) : M S R (Exit * Z) :=
  after dbConnector table ;;; ret x.

Lemma emits_fill_prologue table reset :
  emits is_hook (fill_prologue table reset).
Proof.
  unfold fill_prologue, empty.
  assert (emits (S := S) (R := R) is_hook (before dbConnector table)).
  { eapply emits_weaken; [| apply emits_before]. by intros []. }
  destruct reset; frames; try by apply emits_await.
Qed.

Lemma terminates_fill_prologue table reset :
  terminates (fill_prologue table reset).
Proof.
  pose proof (terminates_executeAll (R := R) dbConnector).
  unfold fill_prologue, empty, before. destruct reset; frames.
Qed.

Lemma draws_nothing_fill_prologue table reset :
  draws_nothing (fill_prologue table reset).
Proof.
  assert (forall queries, draws_nothing (R := R) (executeAll dbConnector queries)).
  { induction queries; simpl; frames. }
  unfold fill_prologue, empty, before. destruct reset; frames.
Qed.

Lemma emits_fill_epilogue table x : emits is_hook (fill_epilogue table x).
Proof.
  unfold fill_epilogue. frames.
  eapply emits_weaken; [| apply emits_after]. by intros [].
Qed.

Lemma terminates_fill_epilogue table x : terminates (fill_epilogue table x).
Proof.
  pose proof (terminates_executeAll (R := R) dbConnector).
  unfold fill_epilogue, after. frames.
Qed.

Lemma fill_eq fuel table reset w :
  fill dbConnector Randomizer schema fuel table reset w =
  match fill_prologue table reset w with
  | (Ok _, w0) =>
      match generateData dbConnector Randomizer schema fuel table w0 with
      | (Ok x, w4) => fill_epilogue table x w4
      | (Throw msg, w4) => (Throw msg, w4)
      | (OutOfFuel, w4) => (OutOfFuel, w4)
      end
  | (Throw msg, w0) => (Throw msg, w0)
  | (OutOfFuel, w0) => (OutOfFuel, w0)
  end.
Proof.
  unfold fill, fill_prologue, fill_epilogue, bind.
  destruct (if reset then _ else _) as [[[] | msg |] w1]; [| done ..].
  destruct (console _ w1) as [[[] | msg |] w2]; [| done ..].
  destruct (before _ _ w2) as [[[] | msg |] w3]; done.
Qed.

Definition counted (table : Table) (a : reply Z) (s' : S) w : world S R :=
  World s' (rng w) (trace w ++ [CountLines (name table) a]).

Lemma generateData_eq fuel table w :
  generateData dbConnector Randomizer schema fuel table w =
  match countLines dbConnector table (db w) with
  | (Resolved n, s') =>
      batches dbConnector Randomizer schema fuel table (targetLines table n) ∅ n
        (counted table (Resolved n) s' w)
  | (Rejected msg, s') => (Throw msg, counted table (Rejected msg) s' w)
  end.
Proof.
  unfold generateData, bind, await.
  by destruct (countLines dbConnector table (db w)) as [[n | msg] s'].
Qed.

Lemma emits_batch table target fks cur :
  emits is_batch (batch dbConnector Randomizer schema table target fks cur).
Proof.
  unfold batch, getForeignKeyValues. frames.
  - eapply emits_weaken; [| apply emits_getForeignKeyValues_from]. by intros [].
  - apply synthesizes_emits, synthesizes_generateRows.
  - by apply emits_await.
Qed.

(** A property of the events of every batch that is run is a property of
    the events of the loop. *)
Lemma emits_batches (P : event -> Prop) fuel table target fks cur :
  (forall fks cur, cur < target ->
     emits P (batch dbConnector Randomizer schema table target fks cur)) ->
  emits P (batches dbConnector Randomizer schema fuel table target fks cur).
Proof.
  intros Hb. revert fks cur.
  induction fuel as [| fuel IH]; intros fks cur; simpl;
    destruct (Z.ltb_spec cur target); frames; auto.
Qed.

Lemma emits_generateData (P : event -> Prop) fuel table :
  (forall a, P (CountLines (name table) a)) ->
  (forall target fks cur, cur < target ->
     emits P (batch dbConnector Randomizer schema table target fks cur)) ->
  emits P (generateData dbConnector Randomizer schema fuel table).
Proof.
  intros Hc Hb. unfold generateData. frames.
  - by apply emits_await.
  - apply emits_batches; auto.
Qed.

Lemma emits_fill (P : event -> Prop) fuel table reset :
  (forall e, is_hook e -> P e) ->
  (forall a, P (CountLines (name table) a)) ->
  (forall target fks cur, cur < target ->
     emits P (batch dbConnector Randomizer schema table target fks cur)) ->
  emits P (fill dbConnector Randomizer schema fuel table reset).
Proof.
  intros Hh Hc Hb w. rewrite fill_eq.
  destruct (emits_weaken _ _ _ Hh (emits_fill_prologue table reset) w)
    as (evs0 & Ht0 & H0).
  destruct (fill_prologue table reset w) as [[[] | msg |] w0]; simpl in *; eauto.
  destruct (emits_generateData P fuel table Hc Hb w0) as (evs1 & Ht1 & H1).
  destruct (generateData _ _ _ _ _ w0) as [[x | msg |] w4]; simpl in *.
  - destruct (emits_weaken _ _ _ Hh (emits_fill_epilogue table x) w4)
      as (evs2 & Ht2 & H2).
    exists (evs0 ++ evs1 ++ evs2).
    rewrite Ht2, Ht1, Ht0, <- !app_assoc. split; [done |].
    by repeat apply Forall_app_2.
  - exists (evs0 ++ evs1). rewrite Ht1, Ht0, <- !app_assoc.
    split; [done | by apply Forall_app_2].
  - exists (evs0 ++ evs1). rewrite Ht1, Ht0, <- !app_assoc.
    split; [done | by apply Forall_app_2].
Qed.

End Fill.

(** ** Reading the events of a run *)

Lemma emits_elim {S R A} (P : event -> Prop) (m : M S R A) w evs :
  emits P m -> trace (m w).2 = trace w ++ evs -> Forall P evs.
Proof.
  intros Hm Ht. destruct (Hm w) as (evs' & Ht' & HP).
  rewrite Ht in Ht'. by apply app_inv_head in Ht' as ->.
Qed.

Lemma emits_intro {S R A} (P Q : event -> Prop) (m : M S R A) :
  emits Q m ->
  (forall w evs, trace (m w).2 = trace w ++ evs -> Forall P evs) ->
  emits P m.
Proof.
  intros Hm HP w. destruct (Hm w) as (evs & Ht & _). exists evs. eauto.
Qed.

(** The rows handed to [insert] number [P]. *)
Definition inserts_rows (P : nat -> Prop) (e : event) : Prop :=
  match e with
  | Insert _ rows _ => P (length rows)
  | _ => True
  end.

Definition no_insert_no_fetch (e : event) : Prop :=
  ~ is_insert e /\ ~ is_fetch e.

Section Batches.
Context {S R : Type}.
Variable dbConnector : DatabaseConnector S.
Variable Randomizer : Randomness R.
Variable schema : Schema.
Implicit Types w : world S R.

Lemma fetches_insert_rows (P : nat -> Prop) fetches :
  Forall is_fetch fetches -> Forall (inserts_rows P) fetches.
Proof. intros H. eapply Forall_impl; [exact H | by intros []]. Qed.

(** In a batch that starts below the target, [insert] gets
    [min(1000, target - cur)] rows. *)
Lemma batch_insert_rows table target fks cur w evs :
  cur < target ->
  trace (batch dbConnector Randomizer schema table target fks cur w).2
    = trace w ++ evs ->
  Forall (inserts_rows (fun n => Z.of_nat n = Z.min 1000 (target - cur))) evs.
Proof.
  intros Hlt.
  destruct (batch dbConnector Randomizer schema table target fks cur w)
    as [r w'] eqn:E.
  apply batch_outcome_of in E. simpl.
  assert (Hn : forall rows : list row,
             length rows = Z.to_nat (runRows_at target cur) ->
             Z.of_nat (length rows) = Z.min 1000 (target - cur)).
  { intros rows ->. unfold runRows_at. lia. }
  destruct E as
    [ msg w1 fetches _ Ht Hf _
    | fks' w1 fetches msg w2 (_ & Ht & Hf & _) _ Ht2
    | fks' w1 fetches rows w2 msg s' (_ & Ht & Hf & _) (_ & Ht2 & _ & Hlen) _
    | fks' w1 fetches rows w2 s' (_ & Ht & Hf & _) (_ & Ht2 & _ & Hlen) _
    | fks' w1 fetches rows w2 k s' (_ & Ht & Hf & _) (_ & Ht2 & _ & Hlen) _ _ ];
    simpl; rewrite ?Ht2, Ht, <- ?app_assoc;
    intros <-%app_inv_head;
    repeat first [ apply Forall_app_2 | apply Forall_cons_2 | apply Forall_nil_2 ];
    simpl; auto using fetches_insert_rows.
Qed.

Lemma emits_batch_insert_rows table target fks cur :
  cur < target ->
  emits (inserts_rows (fun n => (n <= 1000)%nat))
    (batch dbConnector Randomizer schema table target fks cur).
Proof.
  intros Hlt. eapply emits_intro; [apply emits_batch |].
  intros w evs Ht. eapply Forall_impl; [by eapply batch_insert_rows |].
  intros [] ; simpl; auto. lia.
Qed.

End Batches.

(** * The claims *)

Lemma hook_not_batchwork e : is_hook e -> no_insert_no_fetch e.
Proof. destruct e; simpl; unfold no_insert_no_fetch; simpl; tauto. Qed.

Lemma hook_not_count e table a : is_hook e -> e <> CountLines table a.
Proof. by destruct e. Qed.

Lemma batch_not_count e table a : is_batch e -> e <> CountLines table a.
Proof. by destruct e. Qed.

(** C7. In a run of [fill] without reset in which [countLines] answers with a
    row count that is at or above the target computed from it, no call of
    [insert] and no call of [getValuesForForeignKeys] is made. *)
Theorem full_table_is_left_alone {S R} (dbConnector : DatabaseConnector S)
    (Randomizer : Randomness R) (schema : Schema) fuel (table : Table)
    (w : world S R) evs n :
  trace (fill dbConnector Randomizer schema fuel table false w).2
    = trace w ++ evs ->
  CountLines (name table) (Resolved n) ∈ evs ->
  targetLines table n <= n ->
  Forall no_insert_no_fetch evs.
Proof.
  rewrite fill_eq.
  destruct (emits_fill_prologue dbConnector table false w) as (evs0 & Ht0 & H0).
  assert (Hnot0 : CountLines (name table) (Resolved n) ∉ evs0).
  { intros Hin. rewrite Forall_forall in H0.
    by apply (hook_not_count _ (name table) (Resolved n) (H0 _ Hin)). }
  assert (Hok0 : Forall no_insert_no_fetch evs0).
  { eapply Forall_impl; [exact H0 | apply hook_not_batchwork]. }
  destruct (fill_prologue dbConnector table false w) as [[[] | msg |] w0];
    simpl in Ht0 |- *.
  2, 3: by rewrite Ht0; intros <-%app_inv_head Hin.
  rewrite generateData_eq.
  destruct (countLines dbConnector table (db w0)) as [[m | msg] s'] eqn:Ec.
  2: { simpl. rewrite Ht0, <- app_assoc. intros <-%app_inv_head Hin _.
       apply elem_of_app in Hin as [Hin | Hin]; [done |].
       by apply list_elem_of_singleton in Hin. }
  destruct (decide (targetLines table m <= m)) as [Hfull | Hlow].
  - rewrite batches_reached by done.
    destruct (emits_fill_epilogue dbConnector table (Reached, m)
                (counted table (Resolved m) s' w0)) as (evs2 & Ht2 & H2).
    rewrite Ht2. simpl. rewrite Ht0, <- !app_assoc.
    intros <-%app_inv_head _ _.
    repeat first [ apply Forall_app_2 | apply Forall_cons_2 ]; try done.
    + unfold no_insert_no_fetch. simpl. tauto.
    + eapply Forall_impl; [exact H2 | apply hook_not_batchwork].
  - intros Ht Hin Hn. exfalso.
    assert (Hb : emits (S := S) (R := R) is_batch
                   (batches dbConnector Randomizer schema fuel table
                      (targetLines table m) ∅ m)).
    { apply emits_batches. intros. apply emits_batch. }
    destruct (Hb (counted table (Resolved m) s' w0)) as (evs1 & Ht1 & H1).
    assert (Hm : m = n); [| subst; lia].
    assert (Hin' : CountLines (name table) (Resolved n)
                     ∈ CountLines (name table) (Resolved m) :: evs1
                   \/ exists evs2, Forall is_hook evs2 /\
                        CountLines (name table) (Resolved n) ∈ evs2).
    { destruct (batches _ _ _ _ _ _ _ _ _) as [[x | msg |] w4]; simpl in *.
      - destruct (emits_fill_epilogue dbConnector table x w4)
          as (evs2 & Ht2 & H2).
        rewrite Ht2, Ht1 in Ht. simpl in Ht.
        rewrite Ht0, <- !app_assoc in Ht. apply app_inv_head in Ht as <-.
        rewrite !elem_of_app in Hin.
        destruct Hin as [Hin | [Hin | [Hin | Hin]]]; [done | | | by eauto].
        * left. apply list_elem_of_singleton in Hin as ->. apply list_elem_of_here.
        * left. by apply list_elem_of_further.
      - rewrite Ht1 in Ht. simpl in Ht.
        rewrite Ht0, <- !app_assoc in Ht. apply app_inv_head in Ht as <-.
        rewrite elem_of_app in Hin. destruct Hin as [Hin | Hin]; [done |].
        by left.
      - rewrite Ht1 in Ht. simpl in Ht.
        rewrite Ht0, <- !app_assoc in Ht. apply app_inv_head in Ht as <-.
        rewrite elem_of_app in Hin. destruct Hin as [Hin | Hin]; [done |].
        by left. }
    destruct Hin' as [Hin' | (evs2 & H2 & Hin')].
    + apply elem_of_cons in Hin' as [[= ->] | Hin']; [done |].
      rewrite Forall_forall in H1.
      exfalso.
      by apply (batch_not_count _ (name table) (Resolved n) (H1 _ Hin')).
    + rewrite Forall_forall in H2. exfalso.
      by apply (hook_not_count _ (name table) (Resolved n) (H2 _ Hin')).
Qed.

(** The target as the specification computes it from the fields that are
    set: [currentRows + addLines] clamped to [maxLines] when both are set,
    [currentRows + addLines] when only [addLines] is, [maxLines] when only
    [maxLines] is. *)
Definition spec_target (table : Table) (currentRows : Z) : option Z :=
  match addLines table, maxLines table with
  | Some a, Some m => Some (Z.min (currentRows + a) m)
  | Some a, None => Some (currentRows + a)
  | None, Some m => Some m
  | None, None => None
  end.

(** A field that is [0] reads like a field that is not set. *)
Definition drop_zero (n : num) : num :=
  match n with
  | Some 0 => None
  | _ => n
  end.

Definition without_zero_lines (table : Table) : Table := {|
  name := name table;
  lines := lines table;
  columns := columns table;
  before_ := before_ table;
  after_ := after_ table;
  maxLines := drop_zero (maxLines table);
  addLines := drop_zero (addLines table)
|}.

(** The target in the words of the specification, over the fields as the
    code reads them: a field that is [0] counts as not set, and the target
    is [0] when no field is left. *)
Definition effective_target (table : Table) (currentRows : Z) : Z :=
  default 0 (spec_target (without_zero_lines table) currentRows).

(** At least one of [maxLines] and [addLines] is set, as the type [Table]
    of the source requires. *)
Definition lines_set (table : Table) : Prop :=
  is_Some (maxLines table) \/ is_Some (addLines table).

(** No field that is set is [0]. *)
Definition lines_nonzero (table : Table) : Prop :=
  maxLines table <> Some 0 /\ addLines table <> Some 0.

(** [insert] reports at most as many rows as it was given. *)
Definition insert_bounded {S} (dbConnector : DatabaseConnector S) : Prop :=
  forall tableName rows s k s',
    insert dbConnector tableName rows s = (Resolved k, s') ->
    k <= Z.of_nat (length rows).

Lemma targetLines_spec table n :
  lines_set table -> lines_nonzero table ->
  spec_target table n = Some (targetLines table n).
Proof.
  unfold lines_set, lines_nonzero, spec_target, targetLines, truthy.
  intros [[m Hm] | [a Ha]] [Hm0 Ha0].
  - rewrite Hm in *. destruct (addLines table) as [a |]; simpl.
    + destruct (Z.eqb_spec a 0) as [-> | _]; [done |].
      destruct (Z.eqb_spec m 0) as [-> | _]; done.
    + destruct (Z.eqb_spec m 0) as [-> | _]; done.
  - rewrite Ha in *. destruct (Z.eqb_spec a 0) as [-> | _]; [done |]. simpl.
    destruct (maxLines table) as [m |]; simpl; [| done].
    destruct (Z.eqb_spec m 0) as [-> | _]; done.
Qed.

(** The loop never carries the row count beyond the larger of where it
    started and the target. *)
Lemma batches_bound {S R} (dbConnector : DatabaseConnector S)
    (Randomizer : Randomness R) schema fuel table target fks cur
    (w : world S R) e final w' :
  insert_bounded dbConnector ->
  batches dbConnector Randomizer schema fuel table target fks cur w
    = (Ok (e, final), w') ->
  final <= Z.max cur target /\ (cur <= target -> final <= target).
Proof.
  intros Hins. revert fks cur w.
  induction fuel as [| fuel IH]; intros fks cur w.
  - simpl. destruct (Z.ltb_spec cur target); [done |].
    intros [= _ <- _]. lia.
  - destruct (Z.lt_ge_cases cur target) as [Hlt | Hge].
    2: { rewrite batches_reached by done. intros [= _ <- _]. lia. }
    rewrite batches_unfold by done.
    destruct (batch dbConnector Randomizer schema table target fks cur w)
      as [r w1] eqn:E.
    apply batch_outcome_of in E.
    destruct E as
      [ msg w1 fetches _ _ _ _
      | fks' w1 fetches msg w2 _ _ _
      | fks' w1 fetches rows w2 msg s' _ _ _
      | fks' w1 fetches rows w2 s' _ _ _
      | fks' w1 fetches rows w2 k s' _ (_ & _ & _ & Hlen) Hi _ ];
      try (intros [= _ <- _]; lia); try done.
    intros Hrest. apply IH in Hrest as [_ Hrest].
    apply Hins in Hi. rewrite Hlen in Hi. unfold runRows_at in Hi. lia.
Qed.

(** The claim C1 as the specification words it: the row count after [fill]
    is at most the target; [valid] says which combinations of the fields
    and of the row count [n] that [countLines] reports are meant. *)
Definition target_bound_as_stated (valid : Table -> Z -> Z -> Prop) : Prop :=
  forall (dbConnector : DatabaseConnector Z) (Randomizer : Randomness nat)
         (schema : Schema) fuel (table : Table) reset (w : world Z nat)
         e final w' n t,
    insert_bounded dbConnector ->
    lines_set table ->
    fill dbConnector Randomizer schema fuel table reset w = (Ok (e, final), w') ->
    CountLines (name table) (Resolved n) ∈ drop (length (trace w)) (trace w') ->
    spec_target table n = Some t ->
    valid table n t ->
    final <= t.

Lemma stub_insert_bounded pool : insert_bounded (Stub.connector pool id).
Proof. intros tableName rows s k s'. simpl. intros [= <- _]. lia. Defined.

(** C1 fails as stated, in two ways.  With fields that are not zero: a
    table of 10 rows with [maxLines = 5] still has 10 rows after [fill].
    With a table that starts at or below the target of the specification:
    a table of 2 rows with [addLines = 0] and [maxLines = 5], whose
    target is [min(2 + 0, 5) = 2], has 5 rows after [fill]. *)
Lemma target_bound_fails :
  ~ target_bound_as_stated (fun table _ _ => lines_nonzero table) /\
  ~ target_bound_as_stated (fun _ n t => n <= t).
Proof.
  split; intros H.
  - specialize (H (Stub.connector (fun _ => []) id) Stub.randomness
                  Stub.schema 1%nat (Stub.users (Some 5) None) false
                  (Stub.start 10) Reached 10
                  (World 10 O [ConsoleLog "fill:  users";
                               CountLines "users" (Resolved 10)])
                  10 5 (stub_insert_bounded (fun _ => []))).
    assert (10 <= 5); [| lia].
    apply H.
    + left. by exists 5.
    + reflexivity.
    + apply list_elem_of_further, list_elem_of_here.
    + reflexivity.
    + by split.
  - pose (run := fill (Stub.connector (fun _ => []) id) Stub.randomness
                   Stub.schema 1%nat (Stub.users (Some 5) (Some 0)) false
                   (Stub.start 2)).
    specialize (H (Stub.connector (fun _ => []) id) Stub.randomness
                  Stub.schema 1%nat (Stub.users (Some 5) (Some 0)) false
                  (Stub.start 2) Reached 5 run.2
                  2 2 (stub_insert_bounded (fun _ => []))).
    assert (5 <= 2); [| lia].
    apply H.
    + left. by exists 5.
    + vm_compute. reflexivity.
    + vm_compute. apply list_elem_of_further, list_elem_of_here.
    + reflexivity.
    + lia.
Qed.

(** [insert] reports a count that is not negative. *)
Definition insert_nonneg {S} (dbConnector : DatabaseConnector S) : Prop :=
  forall tableName rows s k s',
    insert dbConnector tableName rows s = (Resolved k, s') -> 0 <= k.

(** [insert] always reports [0]. *)
Definition insert_nothing {S} (dbConnector : DatabaseConnector S) : Prop :=
  forall tableName rows s, (insert dbConnector tableName rows s).1 = Resolved 0.

(** With [target - cur] turns of the loop, the loop ends; more turns change
    nothing. *)
Lemma batches_terminate {S R} (dbConnector : DatabaseConnector S)
    (Randomizer : Randomness R) schema table target :
  insert_nonneg dbConnector ->
  forall fuel fks cur (w : world S R),
    (Z.to_nat (target - cur) <= fuel)%nat ->
    (batches dbConnector Randomizer schema fuel table target fks cur w).1
      <> OutOfFuel /\
    forall fuel', (fuel <= fuel')%nat ->
      batches dbConnector Randomizer schema fuel' table target fks cur w
      = batches dbConnector Randomizer schema fuel table target fks cur w.
Proof.
  intros Hins. induction fuel as [| fuel IH]; intros fks cur w Hfuel.
  - assert (target <= cur) by lia. rewrite batches_reached by done.
    split; [done |]. intros fuel' _. by rewrite batches_reached.
  - destruct (Z.lt_ge_cases cur target) as [Hlt | Hge].
    2: { rewrite batches_reached by done.
         split; [done |]. intros fuel' _. by rewrite batches_reached. }
    assert (Hstep : forall fuel', (fuel <= fuel')%nat ->
              (batches dbConnector Randomizer schema (Datatypes.S fuel) table
                 target fks cur w).1 <> OutOfFuel /\
              batches dbConnector Randomizer schema (Datatypes.S fuel') table
                target fks cur w
              = batches dbConnector Randomizer schema (Datatypes.S fuel) table
                  target fks cur w).
    { intros fuel' Hle. rewrite !batches_unfold by done.
      destruct (batch dbConnector Randomizer schema table target fks cur w)
        as [r w1] eqn:E.
      apply batch_outcome_of in E.
      destruct E as
        [ msg w1 fetches _ _ _ _
        | fks' w1 fetches msg w2 _ _ _
        | fks' w1 fetches rows w2 msg s' _ _ _
        | fks' w1 fetches rows w2 s' _ _ _
        | fks' w1 fetches rows w2 k s' _ _ Hi Hk ]; try done.
      apply Hins in Hi.
      match goal with
      | |- context [batches _ _ _ fuel _ _ _ _ ?w0] =>
          destruct (IH fks' (cur + k) w0) as [Hend Hmore]; [lia |]
      end.
      split; [done | by apply Hmore]. }
    split; [by apply (Hstep fuel) |].
    intros [| fuel'] Hle; [lia |]. apply Hstep. lia.
Qed.

Lemma fill_terminates {S R} (dbConnector : DatabaseConnector S)
    (Randomizer : Randomness R) schema table reset (w : world S R) :
  insert_nonneg dbConnector ->
  exists fuel, forall fuel', (fuel <= fuel')%nat ->
    (fill dbConnector Randomizer schema fuel' table reset w).1 <> OutOfFuel /\
    fill dbConnector Randomizer schema fuel' table reset w
    = fill dbConnector Randomizer schema fuel table reset w.
Proof.
  intros Hins.
  pose proof (terminates_fill_prologue dbConnector table reset w) as Hp.
  destruct (fill_prologue dbConnector table reset w) as [[[] | msg |] w0] eqn:E0;
    [| | done].
  2: { exists O. intros fuel' _. rewrite !fill_eq, E0. done. }
  destruct (countLines dbConnector table (db w0)) as [[n | msg] s'] eqn:Ec.
  2: { exists O. intros fuel' _. rewrite !fill_eq, E0, !generateData_eq, Ec. done. }
  exists (Z.to_nat (targetLines table n - n)). intros fuel' Hle.
  rewrite !fill_eq, E0, !generateData_eq, Ec.
  destruct (batches_terminate dbConnector Randomizer schema table
              (targetLines table n) Hins (Z.to_nat (targetLines table n - n))
              ∅ n (counted table (Resolved n) s' w0)) as [Hend Hmore]; [lia |].
  rewrite (Hmore fuel' Hle). split; [| done].
  destruct (batches _ _ _ _ _ _ _ _ _) as [[x | msg |] w4]; [| done ..].
  apply terminates_fill_epilogue.
Qed.

(** What one turn of the loop does to the row count. *)
Definition progress_or_abort (table : Table) (cur : Z) (s : Step)
    (evs : list event) : Prop :=
  match s with
  | Continue cur' _ => cur < cur'
  | Break Stalled cur' =>
      cur' = cur /\
      exists evs' rows,
        evs = evs' ++ [Insert (name table) rows (Resolved 0);
                       ConsoleWarn (stall_message table)]
  | Break (Starved msg) cur' =>
      cur' = cur /\ exists evs', evs = evs' ++ [ConsoleWarn msg]
  | Break Reached _ => False
  end.

Lemma batch_progress_or_abort {S R} (dbConnector : DatabaseConnector S)
    (Randomizer : Randomness R) schema table target fks cur
    (w : world S R) s w' evs :
  insert_nonneg dbConnector ->
  batch dbConnector Randomizer schema table target fks cur w = (Ok s, w') ->
  trace w' = trace w ++ evs ->
  progress_or_abort table cur s evs.
Proof.
  intros Hins E. apply batch_outcome_of in E. remember (Ok s) as r eqn:Hr.
  destruct E as
    [ msg w1 fetches _ Ht _ _
    | fks' w1 fetches msg w2 _ _ _
    | fks' w1 fetches rows w2 msg s' _ _ _
    | fks' w1 fetches rows w2 s' (_ & Ht & _) (_ & Ht2 & _) _
    | fks' w1 fetches rows w2 k s' _ _ Hi Hk ];
    try done; injection Hr as <-; simpl.
  - rewrite Ht, <- app_assoc. intros <-%app_inv_head. eauto.
  - rewrite Ht2, Ht, <- app_assoc. intros <-%app_inv_head. eauto.
  - intros _. apply Hins in Hi. lia.
Qed.

Lemma hook_not_insert e : is_hook e -> ~ is_insert e.
Proof. destruct e; simpl; tauto. Qed.

Lemma fetch_not_insert e : is_fetch e -> ~ is_insert e.
Proof. destruct e; simpl; tauto. Qed.

(** With an [insert] that always reports [0], one turn of the loop is the
    whole loop. *)
Lemma batches_stall {S R} (dbConnector : DatabaseConnector S)
    (Randomizer : Randomness R) schema table target fks cur (w : world S R) :
  insert_nothing dbConnector ->
  (forall fuel,
     batches dbConnector Randomizer schema (Datatypes.S fuel) table target fks cur w
     = batches dbConnector Randomizer schema 1 table target fks cur w) /\
  (batches dbConnector Randomizer schema 1 table target fks cur w).1 <> OutOfFuel /\
  forall evs,
    trace (batches dbConnector Randomizer schema 1 table target fks cur w).2
      = trace w ++ evs ->
    Exists is_insert evs ->
    exists pre rows,
      evs = pre ++ [Insert (name table) rows (Resolved 0);
                    ConsoleWarn (stall_message table)] /\
      Forall (fun e => ~ is_insert e) pre.
Proof.
  intros Hins.
  destruct (Z.lt_ge_cases cur target) as [Hlt | Hge].
  2: { split; [| split].
       - intros fuel. by rewrite !batches_reached.
       - by rewrite batches_reached.
       - intros evs. rewrite batches_reached by done. simpl.
         rewrite <- (app_nil_r (trace w)) at 1. intros <-%app_inv_head H.
         by apply Exists_nil in H. }
  assert (Hcases :
    forall fuel,
      batches dbConnector Randomizer schema (Datatypes.S fuel) table target fks cur w
      = match batch dbConnector Randomizer schema table target fks cur w with
        | (Ok (Continue cur' fks'), w') => (OutOfFuel, w')
        | (Ok (Break e cur'), w') => (Ok (e, cur'), w')
        | (Throw msg, w') => (Throw msg, w')
        | (OutOfFuel, w') => (OutOfFuel, w')
        end /\
      forall cur' fks' w',
        batch dbConnector Randomizer schema table target fks cur w
        <> (Ok (Continue cur' fks'), w')).
  { intros fuel. rewrite batches_unfold by done.
    destruct (batch dbConnector Randomizer schema table target fks cur w)
      as [r w1] eqn:E.
    pose proof E as E'. apply batch_outcome_of in E'.
    destruct E' as
      [ msg w1 fetches _ _ _ _
      | fks' w1 fetches msg w2 _ _ _
      | fks' w1 fetches rows w2 msg s' _ _ _
      | fks' w1 fetches rows w2 s' _ _ _
      | fks' w1 fetches rows w2 k s' _ _ Hi Hk ]; try done.
    specialize (Hins (name table) rows (db w2)). rewrite Hi in Hins.
    simpl in Hins. congruence. }
  split; [| split].
  - intros fuel. destruct (Hcases fuel) as [-> _].
    by destruct (Hcases O) as [-> _].
  - destruct (Hcases O) as [-> Hno].
    destruct (batch dbConnector Randomizer schema table target fks cur w)
      as [[[cur' fks' | e cur'] | msg |] w1] eqn:E; simpl; try done.
    + by specialize (Hno cur' fks' w1).
    + apply batch_outcome_of in E. by inversion E.
  - intros evs. destruct (Hcases O) as [-> Hno].
    destruct (batch dbConnector Randomizer schema table target fks cur w)
      as [r w1] eqn:E.
    pose proof E as E'. apply batch_outcome_of in E'.
    destruct E' as
      [ msg w1 fetches _ Ht Hf _
      | fks' w1 fetches msg w2 (_ & Ht & Hf & _) _ Ht2
      | fks' w1 fetches rows w2 msg s' _ _ Hi
      | fks' w1 fetches rows w2 s' (_ & Ht & Hf & _) (_ & Ht2 & _) _
      | fks' w1 fetches rows w2 k s' _ _ _ _ ]; simpl.
    + rewrite Ht, <- app_assoc. intros <-%app_inv_head Hex. exfalso.
      apply Exists_app in Hex as [Hex | Hex].
      * apply Exists_exists in Hex as (e & Hin & He).
        rewrite Forall_forall in Hf. by eapply fetch_not_insert; eauto.
      * apply Exists_cons in Hex as [[] | Hex]. by apply Exists_nil in Hex.
    + rewrite Ht2, Ht. intros <-%app_inv_head Hex. exfalso.
      apply Exists_exists in Hex as (e & Hin & He).
      rewrite Forall_forall in Hf. by eapply fetch_not_insert; eauto.
    + specialize (Hins (name table) rows (db w2)). by rewrite Hi in Hins.
    + rewrite Ht2, Ht, <- app_assoc. intros <-%app_inv_head _.
      exists fetches, rows. split; [done |].
      eapply Forall_impl; [exact Hf | apply fetch_not_insert].
    + by edestruct Hno.
Qed.

(** C2.  With a connector whose [insert] reports counts that are not
    negative, [fill] ends: there is a number of turns of the batch loop with
    which it returns or throws, and more turns change nothing.  Every turn
    that ends normally has raised the row count, or has found it unchanged
    after the insert, warned and left the loop (or has left the loop on a
    foreign key without values).  With a connector whose [insert] always
    reports [0], one turn is enough, and a run that reaches [insert] makes
    that one call, warns about the stall right after it and goes on to the
    [after] statements only. *)
Theorem generation_terminates {S R} (dbConnector : DatabaseConnector S)
    (Randomizer : Randomness R) (schema : Schema) (table : Table) reset
    (w : world S R) :
  (insert_nonneg dbConnector ->
   (exists fuel, forall fuel', (fuel <= fuel')%nat ->
      (fill dbConnector Randomizer schema fuel' table reset w).1 <> OutOfFuel /\
      fill dbConnector Randomizer schema fuel' table reset w
      = fill dbConnector Randomizer schema fuel table reset w) /\
   (forall target fks cur w0 s w1 evs,
      batch dbConnector Randomizer schema table target fks cur w0 = (Ok s, w1) ->
      trace w1 = trace w0 ++ evs ->
      progress_or_abort table cur s evs)) /\
  (insert_nothing dbConnector ->
   (forall fuel,
      fill dbConnector Randomizer schema (Datatypes.S fuel) table reset w
      = fill dbConnector Randomizer schema 1 table reset w) /\
   (fill dbConnector Randomizer schema 1 table reset w).1 <> OutOfFuel /\
   (forall evs,
      trace (fill dbConnector Randomizer schema 1 table reset w).2
        = trace w ++ evs ->
      Exists is_insert evs ->
      exists pre rows post,
        evs = pre ++ [Insert (name table) rows (Resolved 0);
                      ConsoleWarn (stall_message table)] ++ post /\
        Forall (fun e => ~ is_insert e) pre /\ Forall is_hook post)).
Proof.
  split.
  - intros Hins. split; [by apply fill_terminates |].
    intros. by eapply batch_progress_or_abort.
  - intros Hins.
    assert (Hnoins : forall evs, Forall is_hook evs -> ~ Exists is_insert evs).
    { intros evs Hh Hex. apply Exists_exists in Hex as (e & Hin & He).
      rewrite Forall_forall in Hh. by eapply hook_not_insert; eauto. }
    destruct (emits_fill_prologue dbConnector table reset w) as (evs0 & Ht0 & H0).
    pose proof (terminates_fill_prologue dbConnector table reset w) as Hp.
    destruct (fill_prologue dbConnector table reset w) as [[[] | msg |] w0] eqn:E0;
      simpl in Ht0, Hp; [| | done].
    2: { split; [| split]; rewrite ?fill_eq, ?E0; try done.
         - intros fuel. by rewrite !fill_eq, E0.
         - simpl. rewrite Ht0. intros evs <-%app_inv_head Hex.
           by apply Hnoins in Hex. }
    destruct (countLines dbConnector table (db w0)) as [[n | msg] s'] eqn:Ec.
    2: { split; [| split]; rewrite ?fill_eq, ?E0, ?generateData_eq, ?Ec; try done.
         - intros fuel. by rewrite !fill_eq, E0, !generateData_eq, Ec.
         - simpl. rewrite Ht0, <- app_assoc. intros evs <-%app_inv_head Hex.
           exfalso. apply Exists_app in Hex as [Hex | Hex];
             [by apply Hnoins in Hex |].
           apply Exists_cons in Hex as [[] | Hex]. by apply Exists_nil in Hex. }
    destruct (batches_stall dbConnector Randomizer schema table
                (targetLines table n) ∅ n (counted table (Resolved n) s' w0) Hins)
      as (Hone & Hend & Htrace).
    split; [| split].
    + intros fuel. by rewrite !fill_eq, E0, !generateData_eq, Ec, Hone.
    + rewrite fill_eq, E0, generateData_eq, Ec.
      destruct (batches _ _ _ _ _ _ _ _ _) as [[x | msg |] w4]; [| done ..].
      apply terminates_fill_epilogue.
    + intros evs. rewrite fill_eq, E0, generateData_eq, Ec.
      assert (Hb : emits (S := S) (R := R) is_batch
                     (batches dbConnector Randomizer schema 1 table
                        (targetLines table n) ∅ n)).
      { apply emits_batches. intros. apply emits_batch. }
      destruct (Hb (counted table (Resolved n) s' w0)) as (evs1 & Ht1 & _).
      specialize (Htrace evs1 Ht1).
      destruct (batches _ _ _ _ _ _ _ _ _) as [[x | msg |] w4]; simpl in Ht1 |- *.
      * destruct (emits_fill_epilogue dbConnector table x w4)
          as (evs2 & Ht2 & H2).
        rewrite Ht2, Ht1, Ht0, <- !app_assoc. simpl.
        intros <-%app_inv_head Hex.
        rewrite Exists_app, Exists_cons, Exists_app in Hex.
        destruct Hex as [Hex | [[] | [Hex | Hex]]];
          [by apply Hnoins in Hex | | by apply Hnoins in Hex].
        destruct (Htrace Hex) as (pre & rows & -> & Hpre).
        exists (evs0 ++ [CountLines (name table) (Resolved n)] ++ pre), rows, evs2.
        split; [by rewrite <- !app_assoc |]. split; [| done].
        repeat first [ apply Forall_app_2 | apply Forall_cons_2 ];
          try done; try (simpl; tauto).
        eapply Forall_impl; [exact H0 | apply hook_not_insert].
      * rewrite Ht1, Ht0, <- !app_assoc. simpl.
        intros <-%app_inv_head Hex.
        rewrite Exists_app, Exists_cons in Hex.
        destruct Hex as [Hex | [[] | Hex]];
          [by apply Hnoins in Hex |].
        destruct (Htrace Hex) as (pre & rows & -> & Hpre).
        exists (evs0 ++ [CountLines (name table) (Resolved n)] ++ pre), rows, [].
        split; [by rewrite <- !app_assoc |]. split; [| done].
        repeat first [ apply Forall_app_2 | apply Forall_cons_2 ];
          try done; try (simpl; tauto).
        eapply Forall_impl; [exact H0 | apply hook_not_insert].
      * done.
Qed.

(** ** Leaving the loop by [break] *)

Section Turns.
Context {S R : Type}.
Variable dbConnector : DatabaseConnector S.
Variable Randomizer : Randomness R.
Variable schema : Schema.
Implicit Types w : world S R.

(** The state of the loop at the head of a turn: the row count, the
    foreign-key pools and the world. *)
Definition loop_state : Type := Z * gmap string (list value) * world S R.

(** [turns table target n st st']: from [st], the loop makes [n] complete
    turns and stands at [st']. *)
Inductive turns (table : Table) (target : Z)
    : nat -> loop_state -> loop_state -> Prop :=
| turns_O st : turns table target O st st
| turns_S n cur fks w cur' fks' w' st :
    cur < target ->
    batch dbConnector Randomizer schema table target fks cur w
      = (Ok (Continue cur' fks'), w') ->
    turns table target n (cur', fks', w') st ->
    turns table target (Datatypes.S n) (cur, fks, w) st.

Lemma batches_turns table target n st st' fuel :
  turns table target n st st' ->
  batches dbConnector Randomizer schema (n + fuel) table target
    st.1.2 st.1.1 st.2
  = batches dbConnector Randomizer schema fuel table target
      st'.1.2 st'.1.1 st'.2.
Proof.
  induction 1 as [st | n cur fks w cur' fks' w' st Hlt Hb _ IH]; [done |].
  simpl in *. destruct (Z.ltb_spec cur target); [| lia].
  unfold bind. by rewrite Hb.
Qed.

(** When, after [k] turns, the next turn ends in [break], [generateData]
    returns, and [fill] goes on with the [after] statements. *)
Lemma fill_after_break table reset w w0 n s' k cur fks w1 e cur' w2 fuel :
  fill_prologue dbConnector table reset w = (Ok tt, w0) ->
  countLines dbConnector table (db w0) = (Resolved n, s') ->
  turns table (targetLines table n) k
    (n, ∅, counted table (Resolved n) s' w0) (cur, fks, w1) ->
  cur < targetLines table n ->
  batch dbConnector Randomizer schema table (targetLines table n) fks cur w1
    = (Ok (Break e cur'), w2) ->
  (k < fuel)%nat ->
  generateData dbConnector Randomizer schema fuel table w0
    = (Ok (e, cur'), w2) /\
  fill dbConnector Randomizer schema fuel table reset w
    = fill_epilogue dbConnector table (e, cur') w2.
Proof.
  intros Hp Hc Ht Hlt Hb Hfuel.
  assert (Hg : generateData dbConnector Randomizer schema fuel table w0
               = (Ok (e, cur'), w2)).
  { rewrite generateData_eq, Hc.
    replace fuel with (k + Datatypes.S (fuel - k - 1))%nat by lia.
    rewrite (batches_turns _ _ _ _ _ _ Ht). cbn [fst snd].
    by rewrite batches_unfold, Hb. }
  split; [done |]. by rewrite fill_eq, Hp, Hg.
Qed.

Lemma getForeignKeyValues_from_app table pre rest fks runRows w :
  getForeignKeyValues_from dbConnector table (pre ++ rest) fks runRows w =
  match getForeignKeyValues_from dbConnector table pre fks runRows w with
  | (Ok fks1, w1) =>
      getForeignKeyValues_from dbConnector table rest fks1 runRows w1
  | (Throw msg, w1) => (Throw msg, w1)
  | (OutOfFuel, w1) => (OutOfFuel, w1)
  end.
Proof.
  revert fks w. induction pre as [| column pre IH]; intros fks w; simpl.
  - done.
  - destruct (foreignKey column) as [fk |]; [| apply IH].
    unfold bind. destruct (await _ _ w) as [[vs | msg |] w1]; [| done ..].
    destruct (_ && _); [done | apply IH].
Qed.

(** The [after] statements are executed in order, up to the first one
    that is rejected. *)
Lemma executeAll_trace queries w :
  exists answers,
    trace (executeAll dbConnector queries w).2
      = trace w ++ zip_with ExecuteRawQuery queries answers /\
    match (executeAll dbConnector queries w).1 with
    | Ok _ => length answers = length queries
    | Throw msg =>
        (length answers <= length queries)%nat /\
        last answers = Some (Rejected msg)
    | OutOfFuel => False
    end.
Proof.
  revert w. induction queries as [| query rest IH]; intros w; simpl.
  - exists []. simpl. by rewrite app_nil_r.
  - unfold bind, await.
    destruct (executeRawQuery dbConnector query (db w)) as [[[] | msg] s'].
    + match goal with
      | |- context [executeAll _ rest ?w0] =>
          destruct (IH w0) as (answers & Ht & Hr);
          destruct (executeAll dbConnector rest w0) as [[[] | msg |] w1]
      end; simpl in *; [| | done].
      * exists (Resolved tt :: answers). simpl.
        rewrite Ht, <- app_assoc. split; [done | by f_equal].
      * exists (Resolved tt :: answers). simpl.
        rewrite Ht, <- app_assoc. split; [done |].
        destruct Hr as [Hlen Hlast]. split; [lia |].
        destruct answers; [done | exact Hlast].
    + exists [Rejected msg]. simpl. split; [by destruct rest |].
      split; [lia | done].
Qed.

End Turns.

(** ** The rows of a batch *)

Section Inserts.
Context {S R : Type}.
Variable dbConnector : DatabaseConnector S.
Variable Randomizer : Randomness R.
Variable schema : Schema.
Implicit Types w : world S R.

(** Every run extends the trace. *)
Lemma batches_extends fuel table target fks cur w :
  exists evs,
    trace (batches dbConnector Randomizer schema fuel table target fks cur w).2
    = trace w ++ evs.
Proof.
  destruct (emits_batches dbConnector Randomizer schema (fun _ => True) fuel
              table target fks cur
              (fun fks cur _ =>
                 emits_weaken _ _ _ (fun _ _ => I)
                   (emits_batch dbConnector Randomizer schema table
                      target fks cur)) w) as (evs & Ht & _).
  by exists evs.
Qed.

Lemma fill_epilogue_extends table x w :
  exists evs, trace (fill_epilogue dbConnector table x w).2 = trace w ++ evs.
Proof.
  destruct (emits_fill_epilogue dbConnector table x w) as (evs & Ht & _).
  by exists evs.
Qed.

(** A turn whose foreign keys are resolved and whose rows are synthesized
    calls [insert], once, with the rows that were synthesized. *)
Lemma batch_inserts table target fks cur w fks' w1 rows w2 :
  getForeignKeyValues dbConnector table fks (runRows_at target cur) w
    = (Ok fks', w1) ->
  generateRows Randomizer schema table fks'
    (Z.to_nat (runRows_at target cur)) 0 w1 = (Ok rows, w2) ->
  length rows = Z.to_nat (runRows_at target cur) /\
  (exists fetches, trace w2 = trace w ++ fetches /\ Forall is_fetch fetches) /\
  exists tail,
    trace (batch dbConnector Randomizer schema table target fks cur w).2
    = trace w2
        ++ Insert (name table) rows
             (insert dbConnector (name table) rows (db w2)).1 :: tail /\
    Forall (fun e => ~ is_insert e) tail.
Proof.
  intros H1 H2.
  destruct (batch dbConnector Randomizer schema table target fks cur w)
    as [r w'] eqn:E.
  apply batch_outcome_of in E.
  destruct E as
    [ msg w1' fetches Hg Ht Hf _
    | fks'' w1' fetches msg w2' (Hg & Ht & Hf & _) Hgen Ht2
    | fks'' w1' fetches rows' w2' msg s' (Hg & Ht & Hf & _)
        (Hgen & Ht2 & _ & Hlen) Hins
    | fks'' w1' fetches rows' w2' s' (Hg & Ht & Hf & _)
        (Hgen & Ht2 & _ & Hlen) Hins
    | fks'' w1' fetches rows' w2' k s' (Hg & Ht & Hf & _)
        (Hgen & Ht2 & _ & Hlen) Hins _ ];
    rewrite H1 in Hg; try discriminate; injection Hg as <- <-;
    rewrite H2 in Hgen; try discriminate; injection Hgen as <- <-;
    (split; [done |]);
    (split; [exists fetches; by rewrite Ht2 |]);
    rewrite Hins; cbn [fst snd trace];
    eexists; (split; [reflexivity |]);
    repeat constructor; simpl; tauto.
Qed.

(** The same in a run of [fill]: when the loop stands at the head of a
    turn after [k] turns, that turn is made, and its rows reach [insert]. *)
Lemma fill_inserts table reset w w0 n s' k cur fks w1 fks' w2 rows w3 fuel :
  fill_prologue dbConnector table reset w = (Ok tt, w0) ->
  countLines dbConnector table (db w0) = (Resolved n, s') ->
  turns dbConnector Randomizer schema table (targetLines table n) k
    (n, ∅, counted table (Resolved n) s' w0) (cur, fks, w1) ->
  cur < targetLines table n ->
  getForeignKeyValues dbConnector table fks
    (runRows_at (targetLines table n) cur) w1 = (Ok fks', w2) ->
  generateRows Randomizer schema table fks'
    (Z.to_nat (runRows_at (targetLines table n) cur)) 0 w2 = (Ok rows, w3) ->
  (k < fuel)%nat ->
  exists rest,
    trace (fill dbConnector Randomizer schema fuel table reset w).2
    = trace w3
        ++ Insert (name table) rows
             (insert dbConnector (name table) rows (db w3)).1 :: rest.
Proof.
  intros Hp Hc Ht Hlt H1 H2 Hfuel.
  destruct (batch_inserts table (targetLines table n) fks cur w1 fks' w2 rows w3
              H1 H2) as (_ & _ & tail & Hb & _).
  rewrite fill_eq, Hp, generateData_eq, Hc.
  replace fuel with (k + Datatypes.S (fuel - k - 1))%nat by lia.
  rewrite (batches_turns _ _ _ _ _ _ _ _ _ Ht). cbn [fst snd].
  rewrite batches_unfold by done.
  destruct (batch dbConnector Randomizer schema table (targetLines table n)
              fks cur w1) as [[[cur' fks1 | e cur'] | msg |] w4];
    cbn [snd] in Hb.
  - destruct (batches_extends (fuel - k - 1) table (targetLines table n)
                fks1 cur' w4) as (evs1 & Ht1).
    destruct (batches _ _ _ _ _ _ _ _ w4) as [[x | msg |] w5];
      cbn [snd] in Ht1 |- *.
    + destruct (fill_epilogue_extends table x w5) as (evs2 & Ht2).
      exists (tail ++ evs1 ++ evs2).
      rewrite Ht2, Ht1, Hb, <- !app_assoc. done.
    + exists (tail ++ evs1). rewrite Ht1, Hb, <- !app_assoc. done.
    + exists (tail ++ evs1). rewrite Ht1, Hb, <- !app_assoc. done.
  - destruct (fill_epilogue_extends table (e, cur') w4) as (evs2 & Ht2).
    exists (tail ++ evs2). rewrite Ht2, Hb, <- !app_assoc. done.
  - exists tail. done.
  - exists tail. done.
Qed.

End Inserts.

(** C6.  Every iteration of the batch loop whose foreign keys are resolved
    and whose rows are synthesized calls [insert] once, with the rows it has
    synthesized, and these number exactly [min(1000, target - currentRows)]:
    this for one turn of the loop from any state below the target, and for
    the turn that a run of [fill] has reached after any number of turns.  An
    iteration that stops before (no value for a foreign key, an error in the
    synthesis) calls [insert] not at all: every call of [insert] in a turn
    gets exactly that many rows, and in every run of [fill], whatever the
    table and the collaborators, no call of [insert] is given more than 1000
    rows. *)
Theorem insert_batch_size {S R} (dbConnector : DatabaseConnector S)
    (Randomizer : Randomness R) (schema : Schema) (table : Table) :
  (forall target fks cur (w : world S R) fks' w1 rows w2,
     cur < target ->
     getForeignKeyValues dbConnector table fks (Z.min 1000 (target - cur)) w
       = (Ok fks', w1) ->
     generateRows Randomizer schema table fks'
       (Z.to_nat (Z.min 1000 (target - cur))) 0 w1 = (Ok rows, w2) ->
     Z.of_nat (length rows) = Z.min 1000 (target - cur) /\
     (exists fetches,
        trace w2 = trace w ++ fetches /\ Forall is_fetch fetches) /\
     exists tail,
       trace (batch dbConnector Randomizer schema table target fks cur w).2
       = trace w2
           ++ Insert (name table) rows
                (insert dbConnector (name table) rows (db w2)).1 :: tail /\
       Forall (fun e => ~ is_insert e) tail)
  /\
  (forall reset (w w0 : world S R) n s' k cur fks w1 fks' w2 rows w3 fuel,
     fill_prologue dbConnector table reset w = (Ok tt, w0) ->
     countLines dbConnector table (db w0) = (Resolved n, s') ->
     turns dbConnector Randomizer schema table (targetLines table n) k
       (n, ∅, counted table (Resolved n) s' w0) (cur, fks, w1) ->
     cur < targetLines table n ->
     getForeignKeyValues dbConnector table fks
       (Z.min 1000 (targetLines table n - cur)) w1 = (Ok fks', w2) ->
     generateRows Randomizer schema table fks'
       (Z.to_nat (Z.min 1000 (targetLines table n - cur))) 0 w2
       = (Ok rows, w3) ->
     (k < fuel)%nat ->
     Z.of_nat (length rows) = Z.min 1000 (targetLines table n - cur) /\
     exists rest,
       trace (fill dbConnector Randomizer schema fuel table reset w).2
       = trace w3
           ++ Insert (name table) rows
                (insert dbConnector (name table) rows (db w3)).1 :: rest)
  /\
  (forall target fks cur (w : world S R) evs,
     cur < target ->
     trace (batch dbConnector Randomizer schema table target fks cur w).2
       = trace w ++ evs ->
     Forall (inserts_rows (fun n => Z.of_nat n = Z.min 1000 (target - cur))) evs)
  /\
  (forall fuel reset (w : world S R) evs,
     trace (fill dbConnector Randomizer schema fuel table reset w).2
       = trace w ++ evs ->
     Forall (inserts_rows (fun n => (n <= 1000)%nat)) evs).
Proof.
  split; [| split; [| split]].
  - intros target fks cur w fks' w1 rows w2 Hlt H1 H2.
    destruct (batch_inserts dbConnector Randomizer schema table target fks cur
                w fks' w1 rows w2 H1 H2) as (Hlen & Hf & Hb).
    split; [| by split]. rewrite Hlen. unfold runRows_at. lia.
  - intros reset w w0 n s' k cur fks w1 fks' w2 rows w3 fuel
      Hp Hc Ht Hlt H1 H2 Hfuel.
    split.
    + apply generateRows_length in H2. rewrite H2. lia.
    + by eapply fill_inserts.
  - intros target fks cur w evs. apply batch_insert_rows.
  - intros fuel reset w evs. apply emits_elim. apply emits_fill.
    + by intros [].
    + done.
    + intros. by apply emits_batch_insert_rows.
Qed.

(** ** The row count of a run *)

(** The rows that the [insert]s of a run have reported. *)
Fixpoint inserted (evs : list event) : Z :=
  match evs with
  | [] => 0
  | Insert _ _ (Resolved k) :: rest => k + inserted rest
  | _ :: rest => inserted rest
  end.

Lemma inserted_app evs1 evs2 :
  inserted (evs1 ++ evs2) = inserted evs1 + inserted evs2.
Proof.
  induction evs1 as [| e evs1 IH]; simpl; [done |].
  destruct e as [| | | | ? ? [k |] | |]; lia.
Qed.

Lemma inserted_none evs :
  Forall (fun e => ~ is_insert e) evs -> inserted evs = 0.
Proof.
  induction 1 as [| e evs He _ IH]; simpl; [done |].
  destruct e as [| | | | ? ? [k |] | |]; simpl in He; tauto || lia.
Qed.

Lemma inserted_fetches fetches : Forall is_fetch fetches -> inserted fetches = 0.
Proof.
  intros H. apply inserted_none.
  eapply Forall_impl; [exact H | apply fetch_not_insert].
Qed.

Lemma inserted_hooks evs : Forall is_hook evs -> inserted evs = 0.
Proof.
  intros H. apply inserted_none.
  eapply Forall_impl; [exact H | apply hook_not_insert].
Qed.

(** A connector that keeps count of [table]: [size s] is the number of rows
    of the table in the database [s]; [countLines] reports it, [insert] adds
    what it reports, and nothing when it is rejected, and neither a fetch
    nor a raw statement changes it. *)
Record counts_rows {S} (dbConnector : DatabaseConnector S) (table : Table)
    (size : S -> Z) : Prop := {
  countLines_counts s a s' :
    countLines dbConnector table s = (a, s') ->
    size s' = size s /\ forall n, a = Resolved n -> n = size s;
  insert_counts rows s a s' :
    insert dbConnector (name table) rows s = (a, s') ->
    size s' = size s + inserted [Insert (name table) rows a];
  fetch_counts t c rt rc count uniq where_ s a s' :
    getValuesForForeignKeys dbConnector t c rt rc count uniq where_ s = (a, s') ->
    size s' = size s;
  query_counts q s a s' :
    executeRawQuery dbConnector q s = (a, s') -> size s' = size s
}.

Section RowCount.
Context {S R : Type}.
Variable dbConnector : DatabaseConnector S.
Variable Randomizer : Randomness R.
Variable schema : Schema.
Implicit Types w : world S R.

(** [m] changes the size of the table by what its [insert]s report. *)
Definition accounts (size : S -> Z) {A} (m : M S R A) : Prop :=
  forall w, exists evs,
    trace (m w).2 = trace w ++ evs /\
    size (db (m w).2) = size (db w) + inserted evs.

Lemma accounts_ret size {A} (a : A) : accounts size (ret a).
Proof. intros w. exists []. simpl. rewrite app_nil_r. split; [done | lia]. Qed.

Lemma accounts_throw size {A} msg : accounts size (@throw S R A msg).
Proof. intros w. exists []. simpl. rewrite app_nil_r. split; [done | lia]. Qed.

Lemma accounts_out_of_fuel size {A} : accounts size (@out_of_fuel S R A).
Proof. intros w. exists []. simpl. rewrite app_nil_r. split; [done | lia]. Qed.

Lemma accounts_synthesizes size {A} (m : M S R A) :
  synthesizes m -> accounts size m.
Proof.
  intros Hm w. destruct (Hm w) as [Hd Ht]. exists [].
  rewrite Hd, Ht, app_nil_r. simpl. split; [done | lia].
Qed.

Lemma accounts_log size msg : accounts size (@console S R (ConsoleLog msg)).
Proof. intros w. eexists. simpl. split; [done | simpl; lia]. Qed.

Lemma accounts_warn size msg : accounts size (@console S R (ConsoleWarn msg)).
Proof. intros w. eexists. simpl. split; [done | simpl; lia]. Qed.

Lemma accounts_await size {A} (f : S -> reply A * S) ev :
  (forall s a s', f s = (a, s') -> size s' = size s + inserted [ev a]) ->
  accounts size (await f ev).
Proof.
  intros Hf w. unfold await. specialize (Hf (db w)).
  destruct (f (db w)) as [a s']. specialize (Hf a s' eq_refl).
  exists [ev a]. by destruct a.
Qed.

Lemma accounts_bind size {A B} (m : M S R A) (k : A -> M S R B) :
  accounts size m -> (forall a, accounts size (k a)) ->
  accounts size (bind m k).
Proof.
  intros Hm Hk w. unfold bind. destruct (Hm w) as (evs1 & Ht1 & Hs1).
  destruct (m w) as [[a | msg |] w1]; simpl in *; [| by exists evs1 ..].
  destruct (Hk a w1) as (evs2 & Ht2 & Hs2). exists (evs1 ++ evs2).
  rewrite Ht2, Ht1, Hs2, Hs1, inserted_app, app_assoc. split; [done | lia].
Qed.

Lemma accounts_try_catch size {A} (m : M S R A) h :
  accounts size m -> (forall msg, accounts size (h msg)) ->
  accounts size (try_catch m h).
Proof.
  intros Hm Hh w. unfold try_catch. destruct (Hm w) as (evs1 & Ht1 & Hs1).
  destruct (m w) as [[a | msg |] w1]; simpl in *; [by exists evs1 | | by exists evs1].
  destruct (Hh msg w1) as (evs2 & Ht2 & Hs2). exists (evs1 ++ evs2).
  rewrite Ht2, Ht1, Hs2, Hs1, inserted_app, app_assoc. split; [done | lia].
Qed.

Ltac account :=
  repeat match goal with
         | |- accounts _ (bind _ _) => apply accounts_bind; [| intros ?]
         | |- accounts _ (try_catch _ _) => apply accounts_try_catch; [| intros ?]
         | |- accounts _ (match ?x with _ => _ end) => destruct x
         | |- _ =>
             solve [auto using accounts_ret, accounts_throw,
                      accounts_out_of_fuel, accounts_log, accounts_warn]
         end.

Section Counting.
Variable table : Table.
Variable size : S -> Z.
Hypothesis Hcounts : counts_rows dbConnector table size.

Lemma accounts_getForeignKeyValues_from t cols fks runRows :
  accounts size (getForeignKeyValues_from dbConnector t cols fks runRows).
Proof.
  revert fks. induction cols as [| column rest IH]; intros fks; simpl; account.
  apply accounts_await. intros s a s' Hf.
  apply (fetch_counts _ _ _ Hcounts) in Hf. simpl. lia.
Qed.

Lemma accounts_executeAll queries :
  accounts size (executeAll (R := R) dbConnector queries).
Proof.
  induction queries as [| query rest IH]; simpl; account.
  apply accounts_await. intros s a s' Hq.
  apply (query_counts _ _ _ Hcounts) in Hq. simpl. lia.
Qed.

Lemma accounts_batch target fks cur :
  accounts size (batch dbConnector Randomizer schema table target fks cur).
Proof.
  unfold batch, getForeignKeyValues. account.
  - apply accounts_getForeignKeyValues_from.
  - apply accounts_synthesizes, synthesizes_generateRows.
  - apply accounts_await. intros s0 a0 s1. apply (insert_counts _ _ _ Hcounts).
Qed.

Lemma accounts_batches fuel target fks cur :
  accounts size (batches dbConnector Randomizer schema fuel table target fks cur).
Proof.
  revert fks cur. induction fuel as [| fuel IH]; intros fks cur; simpl; account.
  apply accounts_batch.
Qed.

Lemma accounts_fill_epilogue x :
  accounts size (fill_epilogue dbConnector table x).
Proof.
  unfold fill_epilogue, after. account. apply accounts_executeAll.
Qed.

End Counting.

(** The row count of the loop: what it started from and what the
    [insert]s have reported.  It never passes the larger of the row count
    at the start and the target, however the loop ends; and it is the row
    count that the loop returns. *)
Lemma batches_inserted fuel table target fks cur w evs :
  insert_bounded dbConnector ->
  trace (batches dbConnector Randomizer schema fuel table target fks cur w).2
    = trace w ++ evs ->
  cur + inserted evs <= Z.max cur target /\
  (target <= cur -> evs = []) /\
  (forall e final,
     (batches dbConnector Randomizer schema fuel table target fks cur w).1
       = Ok (e, final) ->
     final = cur + inserted evs).
Proof.
  intros Hins. revert fks cur w evs.
  assert (Hnil : forall w evs, trace w = trace w ++ evs -> evs = []).
  { intros w evs H. apply (app_inv_head (trace w)). by rewrite app_nil_r. }
  induction fuel as [| fuel IH]; intros fks cur w evs.
  - simpl. destruct (Z.ltb_spec cur target); simpl;
      intros ->%Hnil; simpl; (split; [lia | split; [done |]]);
      [done | intros e final [= _ <-]; lia].
  - destruct (Z.lt_ge_cases cur target) as [Hlt | Hge].
    2: { rewrite batches_reached by done. simpl. intros ->%Hnil. simpl.
         split; [lia | split; [done |]]. intros e final [= _ <-]. lia. }
    rewrite batches_unfold by done.
    destruct (batch dbConnector Randomizer schema table target fks cur w)
      as [r w1] eqn:E.
    apply batch_outcome_of in E.
    destruct E as
      [ msg w1 fetches _ Ht Hf _
      | fks' w1 fetches msg w2 (_ & Ht & Hf & _) _ Ht2
      | fks' w1 fetches rows w2 msg s' (_ & Ht & Hf & _) (_ & Ht2 & _ & Hlen) _
      | fks' w1 fetches rows w2 s' (_ & Ht & Hf & _) (_ & Ht2 & _ & Hlen) _
      | fks' w1 fetches rows w2 k s' (_ & Ht & Hf & _) (_ & Ht2 & _ & Hlen)
          Hi Hk ].
    1, 2, 3, 4:
      simpl; rewrite ?Ht2, Ht, <- ?app_assoc; intros <-%app_inv_head;
      rewrite ?inserted_app, (inserted_fetches _ Hf); simpl;
      (split; [lia | split; [lia |]]);
      try done; intros e final [= _ <-]; lia.
    match goal with
    | |- context [batches _ _ _ fuel table target fks' (cur + k) ?w0] =>
        set (w1' := w0) in *;
        assert (Htw : trace w1'
                      = trace w ++ fetches
                          ++ [Insert (name table) rows (Resolved k);
                              ConsoleLog (pretty (cur + k) +:+ " / "
                                            +:+ show_field (maxLines table))])
          by (unfold w1'; simpl; by rewrite Ht2, Ht, <- app_assoc)
    end.
    destruct (batches_extends dbConnector Randomizer schema fuel table target
                fks' (cur + k) w1') as (evs' & Ht').
    destruct (IH _ _ _ _ Ht') as (Hmax & _ & Hfinal).
    rewrite Ht', Htw, <- !app_assoc.
    intros <-%app_inv_head.
    rewrite !inserted_app, (inserted_fetches _ Hf). simpl.
    apply Hins in Hi. rewrite Hlen in Hi. unfold runRows_at in Hi.
    split; [lia | split; [lia |]].
    intros e final Hr. apply Hfinal in Hr. lia.
Qed.

(** A run of [fill] in which [countLines] has answered [n], cut into its
    stages. *)
Lemma fill_counted fuel table reset w evs n :
  trace (fill dbConnector Randomizer schema fuel table reset w).2
    = trace w ++ evs ->
  CountLines (name table) (Resolved n) ∈ evs ->
  exists w0 s' evs0 evs1 evs2,
    fill_prologue dbConnector table reset w = (Ok tt, w0) /\
    countLines dbConnector table (db w0) = (Resolved n, s') /\
    trace (batches dbConnector Randomizer schema fuel table
             (targetLines table n) ∅ n (counted table (Resolved n) s' w0)).2
      = trace (counted table (Resolved n) s' w0) ++ evs1 /\
    evs = evs0 ++ CountLines (name table) (Resolved n) :: evs1 ++ evs2 /\
    Forall is_hook evs0 /\ Forall is_hook evs2 /\
    fill dbConnector Randomizer schema fuel table reset w
    = match batches dbConnector Randomizer schema fuel table
              (targetLines table n) ∅ n (counted table (Resolved n) s' w0) with
      | (Ok x, w4) => fill_epilogue dbConnector table x w4
      | (Throw msg, w4) => (Throw msg, w4)
      | (OutOfFuel, w4) => (OutOfFuel, w4)
      end /\
    trace (fill dbConnector Randomizer schema fuel table reset w).2
    = trace (batches dbConnector Randomizer schema fuel table
               (targetLines table n) ∅ n (counted table (Resolved n) s' w0)).2
        ++ evs2.
Proof.
  rewrite fill_eq.
  destruct (emits_fill_prologue dbConnector table reset w) as (evs0 & Ht0 & H0).
  destruct (fill_prologue dbConnector table reset w) as [[[] | msg |] w0];
    simpl in Ht0 |- *.
  2, 3: rewrite Ht0; intros <-%app_inv_head Hin; exfalso;
        rewrite Forall_forall in H0;
        by apply (hook_not_count _ (name table) (Resolved n) (H0 _ Hin)).
  rewrite generateData_eq.
  destruct (countLines dbConnector table (db w0)) as [[n0 | msg] s'] eqn:Ec.
  2: { simpl. rewrite Ht0, <- app_assoc. intros <-%app_inv_head Hin.
       exfalso. apply elem_of_app in Hin as [Hin | Hin].
       - rewrite Forall_forall in H0.
         by apply (hook_not_count _ (name table) (Resolved n) (H0 _ Hin)).
       - by apply list_elem_of_singleton in Hin. }
  assert (Hb : emits (S := S) (R := R) is_batch
                 (batches dbConnector Randomizer schema fuel table
                    (targetLines table n0) ∅ n0)).
  { apply emits_batches. intros. apply emits_batch. }
  destruct (Hb (counted table (Resolved n0) s' w0)) as (evs1 & Ht1 & H1).
  assert (Hstages : forall evs2,
            Forall is_hook evs2 ->
            CountLines (name table) (Resolved n)
              ∈ evs0 ++ CountLines (name table) (Resolved n0) :: evs1 ++ evs2 ->
            n0 = n).
  { intros evs2 H2 Hin. rewrite Forall_forall in H0, H1, H2.
    apply elem_of_app in Hin as [Hin | Hin].
    { exfalso. by apply (hook_not_count _ (name table) (Resolved n) (H0 _ Hin)). }
    apply elem_of_cons in Hin as [[= ->] | Hin]; [done |].
    exfalso. apply elem_of_app in Hin as [Hin | Hin].
    - by apply (batch_not_count _ (name table) (Resolved n) (H1 _ Hin)).
    - by apply (hook_not_count _ (name table) (Resolved n) (H2 _ Hin)). }
  destruct (batches dbConnector Randomizer schema fuel table
              (targetLines table n0) ∅ n0 (counted table (Resolved n0) s' w0))
    as [[x | msg |] w4] eqn:E; simpl in Ht1 |- *.
  - destruct (emits_fill_epilogue dbConnector table x w4) as (evs2 & Ht2 & H2).
    rewrite Ht2, Ht1. simpl. rewrite Ht0, <- !app_assoc. simpl.
    intros <-%app_inv_head Hin.
    pose proof (Hstages evs2 H2 Hin) as ->.
    exists w0, s', evs0, evs1, evs2. rewrite E. simpl.
    repeat (split; [done |]).
    rewrite Ht1. simpl. by rewrite Ht0, <- !app_assoc.
  - rewrite Ht1. simpl. rewrite Ht0, <- !app_assoc. simpl.
    intros <-%app_inv_head Hin.
    assert (n0 = n) as ->.
    { apply (Hstages []); [done | by rewrite app_nil_r]. }
    exists w0, s', evs0, evs1, []. rewrite E. simpl.
    rewrite !app_nil_r. repeat (split; [done |]).
    rewrite Ht1. simpl. by rewrite Ht0, <- !app_assoc.
  - rewrite Ht1. simpl. rewrite Ht0, <- !app_assoc. simpl.
    intros <-%app_inv_head Hin.
    assert (n0 = n) as ->.
    { apply (Hstages []); [done | by rewrite app_nil_r]. }
    exists w0, s', evs0, evs1, []. rewrite E. simpl.
    rewrite !app_nil_r. repeat (split; [done |]).
    rewrite Ht1. simpl. by rewrite Ht0, <- !app_assoc.
Qed.

Lemma targetLines_effective table n : targetLines table n = effective_target table n.
Proof.
  unfold effective_target, targetLines, spec_target, without_zero_lines, truthy.
  simpl.
  destruct (addLines table) as [[| a | a] |], (maxLines table) as [[| m | m] |];
    reflexivity.
Qed.

(** The row count of a run of [fill], from the count [n] that [countLines]
    has reported on. *)
Lemma fill_row_count fuel table reset w evs n :
  insert_bounded dbConnector ->
  trace (fill dbConnector Randomizer schema fuel table reset w).2
    = trace w ++ evs ->
  CountLines (name table) (Resolved n) ∈ evs ->
  n + inserted evs <= Z.max n (effective_target table n) /\
  (effective_target table n <= n ->
   inserted evs = 0 /\ Forall (fun e => ~ is_insert e) evs) /\
  (forall e final,
     (fill dbConnector Randomizer schema fuel table reset w).1 = Ok (e, final) ->
     final = n + inserted evs) /\
  (forall size,
     counts_rows dbConnector table size ->
     size (db (fill dbConnector Randomizer schema fuel table reset w).2)
     = n + inserted evs).
Proof.
  intros Hins Ht Hin.
  destruct (fill_counted fuel table reset w evs n Ht Hin)
    as (w0 & s' & evs0 & evs1 & evs2 & Hp & Hc & Ht1 & -> & H0 & H2 & Hfill & Ht2).
  rewrite <- targetLines_effective.
  destruct (batches_inserted _ _ _ _ _ _ _ Hins Ht1) as (Hmax & Hfull & Hfinal).
  assert (Hsum : inserted (evs0 ++ CountLines (name table) (Resolved n)
                             :: evs1 ++ evs2) = inserted evs1).
  { rewrite inserted_app. simpl. rewrite inserted_app.
    rewrite (inserted_hooks _ H0), (inserted_hooks _ H2). lia. }
  rewrite Hsum. split; [done | split; [| split]].
  - intros Hle. rewrite (Hfull Hle) in *. split; [done |].
    apply Forall_app_2; [| apply Forall_cons_2; [simpl; tauto |]].
    + eapply Forall_impl; [exact H0 | apply hook_not_insert].
    + simpl. eapply Forall_impl; [exact H2 | apply hook_not_insert].
  - intros e final. rewrite Hfill.
    destruct (batches dbConnector Randomizer schema fuel table
                (targetLines table n) ∅ n (counted table (Resolved n) s' w0))
      as [[x | msg |] w4]; simpl in *; [| done ..].
    unfold fill_epilogue, bind, ret.
    destruct (after dbConnector table w4) as [[[] | msg |] w5]; simpl;
      [| done ..].
    intros [= ->]. exact (Hfinal e final eq_refl).
  - intros size Hcounts.
    destruct (accounts_batches table size Hcounts fuel (targetLines table n) ∅ n
                (counted table (Resolved n) s' w0)) as (evs1' & Ht1' & Hs1).
    rewrite Ht1 in Ht1'. apply app_inv_head in Ht1' as <-.
    destruct (countLines_counts _ _ _ Hcounts _ _ _ Hc) as [Hs Hn].
    specialize (Hn n eq_refl). simpl in Hs1. rewrite Hs, <- Hn in Hs1.
    rewrite Hfill in Ht2 |- *.
    destruct (batches dbConnector Randomizer schema fuel table
                (targetLines table n) ∅ n (counted table (Resolved n) s' w0))
      as [[x | msg |] w4]; cbn [fst snd] in *; [| done ..].
    destruct (accounts_fill_epilogue table size Hcounts x w4)
      as (evs2' & Ht2' & Hs2).
    rewrite Ht2 in Ht2'. apply app_inv_head in Ht2' as <-.
    rewrite Hs2, Hs1, (inserted_hooks _ H2). lia.
Qed.

(** A run of [fill] in which [countLines] has not answered: nothing is
    inserted, and [fill] does not return. *)
Lemma fill_uncounted fuel table reset w evs :
  trace (fill dbConnector Randomizer schema fuel table reset w).2
    = trace w ++ evs ->
  (forall n, CountLines (name table) (Resolved n) ∉ evs) ->
  Forall (fun e => ~ is_insert e) evs /\
  forall x, (fill dbConnector Randomizer schema fuel table reset w).1 <> Ok x.
Proof.
  rewrite fill_eq.
  destruct (emits_fill_prologue dbConnector table reset w) as (evs0 & Ht0 & H0).
  assert (H0' : Forall (fun e => ~ is_insert e) evs0).
  { eapply Forall_impl; [exact H0 | apply hook_not_insert]. }
  destruct (fill_prologue dbConnector table reset w) as [[[] | msg |] w0];
    simpl in Ht0 |- *.
  2, 3: rewrite Ht0; by intros <-%app_inv_head _.
  rewrite generateData_eq.
  destruct (countLines dbConnector table (db w0)) as [[n0 | msg] s'].
  2: { simpl. rewrite Ht0, <- app_assoc. intros <-%app_inv_head _.
       split; [| done]. apply Forall_app_2; [done |].
       apply Forall_cons_2; [simpl; tauto | done]. }
  intros Ht Hno. exfalso. apply (Hno n0).
  destruct (batches_extends dbConnector Randomizer schema fuel table
              (targetLines table n0) ∅ n0 (counted table (Resolved n0) s' w0))
    as (evs1 & Ht1).
  destruct (batches _ _ _ _ _ _ _ _ _) as [[x | msg |] w4];
    cbn [snd] in Ht1, Ht.
  1: destruct (fill_epilogue_extends dbConnector table x w4) as (evs2 & Ht2);
     rewrite Ht2 in Ht.
  all: rewrite Ht1 in Ht; simpl in Ht; rewrite Ht0, <- !app_assoc in Ht;
    apply app_inv_head in Ht as <-;
    apply elem_of_app; right; apply list_elem_of_here.
Qed.

End RowCount.

(** C1, as the code has it.  Take a connector whose [insert] reports at
    most the number of rows it was given, and a run of [fill], with or
    without reset, however it ends.  When [countLines] has reported [n]
    rows in it, the row count of the run is [n] and what the [insert]s have
    reported: it is what [fill] returns, when it returns, and it is the size
    of the table at the end for a connector that keeps count.  It is at most
    the larger of [n] and the target, so at most the target when [n] is;
    when [n] is at or above the target it is [n], no [insert] being made.
    The target is that of the specification computed from the fields that
    are set and not zero, and [0] when there is none; it is the target of
    the specification for a table none of whose fields is zero.  When
    [countLines] has reported no row count, nothing is inserted and [fill]
    does not return. *)
Theorem fill_respects_target {S R} (dbConnector : DatabaseConnector S)
    (Randomizer : Randomness R) (schema : Schema) fuel (table : Table) reset
    (w : world S R) evs :
  insert_bounded dbConnector ->
  trace (fill dbConnector Randomizer schema fuel table reset w).2
    = trace w ++ evs ->
  (forall n,
     CountLines (name table) (Resolved n) ∈ evs ->
     n + inserted evs <= Z.max n (effective_target table n) /\
     (n <= effective_target table n ->
      n + inserted evs <= effective_target table n) /\
     (effective_target table n <= n ->
      inserted evs = 0 /\ Forall (fun e => ~ is_insert e) evs) /\
     (forall e final,
        (fill dbConnector Randomizer schema fuel table reset w).1
          = Ok (e, final) ->
        final = n + inserted evs) /\
     (forall size,
        counts_rows dbConnector table size ->
        size (db (fill dbConnector Randomizer schema fuel table reset w).2)
        = n + inserted evs) /\
     (lines_set table -> lines_nonzero table ->
      spec_target table n = Some (effective_target table n))) /\
  ((forall n, CountLines (name table) (Resolved n) ∉ evs) ->
   Forall (fun e => ~ is_insert e) evs /\
   forall x,
     (fill dbConnector Randomizer schema fuel table reset w).1 <> Ok x).
Proof.
  intros Hins Ht. split; [| by apply fill_uncounted].
  intros n Hin.
  destruct (fill_row_count dbConnector Randomizer schema fuel table reset w evs n
              Hins Ht Hin) as (Hmax & Hfull & Hfinal & Hsize).
  split; [done | split; [lia | split; [done | split; [done | split; [done |]]]]].
  intros Hset Hnz. rewrite <- targetLines_effective. by apply targetLines_spec.
Qed.

(** The world after a batch was abandoned at [column]: the fetch that gave
    no value and the warning are the last events. *)
Definition starved_world {S R} (table : Table) (column : Column)
    (fk : ForeignKey) (runRows : Z) (s2 : S) (w2 : world S R) : world S R :=
  World s2 (rng w2)
    (trace w2 ++
       [GetValuesForForeignKeys (name table) (col_name column) (fk_table fk)
          (fk_column fk) runRows (Options.unique (options column))
          (fk_where fk) (Resolved []);
        ConsoleWarn (starvation_message fk)]).

(** C3.  [fill] has run its prologue, [countLines] has answered [n], and the
    loop has made [k] turns and stands at row count [cur], below the target.
    In the next turn the columns [pre] resolve their foreign keys, and the
    column after them, a foreign key that is not nullable, receives no value.
    Then the turn ends in [break]: after the fetches only the warning is
    logged, no random number is drawn (no row is synthesized), [insert] is
    not called; [generateData] returns with the row count [cur] that the
    earlier batches reached; and [fill] does not throw the error but goes on
    with its [after] statements. *)
Theorem starvation_aborts_table {S R} (dbConnector : DatabaseConnector S)
    (Randomizer : Randomness R) (schema : Schema) (table : Table) reset
    (w w0 : world S R) n s' k cur fks w1 pre column post fk fks1 w2 s2 fuel :
  fill_prologue dbConnector table reset w = (Ok tt, w0) ->
  countLines dbConnector table (db w0) = (Resolved n, s') ->
  turns dbConnector Randomizer schema table (targetLines table n) k
    (n, ∅, counted table (Resolved n) s' w0) (cur, fks, w1) ->
  cur < targetLines table n ->
  columns table = pre ++ column :: post ->
  foreignKey column = Some fk ->
  Options.nullable (options column) = false ->
  getForeignKeyValues_from dbConnector table pre fks
    (runRows_at (targetLines table n) cur) w1 = (Ok fks1, w2) ->
  getValuesForForeignKeys dbConnector (name table) (col_name column)
    (fk_table fk) (fk_column fk) (runRows_at (targetLines table n) cur)
    (Options.unique (options column)) (fk_where fk) (db w2)
    = (Resolved [], s2) ->
  (k < fuel)%nat ->
  let w3 := starved_world table column fk
              (runRows_at (targetLines table n) cur) s2 w2 in
  batch dbConnector Randomizer schema table (targetLines table n) fks cur w1
    = (Ok (Break (Starved (starvation_message fk)) cur), w3) /\
  rng w3 = rng w1 /\
  (exists fetches,
     trace w3 = trace w1 ++ fetches ++ [ConsoleWarn (starvation_message fk)] /\
     Forall is_fetch fetches) /\
  generateData dbConnector Randomizer schema fuel table w0
    = (Ok (Starved (starvation_message fk), cur), w3) /\
  fill dbConnector Randomizer schema fuel table reset w
    = fill_epilogue dbConnector table (Starved (starvation_message fk), cur) w3.
Proof.
  intros Hp Hc Ht Hlt Hcols Hfk Hnull Hpre Hnone Hfuel w3.
  set (runRows := runRows_at (targetLines table n) cur) in *.
  assert (Hthrow :
    getForeignKeyValues dbConnector table fks runRows w1
    = (Throw (starvation_message fk),
       World s2 (rng w2)
         (trace w2 ++
            [GetValuesForForeignKeys (name table) (col_name column)
               (fk_table fk) (fk_column fk) runRows
               (Options.unique (options column)) (fk_where fk) (Resolved [])]))).
  { unfold getForeignKeyValues.
    rewrite Hcols, getForeignKeyValues_from_app, Hpre. simpl.
    rewrite Hfk. unfold bind, await. rewrite Hnone. simpl.
    by rewrite Hnull. }
  assert (Hb :
    batch dbConnector Randomizer schema table (targetLines table n) fks cur w1
    = (Ok (Break (Starved (starvation_message fk)) cur), w3)).
  { unfold batch. fold (runRows_at (targetLines table n) cur). fold runRows.
    unfold bind at 1. unfold try_catch, bind at 1. rewrite Hthrow.
    unfold bind, console, ret. simpl. unfold w3, starved_world.
    by rewrite <- app_assoc. }
  split; [done |]. split; [| split].
  - simpl.
    pose proof (draws_nothing_getForeignKeyValues_from dbConnector table pre
                  fks runRows w1) as Hr.
    by rewrite Hpre in Hr.
  - destruct (emits_getForeignKeyValues_from dbConnector table pre fks runRows w1)
      as (fetches & Htr & Hf).
    rewrite Hpre in Htr. simpl in Htr.
    eexists (fetches ++ [_]). split.
    + unfold w3, starved_world. simpl. rewrite Htr, <- !app_assoc. done.
    + apply Forall_app_2; [done |]. by apply Forall_cons_2.
  - by eapply fill_after_break.
Qed.

(** The statements of [table.after], none when the field is not set. *)
Definition after_statements (table : Table) : list string :=
  default [] (after_ table).

(** C10.  [fill] has run its prologue, [countLines] has answered [n], the
    loop has made [k] turns, and the next turn leaves the loop by [break].
    Then the loop was left for a stall or for a foreign key without values,
    and [fill] runs [after] in the world in which the loop was left: the
    statements of [table.after] are executed in order, all of them when
    [fill] returns, up to the one that was rejected when [fill] throws. *)
Theorem after_runs_on_abort {S R} (dbConnector : DatabaseConnector S)
    (Randomizer : Randomness R) (schema : Schema) (table : Table) reset
    (w w0 : world S R) n s' k cur fks w1 e cur' w2 fuel :
  fill_prologue dbConnector table reset w = (Ok tt, w0) ->
  countLines dbConnector table (db w0) = (Resolved n, s') ->
  turns dbConnector Randomizer schema table (targetLines table n) k
    (n, ∅, counted table (Resolved n) s' w0) (cur, fks, w1) ->
  cur < targetLines table n ->
  batch dbConnector Randomizer schema table (targetLines table n) fks cur w1
    = (Ok (Break e cur'), w2) ->
  (k < fuel)%nat ->
  (e = Stalled \/ exists msg, e = Starved msg) /\
  fill dbConnector Randomizer schema fuel table reset w
    = bind (after dbConnector table) (fun _ => ret (e, cur')) w2 /\
  exists answers,
    trace (fill dbConnector Randomizer schema fuel table reset w).2
      = trace w2 ++ zip_with ExecuteRawQuery (after_statements table) answers /\
    match (fill dbConnector Randomizer schema fuel table reset w).1 with
    | Ok x => x = (e, cur') /\ length answers = length (after_statements table)
    | Throw msg => last answers = Some (Rejected msg)
    | OutOfFuel => False
    end.
Proof.
  intros Hp Hc Ht Hlt Hb Hfuel.
  destruct (fill_after_break dbConnector Randomizer schema table reset w w0 n s'
              k cur fks w1 e cur' w2 fuel Hp Hc Ht Hlt Hb Hfuel) as [_ ->].
  split; [| split; [done |]].
  - apply batch_outcome_of in Hb. inversion Hb; eauto.
  - unfold fill_epilogue, bind, after, after_statements.
    destruct (after_ table) as [queries |]; simpl.
    + destruct (executeAll_trace dbConnector queries w2) as (answers & Htr & Hr).
      exists answers.
      destruct (executeAll dbConnector queries w2) as [[[] | msg |] w5];
        simpl in *; [done | by destruct Hr | done].
    + exists []. simpl. by rewrite app_nil_r.
Qed.

(** ** The synthesis of a column *)

Definition is_string_tag (g : GeneratorTag) : Prop :=
  match g with
  | g_varchar | g_char | g_binary | g_varbinary => True
  | _ => False
  end.

(** The test of the UUID branch: [column.options.max >= 36 &&
    column.options.unique]. *)
Definition wants_uuid (column : Column) : bool :=
  num_ge (Options.max (options column)) 36 && Options.unique (options column).

(** The column is synthesized from its generator tag: it is not skipped as
    auto-increment, has no [values] and no foreign key. *)
Definition by_generator (column : Column) : Prop :=
  Options.autoIncrement (options column) = false /\
  values_truthy (values column) = false /\
  foreignKey column = None.

Lemma generateColumn_string {S R} (Randomizer : Randomness R)
    (schema : Schema) i fks (column : Column) (r : row) (w : world S R) :
  is_string_tag (generator column) ->
  by_generator column ->
  generateColumn Randomizer schema i fks column r w =
  if wants_uuid column then
    let (u, rng') := uuid4 Randomizer (rng w) in
    (Ok (<[col_name column := VStr u]> r), World (db w) rng' (trace w))
  else
    let (n, rng1) :=
      randomInt Randomizer (Options.min (options column))
        (Math_min (maxCharLength schema) (Options.max (options column)))
        (rng w) in
    let (s, rng2) := randomString Randomizer n rng1 in
    nullify Randomizer column (<[col_name column := VStr s]> r)
      (World (db w) rng2 (trace w)).
Proof.
  intros Htag (Hauto & Hvals & Hfk). unfold generateColumn, wants_uuid.
  rewrite Hauto, Hvals, Hfk.
  destruct (generator column); try done;
    (destruct (_ && _);
     [ unfold bind, random, ret; by destruct (uuid4 _ _)
     | unfold random_string, bind, random, ret; simpl;
       destruct (randomInt _ _ _ _) as [n rng1]; simpl;
       by destruct (randomString _ _ _) as [s rng2] ]).
Qed.

(** Modelled from the spec: the [Randomizer] module is not among the
    sources.  The specification describes it as producing integers in the
    inclusive range it is given and strings of the length it is given. *)
Definition randomizer_contract {R} (Randomizer : Randomness R) : Prop :=
  (forall lo hi r, lo <= hi ->
     exists n, (randomInt Randomizer (Some lo) (Some hi) r).1 = Some n /\
               lo <= n <= hi) /\
  (forall n r, 0 <= n ->
     Z.of_nat (String.length (randomString Randomizer (Some n) r).1) = n).

(** C8.  A varchar, char, binary or varbinary column that is synthesized
    from its tag gets, when [max >= 36] and [unique] is set, the string that
    [uuid4] returns, and no call of [randomInt] or [randomString] is made;
    otherwise it gets the string [randomString(n)] with
    [n = randomInt(min, Math.min(schema.maxCharLength, max))], on which the
    null replacement of nullable columns follows.  With a [Randomizer] that
    keeps to its description, the length of that string lies between [min]
    and [Math.min(schema.maxCharLength, max)]. *)
Theorem string_column_synthesis {S R} (Randomizer : Randomness R)
    (schema : Schema) i fks (column : Column) (r : row) (w : world S R) :
  is_string_tag (generator column) ->
  by_generator column ->
  generateColumn Randomizer schema i fks column r w =
  (if wants_uuid column then
     let (u, rng') := uuid4 Randomizer (rng w) in
     (Ok (<[col_name column := VStr u]> r), World (db w) rng' (trace w))
   else
     let (n, rng1) :=
       randomInt Randomizer (Options.min (options column))
         (Math_min (maxCharLength schema) (Options.max (options column)))
         (rng w) in
     let (s, rng2) := randomString Randomizer n rng1 in
     nullify Randomizer column (<[col_name column := VStr s]> r)
       (World (db w) rng2 (trace w))) /\
  (wants_uuid column = false ->
   randomizer_contract Randomizer ->
   forall lo hi,
     Options.min (options column) = Some lo ->
     Math_min (maxCharLength schema) (Options.max (options column)) = Some hi ->
     0 <= lo <= hi ->
     exists s rng2,
       generateColumn Randomizer schema i fks column r w
       = nullify Randomizer column (<[col_name column := VStr s]> r)
           (World (db w) rng2 (trace w)) /\
       lo <= Z.of_nat (String.length s) <= hi).
Proof.
  intros Htag Hgen. split; [by apply generateColumn_string |].
  intros Huuid [Hint Hstr] lo hi Hlo Hhi Hrange.
  rewrite generateColumn_string, Huuid, Hlo, Hhi by done.
  destruct (Hint lo hi (rng w)) as (n & Hn & Hbound); [lia |].
  destruct (randomInt Randomizer (Some lo) (Some hi) (rng w)) as [n' rng1].
  simpl in Hn. subst n'.
  pose proof (Hstr n rng1) as Hlen.
  destruct (randomString Randomizer (Some n) rng1) as [s rng2].
  exists s, rng2. split; [done |]. simpl in Hlen. lia.
Qed.

(** The tags after whose synthesis the source has the line
    [if (column.options.nullable && Math.random() <= 0.1) row[...] = null]:
    every tag with a [case] but [enum], and the string tags only outside
    the UUID branch. *)
Definition null_step_follows (column : Column) : Prop :=
  match generator column with
  | g_enum | g_other _ => False
  | g_varchar | g_char | g_binary | g_varbinary => wants_uuid column = false
  | _ => True
  end.

Lemma nullify_nullable {S R} (Randomizer : Randomness R) column r0
    (w : world S R) :
  Options.nullable (options column) = true ->
  nullify Randomizer column r0 w =
  (Ok (if Qle_bool (Math_random Randomizer (rng w)).1 one_tenth
       then <[col_name column := VNull]> r0 else r0),
   World (db w) (Math_random Randomizer (rng w)).2 (trace w)).
Proof.
  intros Hn. unfold nullify, bind, random, ret. rewrite Hn.
  by destruct (Math_random Randomizer (rng w)).
Qed.

(** Symbolic execution of the draws of a synthesis. *)
Ltac draw :=
  match goal with
  | |- context [let (_, _) := ?f ?x in _] => destruct (f x) as [? ?]; simpl
  end.

(** The value that the [case] of the column's tag assigns to
    [row[column.name]], the first statement of the case, with the random
    state that its draws leave.  A tag without a [case] assigns nothing. *)
Definition synthesized {R} (Randomizer : Randomness R) (schema : Schema)
    (column : Column) (rng0 : R) : value * R :=
  let o := options column in
  let integer lo hi :=
    let (n, rng1) := randomInt Randomizer lo hi rng0 in (num_value n, rng1) in
  let string lo hi :=
    let (n, rng1) := randomInt Randomizer lo hi rng0 in
    let (s, rng2) := randomString Randomizer n rng1 in
    (VStr s, rng2) in
  match generator column with
  | g_bit | g_set => randomBit Randomizer (Options.max o) rng0
  | g_tinyint | g_smallint | g_mediumint
  | g_int | g_integer | g_bigint | g_year =>
      integer (Options.min o) (Options.max o)
  | g_bool | g_boolean => integer (Some 0) (Some 1)
  | g_decimal | g_dec | g_float | g_double =>
      randomFloat Randomizer (Options.min o) (Options.max o) rng0
  | g_date | g_datetime | g_timestamp =>
      let min :=
        if truthy (Options.min o) then Options.min o
        else date_1970 Randomizer in
      let (max, rng1) :=
        if truthy (Options.max o) then (Options.max o, rng0)
        else date_now Randomizer rng0 in
      randomDate Randomizer min max rng1
  | g_time =>
      let (hours, rng1) := randomInt Randomizer (Some (-838)) (Some 838) rng0 in
      let (minutes, rng2) := randomInt Randomizer (Some 0) (Some 59) rng1 in
      let (seconds, rng3) := randomInt Randomizer (Some 0) (Some 59) rng2 in
      (VStr (show_num hours +:+ ":" +:+ show_num minutes
               +:+ ":" +:+ show_num seconds), rng3)
  | g_varchar | g_char | g_binary | g_varbinary =>
      if wants_uuid column then
        let (u, rng1) := uuid4 Randomizer rng0 in (VStr u, rng1)
      else string (Options.min o)
             (Math_min (maxCharLength schema) (Options.max o))
  | g_tinyblob => string (Some 0) (Some 10)
  | g_text | g_mediumtext | g_longtext
  | g_blob | g_mediumblob | g_longblob =>
      string (Some 0) (Math_min (maxCharLength schema) (Options.max o))
  | g_enum =>
      let (u, rng1) := Math_random Randomizer rng0 in
      (if Options.nullable o then scaled u (Z.succ <$> Options.max o) 0
       else scaled u (Options.max o) 1, rng1)
  | g_other _ => (VUndefined, rng0)
  end.

(** What the column holds after the null step, for the synthesized value
    [v] and the draw [u] of [Math.random]. *)
Definition nulled (u : Q) (v : value) : value :=
  if Qle_bool u one_tenth then VNull else v.

Lemma generateColumn_null_step {S R} (Randomizer : Randomness R)
    (schema : Schema) i fks (column : Column) (r : row) (w : world S R) :
  by_generator column ->
  null_step_follows column ->
  generateColumn Randomizer schema i fks column r w =
  let (v, rng1) := synthesized Randomizer schema column (rng w) in
  if Options.nullable (options column) then
    let (u, rng2) := Math_random Randomizer rng1 in
    (Ok (<[col_name column := nulled u v]> r), World (db w) rng2 (trace w))
  else (Ok (<[col_name column := v]> r), World (db w) rng1 (trace w)).
Proof.
  intros (Hauto & Hvals & Hfk) Hfollows. unfold generateColumn, synthesized.
  rewrite Hauto, Hvals, Hfk. unfold null_step_follows in Hfollows.
  fold (wants_uuid column).
  destruct (generator column); try done; rewrite ?Hfollows;
    unfold random_string, random_integer, nullify, nulled;
    unfold bind at 1; unfold random, ret, bind;
    try destruct (truthy (Options.max (options column)));
    destruct (Options.nullable (options column));
    cbn [rng db trace];
    repeat (draw; cbn [rng db trace]);
    try done;
    match goal with
    | |- context [Qle_bool ?u one_tenth] => destruct (Qle_bool u one_tenth)
    end; by rewrite ?insert_insert_eq.
Qed.

(** C4, as the code has it.  Take a column synthesized from its tag, with
    any tag but [enum] and outside the UUID branch of the string tags, and
    let [v] be the value that the case of its tag synthesizes.  When the
    column is nullable, one draw [u] of [Math.random] is made after the
    synthesis and the column is set to null if [u <= 0.1] and to [v]
    otherwise: it is null exactly when [u <= 0.1], unless [v] is null
    itself.  When the column is not nullable no draw is made and the column
    is set to [v].  In the UUID branch no such draw is made either: the
    column gets the UUID string, nullable or not. *)
Theorem null_replacement {S R} (Randomizer : Randomness R) (schema : Schema)
    i fks (column : Column) (r : row) (w : world S R) :
  by_generator column ->
  (null_step_follows column ->
   generateColumn Randomizer schema i fks column r w =
   let (v, rng1) := synthesized Randomizer schema column (rng w) in
   if Options.nullable (options column) then
     let (u, rng2) := Math_random Randomizer rng1 in
     (Ok (<[col_name column := nulled u v]> r), World (db w) rng2 (trace w))
   else (Ok (<[col_name column := v]> r), World (db w) rng1 (trace w))) /\
  (null_step_follows column ->
   Options.nullable (options column) = true ->
   (synthesized Randomizer schema column (rng w)).1 <> VNull ->
   exists r' w',
     generateColumn Randomizer schema i fks column r w = (Ok r', w') /\
     (r' !! col_name column = Some VNull <->
      ((Math_random Randomizer
          (synthesized Randomizer schema column (rng w)).2).1
       <= one_tenth)%Q)) /\
  (is_string_tag (generator column) ->
   wants_uuid column = true ->
   generateColumn Randomizer schema i fks column r w =
   (Ok (<[col_name column := VStr (uuid4 Randomizer (rng w)).1]> r),
    World (db w) (uuid4 Randomizer (rng w)).2 (trace w))).
Proof.
  intros Hgen. split; [| split].
  - by apply generateColumn_null_step.
  - intros Hfollows Hnull Hv.
    rewrite (generateColumn_null_step Randomizer schema i fks column r w)
      by done.
    destruct (synthesized Randomizer schema column (rng w)) as [v rng1].
    rewrite Hnull. simpl in Hv |- *.
    destruct (Math_random Randomizer rng1) as [u rng2]. simpl.
    eexists _, _. split; [done |]. rewrite lookup_insert_eq.
    unfold nulled. rewrite <- Qle_bool_iff.
    destruct (Qle_bool u one_tenth); [done |].
    split; [by intros [= ->] | done].
  - intros Htag Huuid.
    rewrite (generateColumn_string Randomizer schema i fks column r w Htag Hgen).
    rewrite Huuid. by destruct (uuid4 Randomizer (rng w)).
Qed.

(** The claim C4 as the specification words it: the null replacement
    follows the synthesis for every tag but [enum], the UUID branch
    included. *)
Definition null_step_as_stated : Prop :=
  forall (Randomizer : Randomness nat) (schema : Schema) i fks
         (column : Column) (r : row) (w : world Z nat) r' w',
    by_generator column ->
    Options.nullable (options column) = true ->
    match generator column with g_enum | g_other _ => False | _ => True end ->
    generateColumn Randomizer schema i fks column r w = (Ok r', w') ->
    exists v rng1 u,
      Math_random Randomizer rng1 = (u, rng w') /\
      r' = if Qle_bool u one_tenth
           then <[col_name column := VNull]> (<[col_name column := v]> r)
           else <[col_name column := v]> r.

(** A nullable [varchar(36)] with a unique index. *)
Definition token_column : Column := {|
  col_name := "token";
  generator := g_varchar;
  options := {| Options.nullable := true; Options.unique := true;
                Options.autoIncrement := false; Options.min := Some 0;
                Options.max := Some 36 |};
  foreignKey := None;
  values := None
|}.

(** C4 fails as stated: with a [Math.random] that always draws [0], which
    nulls every column that has the null step, the nullable unique
    [varchar(36)] still gets its UUID. *)
Lemma uuid_column_is_not_nulled : ~ null_step_as_stated.
Proof.
  intros H.
  destruct (H Stub.randomness Stub.schema O ∅ token_column ∅ (Stub.start 0)
              {["token" := VStr Stub.a_uuid]} (World 0 1%nat []))
    as (v & rng1 & u & Hu & Hr); try done.
  simpl in Hu. injection Hu as <- _. simpl in Hr.
  apply (f_equal (fun m : row => m !! "token")) in Hr.
  rewrite lookup_insert_eq in Hr. by rewrite lookup_singleton_eq in Hr.
Qed.

(** The claim C5 as the specification words it: a table with only [lines]
    has the target [lines]. *)
Definition lines_as_stated : Prop :=
  forall (table : Table) l cur,
    maxLines table = None -> addLines table = None -> lines table = Some l ->
    targetLines table cur = l.

(** A table that sets only the deprecated [lines]. *)
Definition legacy_table : Table := {|
  name := "legacy";
  lines := Some 7;
  columns := [];
  before_ := None;
  after_ := None;
  maxLines := None;
  addLines := None
|}.

(** C5 fails as stated: with [lines = 7] alone the target is [0]. *)
Lemma lines_is_not_read : ~ lines_as_stated.
Proof.
  intros H. specialize (H legacy_table 7 0 eq_refl eq_refl eq_refl).
  vm_compute in H. discriminate H.
Qed.

(** C5, as the code has it.  [generateData] never reads [lines]: for a table
    that sets neither [maxLines] nor [addLines] the target is [0] whatever
    [lines] is, and on a row count that is not negative the loop makes no
    turn, so that [generateData] comes back right after [countLines]. *)
Theorem lines_alone_is_ignored {S R} (dbConnector : DatabaseConnector S)
    (Randomizer : Randomness R) (schema : Schema) fuel (table : Table)
    (w : world S R) :
  maxLines table = None -> addLines table = None ->
  (forall cur, targetLines table cur = 0) /\
  (forall n s', 0 <= n ->
     countLines dbConnector table (db w) = (Resolved n, s') ->
     generateData dbConnector Randomizer schema fuel table w
     = (Ok (Reached, n), counted table (Resolved n) s' w)).
Proof.
  intros Hm Ha.
  assert (Ht : forall cur, targetLines table cur = 0).
  { intros cur. unfold targetLines. by rewrite Hm, Ha. }
  split; [done |]. intros n s' Hn Hc.
  rewrite generateData_eq, Hc, Ht. by apply batches_reached.
Qed.

(** ** Foreign-key columns *)

Section ForeignKeys.
Context {S R : Type}.
Variable dbConnector : DatabaseConnector S.
Variable Randomizer : Randomness R.
Variable schema : Schema.
Implicit Types w : world S R.




(** [m] writes no entry of the row but that of [column]. *)
Definition writes_only (column : Column) (r : row) (m : M S R row) : Prop :=
  forall w r' w' key,
    m w = (Ok r', w') -> key <> col_name column -> r' !! key = r !! key.

Lemma writes_only_ret column r : writes_only column r (ret r).
Proof. by intros w r' w' key [= <- _]. Qed.

Lemma writes_only_set column r v :
  writes_only column r (ret (<[col_name column := v]> r)).
Proof. intros w r' w' key [= <- _] Hne. by rewrite lookup_insert_ne. Qed.

Lemma writes_only_throw column r msg : writes_only column r (throw msg).
Proof. by intros w r' w' key. Qed.

Lemma writes_only_nullify column r v :
  writes_only column r
    (nullify Randomizer column (<[col_name column := v]> r)).
Proof.
  intros w r' w' key. unfold nullify, bind, random, ret.
  destruct (Options.nullable _).
  - destruct (Math_random _ _) as [u rng']. intros [= <- _] Hne.
    destruct (Qle_bool _ _); by rewrite !lookup_insert_ne.
  - intros [= <- _] Hne. by rewrite lookup_insert_ne.
Qed.

Lemma writes_only_bind {A} column r (m : M S R A) k :
  (forall a, writes_only column r (k a)) -> writes_only column r (bind m k).
Proof.
  intros Hk w r' w' key. unfold bind.
  destruct (m w) as [[a | msg |] w1]; [| done ..]. apply Hk.
Qed.

Lemma writes_only_generateColumn i fks column r :
  writes_only column r (generateColumn Randomizer schema i fks column r).
Proof.
  pose proof writes_only_ret. pose proof writes_only_set.
  pose proof writes_only_throw. pose proof writes_only_nullify.
  unfold generateColumn.
  repeat match goal with
         | |- writes_only _ _ (bind _ _) => apply writes_only_bind; intros ?
         | |- writes_only _ _ (match ?x with _ => _ end) => destruct x
         | |- _ => done
         end.
Qed.




(** Row [j] of the batch is the row made with index [i0 + j]. *)
Lemma generateRows_lookup table fks n i0 w rows w' j r :
  generateRows Randomizer schema table fks n i0 w = (Ok rows, w') ->
  rows !! j = Some r ->
  exists wa wb : world S R,
    generateRow Randomizer schema (i0 + j) fks (columns table) ∅ wa
    = (Ok r, wb).
Proof.
  revert i0 w rows w' j. induction n as [| n IH]; intros i0 w rows w' j; simpl.
  - by intros [= <- _].
  - unfold bind, ret.
    destruct (generateRow _ _ _ _ _ _ w) as [[r0 | msg |] w1] eqn:E0;
      [| done ..].
    destruct (generateRows _ _ _ _ _ _ w1) as [[rest | msg |] w2] eqn:E1;
      [| done ..].
    intros [= <- _]. destruct j as [| j]; simpl.
    + intros [= <-]. rewrite Nat.add_0_r. eauto.
    + intros Hj. destruct (IH _ _ _ _ _ E1 Hj) as (wa & wb & Hrow).
      exists wa, wb. by rewrite <- Nat.add_succ_comm.
Qed.

End ForeignKeys.


(** * Runs on the concrete collaborators *)

(** A connector that inserts every row, one that inserts nothing, and one
    that inserts a single row per batch while the referenced table runs dry
    after the first batch. *)
Definition accepting : DatabaseConnector Z := Stub.connector (fun _ => []) id.
Definition rejecting : DatabaseConnector Z := Stub.connector (fun _ => []) (fun _ => 0).
Definition drying : DatabaseConnector Z := Stub.connector Stub.one_user (fun _ => 1).
Definition referencing : DatabaseConnector Z :=
  Stub.connector (fun _ => [VInt 7]) id.

(** The scenario of the specification: [users] with [maxLines = 5], empty
    at the start. *)
Definition five_users : Table := Stub.users (Some 5) None.

(** A table without columns that wants 1001 rows. *)
Definition many_users : Table := {|
  name := "users";
  lines := None;
  columns := [];
  before_ := None;
  after_ := None;
  maxLines := Some 1001;
  addLines := None
|}.

Definition seeding_run : result (Exit * Z) * world Z nat :=
  fill accepting Stub.randomness Stub.schema 1 five_users false (Stub.start 0).

Definition full_run : result (Exit * Z) * world Z nat :=
  fill accepting Stub.randomness Stub.schema 1 five_users false (Stub.start 10).

Definition stalling_run : result (Exit * Z) * world Z nat :=
  fill rejecting Stub.randomness Stub.schema 1 five_users false (Stub.start 0).

Definition drying_run : result (Exit * Z) * world Z nat :=
  fill drying Stub.randomness Stub.schema 2 Stub.orders false (Stub.start 0).

Definition user_id_column : Column := {|
  col_name := "user_id"; generator := g_int; options := Stub.plain;
  foreignKey := Some {| fk_table := "users"; fk_column := "id";
                        fk_where := None |};
  values := None
|}.

Definition users_id : ForeignKey :=
  {| fk_table := "users"; fk_column := "id"; fk_where := None |}.

Lemma rejecting_insert_nothing : insert_nothing rejecting.
Proof. intros tableName rows s. reflexivity. Defined.

Lemma rejecting_insert_nonneg : insert_nonneg rejecting.
Proof. intros tableName rows s k s'. simpl. intros [= <- _]. lia. Defined.

Lemma stub_counts_rows pool table :
  counts_rows (Stub.connector pool id) table id.
Proof.
  split; simpl.
  - intros s a s' [= <- <-]. split; [done |]. by intros n [= ->].
  - intros rows s a s' [= <- <-]. simpl. lia.
  - by intros t c rt rc count uniq where_ s a s' [= _ <-].
  - by intros q s a s' [= _ <-].
Defined.

(** [users] of 2 rows with [addLines = 0] and [maxLines = 5]. *)
Definition topped_up_run : result (Exit * Z) * world Z nat :=
  fill accepting Stub.randomness Stub.schema 1 (Stub.users (Some 5) (Some 0))
    false (Stub.start 2).

Lemma fill_respects_target_witness :
  (2 + inserted (trace topped_up_run.2) <= 5 /\
   5 = 2 + inserted (trace topped_up_run.2) /\
   db topped_up_run.2 = 2 + inserted (trace topped_up_run.2)) /\
  (inserted (trace full_run.2) = 0 /\
   Forall (fun e => ~ is_insert e) (trace full_run.2)) /\
  spec_target five_users 10 = Some (effective_target five_users 10).
Proof.
  destruct (fill_respects_target accepting Stub.randomness Stub.schema 1%nat
              (Stub.users (Some 5) (Some 0)) false (Stub.start 2)
              (trace topped_up_run.2) (stub_insert_bounded (fun _ => [])))
    as [Hgrown _]; [reflexivity |].
  destruct (Hgrown 2) as (_ & Hbelow & _ & Hfinal & Hsize & _).
  { vm_compute. apply list_elem_of_further, list_elem_of_here. }
  destruct (fill_respects_target accepting Stub.randomness Stub.schema 1%nat
              five_users false (Stub.start 10)
              (trace full_run.2) (stub_insert_bounded (fun _ => [])))
    as [Hfull _]; [reflexivity |].
  destruct (Hfull 10) as (_ & _ & Hkept & _ & _ & Hspec).
  { vm_compute. apply list_elem_of_further, list_elem_of_here. }
  split; [split; [| split] | split].
  - apply Hbelow. vm_compute. discriminate.
  - apply (Hfinal Reached 5). vm_compute. reflexivity.
  - apply (Hsize id). apply stub_counts_rows.
  - apply Hkept. vm_compute. discriminate.
  - apply Hspec.
    + left. by exists 5.
    + by split.
Defined.

Lemma full_table_is_left_alone_witness :
  Forall no_insert_no_fetch (trace full_run.2).
Proof.
  apply (full_table_is_left_alone accepting Stub.randomness Stub.schema 1%nat
           five_users (Stub.start 10) (trace full_run.2) 10).
  - reflexivity.
  - vm_compute. apply list_elem_of_further, list_elem_of_here.
  - vm_compute. discriminate.
Defined.

Lemma generation_terminates_witness :
  (exists fuel, forall fuel', (fuel <= fuel')%nat ->
     (fill rejecting Stub.randomness Stub.schema fuel' five_users false
        (Stub.start 0)).1 <> OutOfFuel) /\
  stalling_run.1 <> OutOfFuel /\
  exists pre rows post,
    trace stalling_run.2
    = pre ++ [Insert (name five_users) rows (Resolved 0);
              ConsoleWarn (stall_message five_users)] ++ post /\
    Forall (fun e => ~ is_insert e) pre /\ Forall is_hook post.
Proof.
  destruct (generation_terminates rejecting Stub.randomness Stub.schema
              five_users false (Stub.start 0)) as [Hterm Hstall].
  destruct (Hterm rejecting_insert_nonneg) as [(fuel & Hfuel) _].
  destruct (Hstall rejecting_insert_nothing) as (_ & Hend & Htrace).
  split; [| split; [exact Hend |]].
  - exists fuel. intros fuel' Hle. by destruct (Hfuel fuel' Hle).
  - apply (Htrace (trace stalling_run.2)); [reflexivity |].
    vm_compute. do 2 apply Exists_cons_tl. apply Exists_cons_hd. exact I.
Defined.

(** Evaluate the left-hand side of an equation and read the unknowns of the
    right-hand side off the value. *)
Ltac evaluate :=
  lazymatch goal with
  | |- ?l = ?r =>
      let v := eval vm_compute in l in
      unify r v; vm_compute; reflexivity
  end.

Lemma starvation_aborts_table_witness :
  drying_run.1 = Ok (Starved (starvation_message users_id), 1) /\
  Forall (fun e => ~ is_insert e) (drop 5 (trace drying_run.2)).
Proof.
  edestruct (starvation_aborts_table drying Stub.randomness Stub.schema
               Stub.orders false (Stub.start 0))
    with (k := 1%nat) (fuel := 2%nat) (pre := @nil Column)
         (column := user_id_column) (fk := users_id)
    as (Hbatch & Hrng & Hfetches & Hgen & Hfill).
  - evaluate.
  - evaluate.
  - eapply turns_S; [reflexivity | evaluate | apply turns_O].
  - reflexivity.
  - reflexivity.
  - reflexivity.
  - reflexivity.
  - evaluate.
  - evaluate.
  - lia.
  - unfold drying_run. rewrite Hfill. split.
    + reflexivity.
    + vm_compute. repeat constructor; intros [].
Defined.

Definition stalled_orders_run : result (Exit * Z) * world Z nat :=
  fill (Stub.connector (fun _ => [VInt 7]) (fun _ => 0)) Stub.randomness
    Stub.schema 1 Stub.orders false (Stub.start 0).

Lemma after_runs_on_abort_witness :
  stalled_orders_run.1 = Ok (Stalled, 0) /\
  drop 5 (trace stalled_orders_run.2)
  = [ExecuteRawQuery "ANALYZE TABLE orders" (Resolved tt);
     ExecuteRawQuery "SET FOREIGN_KEY_CHECKS = 1" (Resolved tt)].
Proof.
  edestruct (after_runs_on_abort
               (Stub.connector (fun _ => [VInt 7]) (fun _ => 0))
               Stub.randomness Stub.schema Stub.orders false (Stub.start 0))
    with (k := O) (fuel := 1%nat) as (Hexit & Hfill & answers & Htrace & Hres).
  - evaluate.
  - evaluate.
  - apply turns_O.
  - reflexivity.
  - evaluate.
  - lia.
  - unfold stalled_orders_run. rewrite Hfill. split; vm_compute; reflexivity.
Defined.

Lemma insert_batch_size_witness :
  (exists rows tail,
     Z.of_nat (length rows) = 5 /\
     trace (batch accepting Stub.randomness Stub.schema five_users 5 ∅ 0
              (Stub.start 0)).2
     = [] ++ Insert "users" rows (Resolved 5) :: tail) /\
  (exists (w3 : world Z nat) rows rest,
     Z.of_nat (length rows) = 4 /\
     (exists first,
        length first = 5%nat /\
        trace w3
        = [ConsoleLog "fill:  users"; CountLines "users" (Resolved 0);
           Insert "users" first (Resolved 1); ConsoleLog "1 / 5"]) /\
     trace (fill drying Stub.randomness Stub.schema 2 five_users false
              (Stub.start 0)).2
     = trace w3 ++ Insert "users" rows (Resolved 1) :: rest) /\
  Forall (inserts_rows (fun n => Z.of_nat n = Z.min 1000 (5 - 0)))
    (trace (batch accepting Stub.randomness Stub.schema five_users 5 ∅ 0
              (Stub.start 0)).2) /\
  Forall (inserts_rows (fun n => (n <= 1000)%nat)) (trace seeding_run.2).
Proof.
  split; [| split; [| split]].
  - destruct (insert_batch_size accepting Stub.randomness Stub.schema
                five_users) as (Hturn & _ & _ & _).
    edestruct (Hturn 5 ∅ 0 (Stub.start 0)) as (Hlen & _ & tail & Htrace & _).
    + lia.
    + evaluate.
    + evaluate.
    + eexists _, tail. split; [exact Hlen | exact Htrace].
  - destruct (insert_batch_size drying Stub.randomness Stub.schema
                five_users) as (_ & Hrun & _ & _).
    edestruct (Hrun false (Stub.start 0)) with (k := 1%nat) (fuel := 2%nat)
      as [Hlen (rest & Htrace)].
    + evaluate.
    + evaluate.
    + eapply turns_S; [reflexivity | evaluate | apply turns_O].
    + reflexivity.
    + evaluate.
    + evaluate.
    + lia.
    + eexists _, _, rest. split; [exact Hlen |]. split; [| exact Htrace].
      eexists. split; [| vm_compute; reflexivity]. reflexivity.
  - destruct (insert_batch_size accepting Stub.randomness Stub.schema
                five_users) as (_ & _ & Hbatch & _).
    apply (Hbatch 5 ∅ 0 (Stub.start 0)); [lia | reflexivity].
  - destruct (insert_batch_size accepting Stub.randomness Stub.schema
                five_users) as (_ & _ & _ & Hfill).
    apply (Hfill 1%nat false (Stub.start 0)). reflexivity.
Defined.

Definition nullable_int_column : Column := {|
  col_name := "age";
  generator := g_int;
  options := {| Options.nullable := true; Options.unique := false;
                Options.autoIncrement := false; Options.min := Some 18;
                Options.max := Some 99 |};
  foreignKey := None;
  values := None
|}.

(** The stub with a [Math.random] that always draws one half. *)
Definition temperate : Randomness nat := {|
  randomInt := randomInt Stub.randomness;
  randomBit := randomBit Stub.randomness;
  randomFloat := randomFloat Stub.randomness;
  randomDate := randomDate Stub.randomness;
  randomString := randomString Stub.randomness;
  Math_random r := ((1 # 2)%Q, Datatypes.S r);
  uuid4 := uuid4 Stub.randomness;
  date_1970 := date_1970 Stub.randomness;
  date_now := date_now Stub.randomness
|}.

Lemma null_replacement_witness :
  generateColumn Stub.randomness Stub.schema O ∅ nullable_int_column ∅
    (Stub.start 0)
  = (Ok {["age" := VNull]}, World 0 2%nat []) /\
  generateColumn temperate Stub.schema O ∅ nullable_int_column ∅ (Stub.start 0)
  = (Ok {["age" := VInt 18]}, World 0 2%nat []) /\
  (exists r' w',
     generateColumn temperate Stub.schema O ∅ nullable_int_column ∅
       (Stub.start 0) = (Ok r', w') /\
     (r' !! "age" = Some VNull <-> ((1 # 2) <= one_tenth)%Q)) /\
  generateColumn Stub.randomness Stub.schema O ∅ token_column ∅ (Stub.start 0)
  = (Ok {["token" := VStr Stub.a_uuid]}, World 0 1%nat []).
Proof.
  split; [| split; [| split]].
  - destruct (null_replacement Stub.randomness Stub.schema O ∅
                nullable_int_column ∅ (Stub.start 0)) as (Hnull & _ & _).
    + by repeat split.
    + rewrite (Hnull I). vm_compute. reflexivity.
  - destruct (null_replacement temperate Stub.schema O ∅
                nullable_int_column ∅ (Stub.start 0)) as (Hnull & _ & _).
    + by repeat split.
    + rewrite (Hnull I). vm_compute. reflexivity.
  - destruct (null_replacement temperate Stub.schema O ∅
                nullable_int_column ∅ (Stub.start 0)) as (_ & Hiff & _).
    + by repeat split.
    + apply (Hiff I eq_refl). discriminate.
  - destruct (null_replacement Stub.randomness Stub.schema O ∅
                token_column ∅ (Stub.start 0)) as (_ & _ & Huuid).
    + by repeat split.
    + rewrite (Huuid I eq_refl). vm_compute. reflexivity.
Defined.

Lemma lines_alone_is_ignored_witness :
  targetLines legacy_table 0 = 0 /\
  generateData accepting Stub.randomness Stub.schema 1 legacy_table (Stub.start 0)
  = (Ok (Reached, 0), counted legacy_table (Resolved 0) 0 (Stub.start 0)).
Proof.
  destruct (lines_alone_is_ignored accepting Stub.randomness Stub.schema 1%nat
              legacy_table (Stub.start 0) eq_refl eq_refl) as [Htarget Hgen].
  split; [apply Htarget |].
  apply Hgen; [lia | reflexivity].
Defined.

Definition name_column : Column := {|
  col_name := "name"; generator := g_varchar; options := Stub.plain;
  foreignKey := None; values := None
|}.

Lemma xs_length n : String.length (Stub.xs n) = n.
Proof.
  induction n as [| n IH]; [reflexivity |].
  change (Datatypes.S (String.length (Stub.xs n)) = Datatypes.S n).
  by f_equal.
Defined.

Lemma stub_randomizer_contract : randomizer_contract Stub.randomness.
Proof.
  split.
  - intros lo hi r Hle. exists lo. simpl. split; [reflexivity | lia].
  - intros n r Hn.
    change (Z.of_nat (String.length (Stub.xs (Z.to_nat n))) = n).
    rewrite xs_length. lia.
Defined.

Lemma string_column_synthesis_witness :
  generateColumn Stub.randomness Stub.schema O ∅ token_column ∅ (Stub.start 0)
  = (Ok {["token" := VStr Stub.a_uuid]}, World 0 1%nat []) /\
  exists s rng2,
    generateColumn Stub.randomness Stub.schema O ∅ name_column ∅ (Stub.start 0)
    = nullify Stub.randomness name_column (<["name" := VStr s]> ∅)
        (World 0 rng2 []) /\
    0 <= Z.of_nat (String.length s) <= 10.
Proof.
  split.
  - destruct (string_column_synthesis (S := Z) Stub.randomness Stub.schema O ∅
                token_column ∅ (Stub.start 0) I) as [Heq _].
    + by repeat split.
    + rewrite Heq. vm_compute. reflexivity.
  - destruct (string_column_synthesis (S := Z) Stub.randomness Stub.schema O ∅
                name_column ∅ (Stub.start 0) I) as [_ Hlen].
    + by repeat split.
    + apply (Hlen eq_refl stub_randomizer_contract 0 10); [reflexivity .. | lia].
Defined.

(** The batch of three [orders] whose unique pool has a single value. *)
Definition short_pool : gmap string (list value) :=
  {["user_id_users_id" := [VInt 7]]}.



(** * Further properties of the generator *)

(** ** The target *)

(** X1.  The tests [if (table.addLines)] and [if (table.maxLines)] take a
    field that is [0] for a field that is not set: the target of
    [generateData] is the target computed from the fields that are set and
    not zero, and [0] when no such field is left. *)
Theorem target_ignores_zero_fields (table : Table) (currentNbRows : Z) :
  targetLines table currentNbRows
  = default 0 (spec_target (without_zero_lines table) currentNbRows).
Proof.
  unfold targetLines, spec_target, without_zero_lines, truthy. simpl.
  destruct (addLines table) as [[| a | a] |], (maxLines table) as [[| m | m] |];
    reflexivity.
Qed.

(** ** How the loop is left *)

(** The loop is left by its condition only at or above the target. *)
Lemma batches_reached_exit {S R} (dbConnector : DatabaseConnector S)
    (Randomizer : Randomness R) schema fuel table target fks cur
    (w : world S R) final w' :
  batches dbConnector Randomizer schema fuel table target fks cur w
    = (Ok (Reached, final), w') ->
  target <= final.
Proof.
  revert fks cur w. induction fuel as [| fuel IH]; intros fks cur w.
  - simpl. destruct (Z.ltb_spec cur target); [done |]. intros [= <- _]. lia.
  - destruct (Z.lt_ge_cases cur target) as [Hlt | Hge].
    2: { rewrite batches_reached by done. intros [= <- _]. lia. }
    rewrite batches_unfold by done.
    destruct (batch dbConnector Randomizer schema table target fks cur w)
      as [[[cur' fks' | e cur'] | msg |] w1] eqn:E; try done.
    + apply IH.
    + apply batch_outcome_of in E. inversion E; subst; done.
Qed.

Lemma generateData_reached {S R} (dbConnector : DatabaseConnector S)
    (Randomizer : Randomness R) (schema : Schema) fuel (table : Table)
    (w : world S R) n s' final w' :
  insert_bounded dbConnector ->
  countLines dbConnector table (db w) = (Resolved n, s') ->
  generateData dbConnector Randomizer schema fuel table w
    = (Ok (Reached, final), w') ->
  final = Z.max n (targetLines table n).
Proof.
  intros Hins Hc. rewrite generateData_eq, Hc. intros Hb.
  pose proof (batches_reached_exit _ _ _ _ _ _ _ _ _ _ _ Hb) as Hge.
  destruct (batches_bound _ _ _ _ _ _ _ _ _ _ _ _ Hins Hb) as [Hmax Hle].
  destruct (Z.lt_ge_cases n (targetLines table n)) as [Hlt | Hfull].
  - assert (final <= targetLines table n) by (apply Hle; lia). lia.
  - rewrite batches_reached in Hb by done. injection Hb as <- _. lia.
Qed.

(** X2.  When [insert] reports at most the number of rows it was given and
    [generateData] leaves its loop by the loop condition (no stall, no
    foreign key without values), the row count it ends with is exactly the
    larger of the row count [countLines] reported and the target. *)
Theorem reached_means_exact {S R} (dbConnector : DatabaseConnector S)
    (Randomizer : Randomness R) (schema : Schema) fuel (table : Table)
    (w : world S R) n s' final w' :
  insert_bounded dbConnector ->
  countLines dbConnector table (db w) = (Resolved n, s') ->
  generateData dbConnector Randomizer schema fuel table w
    = (Ok (Reached, final), w') ->
  final = Z.max n (targetLines table n).
Proof. apply generateData_reached. Qed.

(** [insert] reports every row it was given as inserted, as the test
    connector of the repository does. *)
Definition insert_all {S} (dbConnector : DatabaseConnector S) : Prop :=
  forall tableName rows s,
    (insert dbConnector tableName rows s).1 = Resolved (Z.of_nat (length rows)).

(** X3.  With a connector whose [insert] reports every row as inserted, no
    turn of the loop stalls: when [generateData] returns, it has reached
    exactly the larger of the initial row count and the target, or it was
    stopped by a foreign-key fetch. *)
Theorem inserting_all_never_stalls {S R} (dbConnector : DatabaseConnector S)
    (Randomizer : Randomness R) (schema : Schema) fuel (table : Table)
    (w : world S R) n s' e final w' :
  insert_all dbConnector ->
  countLines dbConnector table (db w) = (Resolved n, s') ->
  generateData dbConnector Randomizer schema fuel table w
    = (Ok (e, final), w') ->
  (e = Reached /\ final = Z.max n (targetLines table n)) \/
  (exists msg, e = Starved msg /\ n <= final <= Z.max n (targetLines table n)).
Proof.
  intros Hall Hc Hg.
  assert (Hins : insert_bounded dbConnector).
  { intros tableName rows s k s0 Hi. specialize (Hall tableName rows s).
    rewrite Hi in Hall. simpl in Hall. injection Hall as ->. lia. }
  assert (Hloop : forall fuel0 fks cur (w0 : world S R) e0 final0 w0',
            batches dbConnector Randomizer schema fuel0 table
              (targetLines table n) fks cur w0 = (Ok (e0, final0), w0') ->
            e0 <> Stalled /\ cur <= final0).
  { induction fuel0 as [| fuel0 IH]; intros fks cur w0 e0 final0 w0'.
    - simpl. destruct (Z.ltb_spec cur (targetLines table n)); [done |].
      intros [= <- <- _]. split; [done | lia].
    - destruct (Z.lt_ge_cases cur (targetLines table n)) as [Hlt | Hge].
      2: { rewrite batches_reached by done. intros [= <- <- _].
           split; [done | lia]. }
      rewrite batches_unfold by done.
      destruct (batch dbConnector Randomizer schema table (targetLines table n)
                  fks cur w0) as [r w1] eqn:E.
      apply batch_outcome_of in E.
      destruct E as
        [ msg w1 fetches _ _ _ _
        | fks' w1 fetches msg w2 _ _ _
        | fks' w1 fetches rows w2 msg s0 _ _ _
        | fks' w1 fetches rows w2 s0 _ (_ & _ & _ & Hlen) Hi
        | fks' w1 fetches rows w2 k s0 _ (_ & _ & _ & Hlen) Hi _ ];
        try done.
      + intros [= <- <- _]. split; [done | lia].
      + exfalso. specialize (Hall (name table) rows (db w2)).
        rewrite Hi in Hall. simpl in Hall. injection Hall as Hall.
        unfold runRows_at in Hlen. lia.
      + intros Hrest. apply IH in Hrest as [Hne Hle]. split; [done |].
        specialize (Hall (name table) rows (db w2)).
        rewrite Hi in Hall. simpl in Hall. injection Hall as ->. lia. }
  destruct e as [| msg |].
  - left. split; [done |]. by eapply generateData_reached.
  - right. exists msg. split; [done |].
    rewrite generateData_eq, Hc in Hg.
    destruct (Hloop _ _ _ _ _ _ _ Hg) as [_ Hle].
    destruct (batches_bound _ _ _ _ _ _ _ _ _ _ _ _ Hins Hg) as [Hmax _]. lia.
  - rewrite generateData_eq, Hc in Hg.
    by destruct (Hloop _ _ _ _ _ _ _ Hg) as [Hne _].
Qed.

(** X4.  The row counter follows what [insert] reports, whatever it is: a
    turn whose [insert] resolves with [0] is the stall that leaves the loop
    with the count unchanged, and a turn whose [insert] resolves with any
    other count [k], negative or larger than the batch, goes on with
    [currentNbRows + k]. *)
Theorem row_counter_follows_insert {S R} (dbConnector : DatabaseConnector S)
    (Randomizer : Randomness R) (schema : Schema) (table : Table) target fks
    cur (w : world S R) evs tableName rows k :
  trace (batch dbConnector Randomizer schema table target fks cur w).2
    = trace w ++ evs ->
  Insert tableName rows (Resolved k) ∈ evs ->
  (k = 0 /\
   (batch dbConnector Randomizer schema table target fks cur w).1
   = Ok (Break Stalled cur)) \/
  (k <> 0 /\
   exists fks',
     (batch dbConnector Randomizer schema table target fks cur w).1
     = Ok (Continue (cur + k) fks')).
Proof.
  destruct (batch dbConnector Randomizer schema table target fks cur w)
    as [r w'] eqn:E.
  apply batch_outcome_of in E. simpl.
  assert (Hnot : forall fetches, Forall is_fetch fetches ->
                   Insert tableName rows (Resolved k) ∉ fetches).
  { intros fetches Hf Hin. rewrite Forall_forall in Hf. by apply Hf in Hin. }
  destruct E as
    [ msg w1 fetches _ Ht Hf _
    | fks' w1 fetches msg w2 (_ & Ht & Hf & _) _ Ht2
    | fks' w1 fetches rows' w2 msg s' (_ & Ht & Hf & _) (_ & Ht2 & _) _
    | fks' w1 fetches rows' w2 s' (_ & Ht & Hf & _) (_ & Ht2 & _) _
    | fks' w1 fetches rows' w2 k' s' (_ & Ht & Hf & _) (_ & Ht2 & _) _ Hk ];
    simpl; rewrite ?Ht2, Ht, <- ?app_assoc; intros <-%app_inv_head;
    rewrite ?elem_of_app, ?elem_of_cons, ?elem_of_nil;
    intros Hin; specialize (Hnot fetches Hf).
  - by destruct Hin as [? | [? | []]].
  - done.
  - by destruct Hin as [? | [? | []]].
  - destruct Hin as [? | [[= _ _ <-] | [? | []]]]; try done. by left.
  - destruct Hin as [? | [[= _ _ <-] | [? | []]]]; try done. right. eauto.
Qed.

(** ** The foreign-key fetches of a batch *)

(** The foreign-key columns in column order, each with its reference. *)
Definition fk_columns (cols : list Column) : list (Column * ForeignKey) :=
  omap (fun column => pair column <$> foreignKey column) cols.

(** The call that [getForeignKeyValues] makes for a foreign-key column, with
    its answer. *)
Definition fetch_of (table : Table) (runRows : Z) (x : Column * ForeignKey)
    (answer : reply (list value)) : event :=
  GetValuesForForeignKeys (name table) (col_name x.1) (fk_table x.2)
    (fk_column x.2) runRows (Options.unique (options x.1)) (fk_where x.2)
    answer.

(** [tableForeignKeyValues[key] = values]. *)
Definition store_pool (m : gmap string (list value))
    (x : Column * ForeignKey * list value) : gmap string (list value) :=
  <[fk_key x.1.1 x.1.2 := x.2]> m.

Section Fetches.
Context {S R : Type}.
Variable dbConnector : DatabaseConnector S.
Implicit Types w : world S R.

Lemma getForeignKeyValues_from_ok table cols fks0 runRows w fks w1 evs :
  getForeignKeyValues_from dbConnector table cols fks0 runRows w = (Ok fks, w1) ->
  trace w1 = trace w ++ evs ->
  exists pools,
    length pools = length (fk_columns cols) /\
    evs = zip_with (fun x pool => fetch_of table runRows x (Resolved pool))
            (fk_columns cols) pools /\
    fks = foldl store_pool fks0 (zip (fk_columns cols) pools) /\
    Forall2 (fun x pool =>
               Options.nullable (options x.1) = false -> pool <> [])
      (fk_columns cols) pools.
Proof.
  revert fks0 w evs. induction cols as [| column rest IH]; intros fks0 w evs.
  - simpl. intros [= <- <-]. rewrite <- (app_nil_r (trace w)) at 1.
    intros <-%app_inv_head. by exists [].
  - simpl. unfold fk_columns. simpl.
    destruct (foreignKey column) as [fk |] eqn:Hfk; simpl; [| apply IH].
    unfold bind, await.
    destruct (getValuesForForeignKeys _ _ _ _ _ _ _ _ _)
      as [[vs | msg] s'] eqn:Ef; simpl; [| done].
    destruct (_ && _) eqn:Hstarved; [done |].
    intros Hrest.
    match type of Hrest with
    | getForeignKeyValues_from _ _ _ ?f _ ?w0 = _ =>
        destruct (emits_getForeignKeyValues_from dbConnector table rest f
                    runRows w0) as (evs' & Ht' & _)
    end.
    rewrite Hrest in Ht'. simpl in Ht'.
    intros Ht. rewrite Ht', <- app_assoc in Ht. apply app_inv_head in Ht as <-.
    destruct (IH _ _ evs' Hrest Ht') as (pools & Hlen & -> & -> & Hne).
    exists (vs :: pools). simpl. repeat split; try done.
    + by rewrite Hlen.
    + constructor; [| exact Hne]. simpl. intros Hnull ->.
      by rewrite Hnull in Hstarved.
Qed.

Lemma getForeignKeyValues_from_throw table cols fks0 runRows w msg w1 evs :
  getForeignKeyValues_from dbConnector table cols fks0 runRows w
    = (Throw msg, w1) ->
  trace w1 = trace w ++ evs ->
  exists evs0 column fk,
    column ∈ cols /\ foreignKey column = Some fk /\ Forall is_fetch evs0 /\
    (evs = evs0 ++ [fetch_of table runRows (column, fk) (Rejected msg)] \/
     (evs = evs0 ++ [fetch_of table runRows (column, fk) (Resolved [])] /\
      Options.nullable (options column) = false /\
      msg = starvation_message fk)).
Proof.
  revert fks0 w evs. induction cols as [| column rest IH]; intros fks0 w evs.
  - done.
  - simpl. destruct (foreignKey column) as [fk |] eqn:Hfk.
    + unfold bind, await.
      destruct (getValuesForForeignKeys _ _ _ _ _ _ _ _ _)
        as [[vs | msg'] s'] eqn:Ef; simpl.
      * destruct (_ && _) eqn:Hstarved.
        -- intros [= <- <-]. simpl. intros <-%app_inv_head.
           apply andb_true_iff in Hstarved as [Hlen Hnull].
           apply Nat.eqb_eq in Hlen. destruct vs; [| done].
           apply negb_true_iff in Hnull.
           exists [], column, fk. repeat split; try done.
           ++ apply list_elem_of_here.
           ++ by right.
        -- intros Hrest.
           match type of Hrest with
           | getForeignKeyValues_from _ _ _ ?f _ ?w0 = _ =>
               destruct (emits_getForeignKeyValues_from dbConnector table rest
                           f runRows w0) as (evs' & Ht' & _)
           end.
           rewrite Hrest in Ht'. simpl in Ht'.
           intros Ht. rewrite Ht', <- app_assoc in Ht.
           apply app_inv_head in Ht as <-.
           destruct (IH _ _ evs' Hrest Ht')
             as (evs0 & c & f & Hin & Hf & Hfetch & Hcase).
           exists (fetch_of table runRows (column, fk) (Resolved vs) :: evs0), c, f.
           repeat split; try done.
           ++ by apply list_elem_of_further.
           ++ by constructor.
           ++ destruct Hcase as [-> | (-> & ? & ?)]; [by left | by right].
      * intros [= <- <-]. simpl. intros <-%app_inv_head.
        exists [], column, fk. repeat split; try done.
        -- apply list_elem_of_here.
        -- by left.
    + intros Hrest Ht.
      destruct (IH _ _ evs Hrest Ht) as (evs0 & c & f & Hin & Hf & Hfetch & Hrem).
      exists evs0, c, f. repeat split; try done. by apply list_elem_of_further.
Qed.

End Fetches.

(** X5.  When the foreign keys of a batch are resolved, the connector was
    asked once for every foreign-key column, in column order, each time for
    [runRows] values with the [unique] flag of the column and the [where] of
    its reference; the pools are stored under the keys of the columns in
    that order; and the pool of a column that is not nullable is not
    empty. *)
Theorem fetches_of_a_batch {S R} (dbConnector : DatabaseConnector S)
    (table : Table) fks0 runRows (w : world S R) fks w1 evs :
  getForeignKeyValues dbConnector table fks0 runRows w = (Ok fks, w1) ->
  trace w1 = trace w ++ evs ->
  exists pools,
    length pools = length (fk_columns (columns table)) /\
    evs = zip_with (fun x pool => fetch_of table runRows x (Resolved pool))
            (fk_columns (columns table)) pools /\
    fks = foldl store_pool fks0 (zip (fk_columns (columns table)) pools) /\
    Forall2 (fun x pool =>
               Options.nullable (options x.1) = false -> pool <> [])
      (fk_columns (columns table)) pools.
Proof. apply getForeignKeyValues_from_ok. Qed.

(** X6.  A turn of the loop that is left for a foreign key has not changed
    the row count, and the warning it logs has one of two causes: the
    connector rejected a fetch, whose error message is the warning, or a
    column that is not nullable received no value.  A nullable column never
    stops the loop for want of values. *)
Theorem starved_means {S R} (dbConnector : DatabaseConnector S)
    (Randomizer : Randomness R) (schema : Schema) (table : Table) target fks
    cur (w : world S R) msg cur' w' evs :
  batch dbConnector Randomizer schema table target fks cur w
    = (Ok (Break (Starved msg) cur'), w') ->
  trace w' = trace w ++ evs ->
  cur' = cur /\
  exists evs0 column fk,
    column ∈ columns table /\ foreignKey column = Some fk /\
    Forall is_fetch evs0 /\
    (evs = evs0 ++ [fetch_of table (runRows_at target cur) (column, fk)
                      (Rejected msg); ConsoleWarn msg] \/
     (evs = evs0 ++ [fetch_of table (runRows_at target cur) (column, fk)
                       (Resolved []); ConsoleWarn msg] /\
      Options.nullable (options column) = false /\
      msg = starvation_message fk)).
Proof.
  intros E Ht. apply batch_outcome_of in E.
  remember (Ok (Break (Starved msg) cur')) as r eqn:Hr.
  destruct E as [msg0 w1 fetches Hthrow Ht1 _ _ | | | |]; try done.
  injection Hr as Hm Hc. subst msg0 cur'.
  split; [done |]. simpl in Ht.
  destruct (getForeignKeyValues_from_throw dbConnector table (columns table) fks
              (runRows_at target cur) w msg w1 fetches Hthrow Ht1)
    as (evs0 & column & fk & Hin & Hfk & Hf & Hcase).
  rewrite Ht1, <- app_assoc in Ht. apply app_inv_head in Ht as <-.
  exists evs0, column, fk. repeat split; try done.
  destruct Hcase as [-> | (-> & Hnull & ->)]; rewrite <- app_assoc.
  - by left.
  - by right.
Qed.

(** ** Errors of the connector *)

Section Errors.
Context {S R : Type}.
Variable dbConnector : DatabaseConnector S.
Variable Randomizer : Randomness R.
Variable schema : Schema.
Implicit Types w : world S R.

(** When, after [k] turns, the next turn throws, [generateData] and [fill]
    throw the same error in the same world. *)
Lemma fill_after_throw table reset w w0 n s' k cur fks w1 msg w2 fuel :
  fill_prologue dbConnector table reset w = (Ok tt, w0) ->
  countLines dbConnector table (db w0) = (Resolved n, s') ->
  turns dbConnector Randomizer schema table (targetLines table n) k
    (n, ∅, counted table (Resolved n) s' w0) (cur, fks, w1) ->
  cur < targetLines table n ->
  batch dbConnector Randomizer schema table (targetLines table n) fks cur w1
    = (Throw msg, w2) ->
  (k < fuel)%nat ->
  fill dbConnector Randomizer schema fuel table reset w = (Throw msg, w2).
Proof.
  intros Hp Hc Ht Hlt Hb Hfuel.
  rewrite fill_eq, Hp, generateData_eq, Hc.
  replace fuel with (k + Datatypes.S (fuel - k - 1))%nat by lia.
  rewrite (batches_turns _ _ _ _ _ _ _ _ _ Ht). cbn [fst snd].
  by rewrite batches_unfold, Hb.
Qed.

Lemma batch_rejected_fetch table target fks cur w1 pre column post fk fks1 w2
    msg s2 :
  columns table = pre ++ column :: post ->
  foreignKey column = Some fk ->
  getForeignKeyValues_from dbConnector table pre fks (runRows_at target cur) w1
    = (Ok fks1, w2) ->
  getValuesForForeignKeys dbConnector (name table) (col_name column)
    (fk_table fk) (fk_column fk) (runRows_at target cur)
    (Options.unique (options column)) (fk_where fk) (db w2)
    = (Rejected msg, s2) ->
  batch dbConnector Randomizer schema table target fks cur w1
  = (Ok (Break (Starved msg) cur),
     World s2 (rng w2)
       (trace w2 ++ [fetch_of table (runRows_at target cur) (column, fk)
                       (Rejected msg); ConsoleWarn msg])).
Proof.
  intros Hcols Hfk Hpre Hrej.
  unfold batch. fold (runRows_at target cur).
  unfold bind at 1. unfold try_catch, bind at 1. unfold getForeignKeyValues.
  rewrite Hcols, getForeignKeyValues_from_app, Hpre. simpl.
  rewrite Hfk. unfold bind at 1. unfold await. rewrite Hrej. simpl.
  unfold bind, console, ret. simpl. by rewrite <- app_assoc.
Qed.

End Errors.

(** X7.  A foreign-key fetch that the connector rejects is not an error of
    [fill]: the rejection is caught with the starvation error, its message
    is logged as a warning, the loop is left with the row count it had, and
    [fill] goes on with the [after] statements. *)
Theorem rejected_fetch_is_swallowed {S R} (dbConnector : DatabaseConnector S)
    (Randomizer : Randomness R) (schema : Schema) (table : Table) reset
    (w w0 : world S R) n s' k cur fks w1 pre column post fk fks1 w2 msg s2
    fuel :
  fill_prologue dbConnector table reset w = (Ok tt, w0) ->
  countLines dbConnector table (db w0) = (Resolved n, s') ->
  turns dbConnector Randomizer schema table (targetLines table n) k
    (n, ∅, counted table (Resolved n) s' w0) (cur, fks, w1) ->
  cur < targetLines table n ->
  columns table = pre ++ column :: post ->
  foreignKey column = Some fk ->
  getForeignKeyValues_from dbConnector table pre fks
    (runRows_at (targetLines table n) cur) w1 = (Ok fks1, w2) ->
  getValuesForForeignKeys dbConnector (name table) (col_name column)
    (fk_table fk) (fk_column fk) (runRows_at (targetLines table n) cur)
    (Options.unique (options column)) (fk_where fk) (db w2)
    = (Rejected msg, s2) ->
  (k < fuel)%nat ->
  fill dbConnector Randomizer schema fuel table reset w
  = fill_epilogue dbConnector table (Starved msg, cur)
      (World s2 (rng w2)
         (trace w2 ++
            [fetch_of table (runRows_at (targetLines table n) cur) (column, fk)
               (Rejected msg); ConsoleWarn msg])).
Proof.
  intros Hp Hc Ht Hlt Hcols Hfk Hpre Hrej Hfuel.
  eapply fill_after_break; eauto.
  by eapply batch_rejected_fetch.
Qed.

Definition not_query (e : event) : Prop := ~ is_query e.

(** X8.  An error in the synthesis of a row, and a rejection of [insert],
    are errors of [fill]: when a turn of the loop throws, [fill] throws the
    same message and ends in the world of the throw, without executing an
    [after] statement.  The events of that turn are its fetches alone when
    the synthesis threw, and its fetches and the rejected [insert] when the
    connector did. *)
Theorem loop_errors_propagate {S R} (dbConnector : DatabaseConnector S)
    (Randomizer : Randomness R) (schema : Schema) (table : Table) reset
    (w w0 : world S R) n s' k cur fks w1 msg w2 fuel :
  fill_prologue dbConnector table reset w = (Ok tt, w0) ->
  countLines dbConnector table (db w0) = (Resolved n, s') ->
  turns dbConnector Randomizer schema table (targetLines table n) k
    (n, ∅, counted table (Resolved n) s' w0) (cur, fks, w1) ->
  cur < targetLines table n ->
  batch dbConnector Randomizer schema table (targetLines table n) fks cur w1
    = (Throw msg, w2) ->
  (k < fuel)%nat ->
  fill dbConnector Randomizer schema fuel table reset w = (Throw msg, w2) /\
  exists fetches,
    Forall is_fetch fetches /\
    (trace w2 = trace w1 ++ fetches \/
     exists rows,
       trace w2 = trace w1 ++ fetches ++
                    [Insert (name table) rows (Rejected msg)]).
Proof.
  intros Hp Hc Ht Hlt Hb Hfuel.
  split; [by eapply fill_after_throw |].
  apply batch_outcome_of in Hb. remember (Throw msg) as r eqn:Hr.
  destruct Hb as
    [ msg0 w1' fetches _ _ _ _
    | fks' w1' fetches msg0 w2 (_ & Ht1 & Hf & _) _ Ht2
    | fks' w1' fetches rows w2 msg0 s2 (_ & Ht1 & Hf & _) (_ & Ht2 & _) _
    | fks' w1' fetches rows w2 s2 _ _ _
    | fks' w1' fetches rows w2 k0 s2 _ _ _ _ ]; try done;
    injection Hr as ->; exists fetches; (split; [done |]).
  - left. by rewrite Ht2, Ht1.
  - right. exists rows. simpl. by rewrite Ht2, Ht1, <- app_assoc.
Qed.

(** ** The calls of [fill], in order *)

Definition is_empty (e : event) : Prop :=
  match e with EmptyTable _ _ => True | _ => False end.

Definition is_query_or_log (e : event) : Prop :=
  match e with ExecuteRawQuery _ _ | ConsoleLog _ => True | _ => False end.


Section Order.
Context {S R : Type}.
Variable dbConnector : DatabaseConnector S.
Variable Randomizer : Randomness R.
Variable schema : Schema.
Implicit Types w : world S R.

Lemma emits_fill_prologue_false table :
  emits (R := R) is_query_or_log (fill_prologue dbConnector table false).
Proof.
  unfold fill_prologue.
  assert (emits (S := S) (R := R) is_query_or_log (before dbConnector table)).
  { eapply emits_weaken; [| apply emits_before]. by intros []. }
  frames. by apply emits_console.
Qed.

Lemma emits_query_epilogue table x :
  emits (R := R) is_query (fill_epilogue dbConnector table x).
Proof. unfold fill_epilogue. pose proof (emits_after dbConnector table (R := R)).
  frames. Qed.

(** [fill] with [reset] is [emptyTable], then [fill] without. *)
Lemma fill_reset_eq fuel table w :
  fill dbConnector Randomizer schema fuel table true w =
  match emptyTable dbConnector table (db w) with
  | (Resolved _, s') =>
      fill dbConnector Randomizer schema fuel table false
        (World s' (rng w)
           (trace w ++ [ConsoleLog ("empty:  " +:+ name table);
                        EmptyTable (name table) (Resolved tt)]))
  | (Rejected msg, s') =>
      (Throw msg,
       World s' (rng w)
         (trace w ++ [ConsoleLog ("empty:  " +:+ name table);
                      EmptyTable (name table) (Rejected msg)]))
  end.
Proof.
  unfold fill, empty. unfold bind at 1 2. unfold console at 1. unfold await.
  simpl. destruct (emptyTable dbConnector table (db w)) as [[[] | msg] s'];
    simpl; [| by rewrite <- app_assoc].
  unfold bind at 4. unfold ret at 3. by rewrite <- app_assoc.
Qed.

(** The events of [fill] without reset: the log line and the [before]
    statements; then, when these went through, the one call of
    [countLines] and the events of the loop; then the [after] statements. *)
Lemma fill_false_shape fuel table w evs :
  trace (fill dbConnector Randomizer schema fuel table false w).2
    = trace w ++ evs ->
  exists pre mid post,
    evs = pre ++ mid ++ post /\
    Forall is_query_or_log pre /\ Forall is_query post /\
    (mid = [] /\ post = [] \/
     exists a loop,
       mid = CountLines (name table) a :: loop /\ Forall is_batch loop /\
       forall msg, a = Rejected msg ->
         loop = [] /\ post = [] /\
         (fill dbConnector Randomizer schema fuel table false w).1 = Throw msg).
Proof.
  rewrite fill_eq.
  destruct (emits_fill_prologue_false table w) as (pre & Ht0 & H0).
  destruct (fill_prologue dbConnector table false w) as [[[] | msg |] w0];
    simpl in Ht0 |- *.
  2, 3: rewrite Ht0; intros <-%app_inv_head; exists pre, [], [];
        (split; [by rewrite !app_nil_r | split; [done | split; [done |]]]);
        by left.
  rewrite generateData_eq.
  destruct (countLines dbConnector table (db w0)) as [[n | msg] s'].
  2: { simpl. rewrite Ht0, <- app_assoc. intros <-%app_inv_head.
       exists pre, [CountLines (name table) (Rejected msg)], [].
       split; [by rewrite !app_nil_r | split; [done | split; [done |]]].
       right. exists (Rejected msg), [].
       split; [done | split; [done |]]. by intros ? [= ->]. }
  assert (Hb : emits (S := S) (R := R) is_batch
                 (batches dbConnector Randomizer schema fuel table
                    (targetLines table n) ∅ n)).
  { apply emits_batches. intros. apply emits_batch. }
  destruct (Hb (counted table (Resolved n) s' w0)) as (loop & Ht1 & H1).
  destruct (batches _ _ _ _ _ _ _ _ _) as [[x | msg |] w4]; simpl in Ht1 |- *.
  - destruct (emits_query_epilogue table x w4) as (post & Ht2 & H2).
    rewrite Ht2, Ht1, Ht0, <- !app_assoc. intros <-%app_inv_head.
    exists pre, (CountLines (name table) (Resolved n) :: loop), post.
    split; [done | split; [done | split; [done |]]].
    right. exists (Resolved n), loop. by split; [| split].
  - rewrite Ht1, Ht0, <- !app_assoc. intros <-%app_inv_head.
    exists pre, (CountLines (name table) (Resolved n) :: loop), [].
    split; [by rewrite !app_nil_r | split; [done | split; [done |]]].
    right. exists (Resolved n), loop. by split; [| split].
  - rewrite Ht1, Ht0, <- !app_assoc. intros <-%app_inv_head.
    exists pre, (CountLines (name table) (Resolved n) :: loop), [].
    split; [by rewrite !app_nil_r | split; [done | split; [done |]]].
    right. exists (Resolved n), loop. by split; [| split].
Qed.





End Order.


(** X10.  Without [reset], [fill] never calls [emptyTable].  With [reset],
    it logs and calls [emptyTable] first, once; when [emptyTable] is
    rejected, [fill] throws its error and makes no further call; when it is
    answered, the run goes on as [fill] without reset does from the database
    that [emptyTable] has left, with the same random state, and gives that
    result. *)
Theorem reset_empties_first {S R} (dbConnector : DatabaseConnector S)
    (Randomizer : Randomness R) (schema : Schema) fuel (table : Table)
    (w : world S R) :
  (forall evs,
     trace (fill dbConnector Randomizer schema fuel table false w).2
       = trace w ++ evs ->
     Forall (fun e => ~ is_empty e) evs) /\
  (forall evs,
     trace (fill dbConnector Randomizer schema fuel table true w).2
       = trace w ++ evs ->
     exists a rest,
       evs = ConsoleLog ("empty:  " +:+ name table)
               :: EmptyTable (name table) a :: rest /\
       Forall (fun e => ~ is_empty e) rest /\
       (emptyTable dbConnector table (db w)).1 = a /\
       forall msg, a = Rejected msg ->
         rest = [] /\
         (fill dbConnector Randomizer schema fuel table true w).1 = Throw msg) /\
  fill dbConnector Randomizer schema fuel table true w =
  match emptyTable dbConnector table (db w) with
  | (Resolved _, s') =>
      fill dbConnector Randomizer schema fuel table false
        (World s' (rng w)
           (trace w ++ [ConsoleLog ("empty:  " +:+ name table);
                        EmptyTable (name table) (Resolved tt)]))
  | (Rejected msg, s') =>
      (Throw msg,
       World s' (rng w)
         (trace w ++ [ConsoleLog ("empty:  " +:+ name table);
                      EmptyTable (name table) (Rejected msg)]))
  end.
Proof.
  assert (Hfalse : forall (w0 : world S R) evs,
            trace (fill dbConnector Randomizer schema fuel table false w0).2
              = trace w0 ++ evs ->
            Forall (fun e => ~ is_empty e) evs).
  { intros w0 evs Ht.
    destruct (fill_false_shape dbConnector Randomizer schema fuel table w0 evs Ht)
      as (pre & mid & post & -> & Hpre & Hpost & Hmid).
    repeat apply Forall_app_2.
    - eapply Forall_impl; [exact Hpre | intros e; destruct e; simpl; tauto].
    - destruct Hmid as [[-> _] | (a & loop & -> & Hloop & _)]; [done |].
      constructor; [simpl; tauto |].
      eapply Forall_impl; [exact Hloop | intros e; destruct e; simpl; tauto].
    - eapply Forall_impl; [exact Hpost | intros e; destruct e; simpl; tauto]. }
  split; [apply Hfalse | split; [| apply fill_reset_eq]].
  intros evs. rewrite fill_reset_eq.
  destruct (emptyTable dbConnector table (db w)) as [[[] | msg] s'].
  - match goal with
    | |- trace (fill _ _ _ _ _ _ ?w0).2 = _ -> _ =>
        destruct (emits_fill dbConnector Randomizer schema (fun _ => True) fuel
                    table false (fun _ _ => I) (fun _ => I)
                    (fun target fks cur _ =>
                       emits_weaken _ _ _ (fun _ _ => I)
                         (emits_batch dbConnector Randomizer schema table
                            target fks cur)) w0) as (rest & Ht & _);
        pose proof (Hfalse w0 rest Ht) as Hrest
    end.
    rewrite Ht. simpl. rewrite <- app_assoc. intros <-%app_inv_head.
    exists (Resolved tt), rest.
    split; [done | split; [done | split; [done |]]]. by intros ? [=].
  - simpl. intros <-%app_inv_head.
    exists (Rejected msg), [].
    split; [done | split; [done | split; [done |]]]. by intros ? [= ->].
Qed.


(** ** What a row holds *)

(** The rows handed to [insert] satisfy [P]. *)
Definition inserts (P : list row -> Prop) (e : event) : Prop :=
  match e with
  | Insert _ rows _ => P rows
  | _ => True
  end.

(** No row has an entry under [key] unless [key] is the name of a column
    that is not auto-increment. *)
Definition only_generated_columns (table : Table) (rows : list row) : Prop :=
  forall r key,
    r ∈ rows ->
    (forall column, column ∈ columns table -> col_name column = key ->
                    Options.autoIncrement (options column) = true) ->
    r !! key = None.

Section Rows.
Context {S R : Type}.
Variable dbConnector : DatabaseConnector S.
Variable Randomizer : Randomness R.
Variable schema : Schema.
Implicit Types w : world S R.

Lemma generateColumn_autoIncrement i fks column r w :
  Options.autoIncrement (options column) = true ->
  generateColumn Randomizer schema i fks column r w = (Ok r, w).
Proof. intros H. unfold generateColumn. by rewrite H. Qed.

Lemma generateRow_untouched i fks cols r w r' w' key :
  generateRow Randomizer schema i fks cols r w = (Ok r', w') ->
  (forall column, column ∈ cols -> col_name column = key ->
                  Options.autoIncrement (options column) = true) ->
  r' !! key = r !! key.
Proof.
  revert r w. induction cols as [| column rest IH]; intros r w; simpl.
  - by intros [= <- _].
  - unfold bind.
    destruct (generateColumn _ _ _ _ _ _ w) as [[r1 | msg |] w1] eqn:E;
      [| done ..].
    intros Hrest Hauto.
    rewrite (IH _ _ Hrest)
      by (intros c Hin; apply Hauto; by apply list_elem_of_further).
    destruct (decide (col_name column = key)) as [Heq | Hne].
    + rewrite generateColumn_autoIncrement in E
        by (apply Hauto; [apply list_elem_of_here | done]).
      by injection E as <- _.
    + by eapply writes_only_generateColumn.
Qed.

Lemma generateRows_only_generated table fks n i0 w rows w' :
  generateRows Randomizer schema table fks n i0 w = (Ok rows, w') ->
  only_generated_columns table rows.
Proof.
  intros Hrows r key Hin Hauto.
  apply list_elem_of_lookup in Hin as [j Hj].
  destruct (generateRows_lookup Randomizer schema table fks n i0 w rows w' j r
              Hrows Hj) as (wa & wb & Hrow).
  by rewrite (generateRow_untouched _ _ _ _ _ _ _ _ Hrow Hauto).
Qed.

Lemma emits_batch_only_generated table target fks cur :
  emits (inserts (only_generated_columns table))
    (batch dbConnector Randomizer schema table target fks cur).
Proof.
  eapply emits_intro; [apply emits_batch |].
  intros w evs.
  destruct (batch dbConnector Randomizer schema table target fks cur w)
    as [r w'] eqn:E.
  apply batch_outcome_of in E. simpl.
  assert (Hfetch : forall fetches, Forall is_fetch fetches ->
            Forall (inserts (only_generated_columns table)) fetches).
  { intros fetches Hf. eapply Forall_impl; [exact Hf | by intros []]. }
  destruct E as
    [ msg w1 fetches _ Ht Hf _
    | fks' w1 fetches msg w2 (_ & Ht & Hf & _) _ Ht2
    | fks' w1 fetches rows w2 msg s' (_ & Ht & Hf & _) (Hg & Ht2 & _) _
    | fks' w1 fetches rows w2 s' (_ & Ht & Hf & _) (Hg & Ht2 & _) _
    | fks' w1 fetches rows w2 k s' (_ & Ht & Hf & _) (Hg & Ht2 & _) _ _ ];
    simpl; rewrite ?Ht2, Ht, <- ?app_assoc;
    intros <-%app_inv_head;
    repeat first [ apply Forall_app_2 | apply Forall_cons_2 | apply Forall_nil_2 ];
    simpl; auto; by eapply generateRows_only_generated.
Qed.

End Rows.

(** X12.  No row that [fill] hands to [insert] has an entry for an
    auto-increment column, even one with a foreign key or with [values], and
    no row has an entry under a key that is not the name of a column of the
    table: every key of a row is the name of a column that is not
    auto-increment. *)
Theorem rows_hold_only_generated_columns {S R}
    (dbConnector : DatabaseConnector S) (Randomizer : Randomness R)
    (schema : Schema) fuel (table : Table) reset (w : world S R) evs :
  trace (fill dbConnector Randomizer schema fuel table reset w).2
    = trace w ++ evs ->
  Forall (inserts (only_generated_columns table)) evs.
Proof.
  apply emits_elim. apply emits_fill.
  - by intros [].
  - done.
  - intros. apply emits_batch_only_generated.
Qed.

(** ** The values of the generators *)

(** [Math.floor(u * n)] for a draw [u] of [[0, 1)]. *)
Lemma floor_scaled_bounds (u : Q) (n : Z) :
  (0 <= u)%Q -> (u < 1)%Q -> 0 <= n ->
  0 <= Qfloor (u * inject_Z n) /\ (1 <= n -> Qfloor (u * inject_Z n) <= n - 1).
Proof.
  intros H0 H1 Hn.
  assert (Hn' : (0 <= inject_Z n)%Q) by (unfold Qle; simpl; lia).
  split.
  - change 0 with (Qfloor 0). apply Qfloor_resp_le.
    by apply Qmult_le_0_compat.
  - intros Hpos.
    assert (Hlt : (u * inject_Z n < inject_Z n)%Q).
    { rewrite <- (Qmult_1_l (inject_Z n)) at 2.
      apply Qmult_lt_compat_r; [| done].
      unfold Qlt. simpl. lia. }
    assert (Hfl : (inject_Z (Qfloor (u * inject_Z n)) < inject_Z n)%Q).
    { eapply Qle_lt_trans; [apply Qfloor_le | exact Hlt]. }
    change (Qfloor (u * inject_Z n) * 1 < n * 1) in Hfl. lia.
Qed.

Section Values.
Context {S R : Type}.
Variable Randomizer : Randomness R.
Variable schema : Schema.
Implicit Types w : world S R.

Lemma generateColumn_enum i fks column r w :
  by_generator column ->
  generator column = g_enum ->
  generateColumn Randomizer schema i fks column r w =
  (Ok (<[col_name column :=
           if Options.nullable (options column)
           then scaled (Math_random Randomizer (rng w)).1
                  (Z.succ <$> Options.max (options column)) 0
           else scaled (Math_random Randomizer (rng w)).1
                  (Options.max (options column)) 1]> r),
   World (db w) (Math_random Randomizer (rng w)).2 (trace w)).
Proof.
  intros (Hauto & Hvals & Hfk) Htag. unfold generateColumn.
  rewrite Hauto, Hvals, Hfk, Htag. unfold bind, random, ret.
  destruct (Math_random Randomizer (rng w)) as [u r1]. simpl.
  by destruct (Options.nullable (options column)).
Qed.

(** [values[Randomizer.randomInt(0, values.length - 1)]]: [undefined] for an
    empty array; an element of the array when the index is in range. *)
Lemma pick_spec {A} (inj : A -> value) (arr : list A) w :
  exists v w',
    pick (S := S) Randomizer inj arr w = (Ok v, w') /\
    db w' = db w /\ trace w' = trace w /\
    (arr = [] -> v = VUndefined) /\
    (randomizer_contract Randomizer -> arr <> [] ->
     exists a, a ∈ arr /\ v = inj a).
Proof.
  unfold pick, bind, random, ret.
  destruct (randomInt Randomizer (Some 0) (Some (Z.of_nat (length arr) - 1))
              (rng w)) as [i r1] eqn:Ei.
  eexists _, _. split; [reflexivity |]. simpl. repeat split.
  - intros ->. unfold js_index. destruct i as [k |]; [| done].
    by destruct (k <? 0).
  - intros [Hint _] Hne.
    destruct (Hint 0 (Z.of_nat (length arr) - 1) (rng w)) as (n & Hn & Hb).
    { destruct arr; [done | simpl; lia]. }
    rewrite Ei in Hn. simpl in Hn. subst i. unfold js_index.
    destruct (Z.ltb_spec n 0); [lia |].
    destruct (lookup_lt_is_Some_2 arr (Z.to_nat n)) as [a Ha]; [lia |].
    exists a. rewrite Ha. split; [| done]. by eapply list_elem_of_lookup_2.
Qed.

(** The pool of a ratio mapping: every key, as many times as its weight. *)
Definition expanded (weights : list (string * Z)) : list string :=
  flat_map (fun kn => replicate (Z.to_nat kn.2) kn.1) weights.

Definition array_length (n : Z) : Prop := 0 <= n <= 4294967295.

Lemma valuesWithRatio_ok weights acc w :
  Forall (fun kn => array_length kn.2) weights ->
  valuesWithRatio weights acc w = (Ok (acc ++ expanded weights), w).
Proof.
  revert acc. induction weights as [| [key n] rest IH]; intros acc Hall; simpl.
  - by rewrite app_nil_r.
  - apply Forall_cons in Hall as [[Hlo Hhi] Hall]. simpl in *.
    unfold bind, filled_array.
    destruct (Z.ltb_spec n 0); [lia |].
    destruct (Z.ltb_spec 4294967295 n); [lia |]. simpl.
    rewrite IH by done. by rewrite <- app_assoc.
Qed.

Lemma valuesWithRatio_throw weights acc w :
  Exists (fun kn => ~ array_length kn.2) weights ->
  valuesWithRatio weights acc w = (Throw "Invalid array length", w).
Proof.
  revert acc. induction weights as [| [key n] rest IH]; intros acc Hex; simpl.
  - by apply Exists_nil in Hex.
  - unfold bind, filled_array.
    destruct (Z.ltb_spec n 0); [done |].
    destruct (Z.ltb_spec 4294967295 n); [done |]. simpl.
    apply Exists_cons in Hex as [Hbad | Hex]; [| by apply IH].
    exfalso. apply Hbad. simpl. unfold array_length. lia.
Qed.

Lemma expanded_elem key weights :
  key ∈ expanded weights -> exists n, (key, n) ∈ weights /\ 0 < n.
Proof.
  induction weights as [| [k n] rest IH]; simpl.
  - by intros ?%not_elem_of_nil.
  - unfold expanded. simpl. rewrite elem_of_app.
    intros [[-> Hn]%elem_of_replicate | Hin].
    + exists n. split; [apply list_elem_of_here | lia].
    + destruct (IH Hin) as (m & Hm & Hpos). exists m.
      split; [by apply list_elem_of_further | done].
Qed.

End Values.

(** X13.  An [enum] column synthesized from its tag draws [Math.random]
    once and takes no null step.  With a draw in [[0, 1)] and [max = m], a
    nullable column gets an integer from [0] to [m], and a column that is
    not nullable an integer from [1] to [m] (for [m >= 1]). *)
Theorem enum_range {S R} (Randomizer : Randomness R) (schema : Schema) i fks
    (column : Column) (r : row) (w : world S R) m :
  by_generator column ->
  generator column = g_enum ->
  Options.max (options column) = Some m ->
  (0 <= (Math_random Randomizer (rng w)).1)%Q ->
  ((Math_random Randomizer (rng w)).1 < 1)%Q ->
  exists k,
    generateColumn Randomizer schema i fks column r w
    = (Ok (<[col_name column := VInt k]> r),
       World (db w) (Math_random Randomizer (rng w)).2 (trace w)) /\
    (Options.nullable (options column) = true -> 0 <= m -> 0 <= k <= m) /\
    (Options.nullable (options column) = false -> 1 <= m -> 1 <= k <= m).
Proof.
  intros Hgen Htag Hmax H0 H1. rewrite generateColumn_enum by done.
  rewrite Hmax. change (Z.succ <$> Some m) with (Some (Z.succ m)).
  unfold scaled.
  destruct (Options.nullable (options column)); eexists; (split; [reflexivity |]).
  - split; [| done]. intros _ Hm.
    destruct (floor_scaled_bounds _ (Z.succ m) H0 H1) as [Hlo Hhi]; lia.
  - split; [done |]. intros _ Hm.
    destruct (floor_scaled_bounds _ m H0 H1) as [Hlo Hhi]; lia.
Qed.

(** The bounds that the integer tags pass to [randomInt]: those of the
    column, and [0] and [1] for [bool] and [boolean] whatever the column
    says. *)
Definition integer_bounds (column : Column) : option (num * num) :=
  match generator column with
  | g_tinyint | g_smallint | g_mediumint | g_int | g_integer | g_bigint
  | g_year =>
      Some (Options.min (options column), Options.max (options column))
  | g_bool | g_boolean => Some (Some 0, Some 1)
  | _ => None
  end.

(** X14.  With a [Randomizer] that keeps to its description, a column of an
    integer tag gets an integer within its bounds [min] and [max], and a
    [bool] or [boolean] column gets [0] or [1] whatever its bounds are;
    the only other value is the null of a nullable column. *)
Theorem integer_column_range {S R} (Randomizer : Randomness R)
    (schema : Schema) i fks (column : Column) (r : row) (w : world S R)
    lo hi r' w' :
  by_generator column ->
  integer_bounds column = Some (Some lo, Some hi) ->
  lo <= hi ->
  randomizer_contract Randomizer ->
  generateColumn Randomizer schema i fks column r w = (Ok r', w') ->
  (exists n, r' !! col_name column = Some (VInt n) /\ lo <= n <= hi) \/
  (Options.nullable (options column) = true /\
   r' !! col_name column = Some VNull).
Proof.
  intros (Hauto & Hvals & Hfk) Hb Hle [Hint _]. unfold generateColumn.
  rewrite Hauto, Hvals, Hfk. unfold integer_bounds in Hb.
  assert (Hstep : forall rng0,
    (v <- random_integer (S := S) Randomizer (Some lo) (Some hi) ;;
     nullify Randomizer column (<[col_name column := v]> r))%gen
      (World (db w) rng0 (trace w)) = (Ok r', w') ->
    (exists n, r' !! col_name column = Some (VInt n) /\ lo <= n <= hi) \/
    (Options.nullable (options column) = true /\
     r' !! col_name column = Some VNull)).
  { intros rng0. unfold random_integer, bind, random, ret, nullify. simpl.
    destruct (Hint lo hi rng0 Hle) as (n & Hn & Hbound).
    destruct (randomInt Randomizer (Some lo) (Some hi) rng0) as [n' rng1].
    simpl in Hn. subst n'. simpl.
    destruct (Options.nullable (options column)) eqn:Hnull.
    - unfold bind, random, ret. simpl.
      destruct (Math_random Randomizer rng1) as [u rng2].
      destruct (Qle_bool u one_tenth); intros [= <- _].
      + right. by rewrite lookup_insert_eq.
      + left. exists n. by rewrite lookup_insert_eq.
    - intros [= <- _]. left. exists n. by rewrite lookup_insert_eq. }
  destruct w as [s0 rng0 tr0].
  destruct (generator column); try done; injection Hb as Hlo Hhi;
    rewrite ?Hlo, ?Hhi; try subst lo; try subst hi; apply Hstep.
Qed.

(** The bounds that the blob and text tags pass to [randomInt]: [0] and
    [10] for [tinyblob], [0] and [Math.min(schema.maxCharLength, max)] for
    the others. *)
Definition blob_bounds (schema : Schema) (column : Column) : option (num * num) :=
  match generator column with
  | g_tinyblob => Some (Some 0, Some 10)
  | g_text | g_mediumtext | g_longtext | g_blob | g_mediumblob | g_longblob =>
      Some (Some 0, Math_min (maxCharLength schema) (Options.max (options column)))
  | _ => None
  end.

(** X15.  With a [Randomizer] that keeps to its description, a text or blob
    column gets a string of at most [schema.maxCharLength] and at most [max]
    characters, and a [tinyblob] column a string of at most 10 characters
    whatever [schema.maxCharLength] is; the only other value is the null of
    a nullable column. *)
Theorem blob_column_length {S R} (Randomizer : Randomness R)
    (schema : Schema) i fks (column : Column) (r : row) (w : world S R)
    hi r' w' :
  by_generator column ->
  blob_bounds schema column = Some (Some 0, Some hi) ->
  0 <= hi ->
  randomizer_contract Randomizer ->
  generateColumn Randomizer schema i fks column r w = (Ok r', w') ->
  (exists s, r' !! col_name column = Some (VStr s) /\
             Z.of_nat (String.length s) <= hi) \/
  (Options.nullable (options column) = true /\
   r' !! col_name column = Some VNull).
Proof.
  intros (Hauto & Hvals & Hfk) Hb Hle [Hint Hstr]. unfold generateColumn.
  rewrite Hauto, Hvals, Hfk. unfold blob_bounds in Hb.
  assert (Hstep : forall rng0,
    (v <- random_string (S := S) Randomizer (Some 0) (Some hi) ;;
     nullify Randomizer column (<[col_name column := v]> r))%gen
      (World (db w) rng0 (trace w)) = (Ok r', w') ->
    (exists s, r' !! col_name column = Some (VStr s) /\
               Z.of_nat (String.length s) <= hi) \/
    (Options.nullable (options column) = true /\
     r' !! col_name column = Some VNull)).
  { intros rng0. unfold random_string, bind, random, ret, nullify. simpl.
    destruct (Hint 0 hi rng0 Hle) as (n & Hn & Hbound).
    destruct (randomInt Randomizer (Some 0) (Some hi) rng0) as [n' rng1].
    simpl in Hn. subst n'. simpl.
    pose proof (Hstr n rng1 (proj1 Hbound)) as Hlen.
    destruct (randomString Randomizer (Some n) rng1) as [s rng2].
    simpl in Hlen. simpl.
    destruct (Options.nullable (options column)) eqn:Hnull.
    - unfold bind, random, ret. simpl.
      destruct (Math_random Randomizer rng2) as [u rng3].
      destruct (Qle_bool u one_tenth); intros [= <- _].
      + right. by rewrite lookup_insert_eq.
      + left. exists s. rewrite lookup_insert_eq. split; [done | lia].
    - intros [= <- _]. left. exists s. rewrite lookup_insert_eq.
      split; [done | lia]. }
  destruct w as [s0 rng0 tr0].
  destruct (generator column); try done; injection Hb as Hhi;
    rewrite ?Hhi; try subst hi; apply Hstep.
Qed.

(** X16.  A column with a [values] array takes its value from the array,
    whatever its generator tag and even when it has a foreign key: an
    element of the array when the [Randomizer] keeps to its description, and
    [undefined] when the array is empty.  The synthesis does not throw. *)
Theorem values_array_pick {S R} (Randomizer : Randomness R) (schema : Schema)
    i fks (column : Column) (r : row) (w : world S R) vs :
  Options.autoIncrement (options column) = false ->
  values column = Some (ValuesArray vs) ->
  exists v w',
    generateColumn Randomizer schema i fks column r w
    = (Ok (<[col_name column := v]> r), w') /\
    (vs = [] -> v = VUndefined) /\
    (randomizer_contract Randomizer -> vs <> [] -> v ∈ vs).
Proof.
  intros Hauto Hvals. unfold generateColumn. rewrite Hauto, Hvals. simpl.
  destruct (pick_spec (S := S) Randomizer id vs w)
    as (v & w' & Hpick & _ & _ & Hnil & Hin).
  exists v, w'. unfold bind. rewrite Hpick. repeat split; try done.
  intros Hc Hne. by destruct (Hin Hc Hne) as (a & Ha & ->).
Qed.

(** X17.  A column whose [values] names a pool of the schema takes its value
    from that pool, like a column with the array itself.  When the schema
    has no pool of that name, the name is looked up in what every object
    inherits: for a name that is not inherited either, the synthesis throws
    before any random number is drawn; for an inherited name
    ([constructor], [toString], ...) it does not throw, draws an index with
    [randomInt(0, length - 1)] for the [length] of the inherited property,
    and sets the column to [undefined]. *)
Theorem values_named_pool {S R} (Randomizer : Randomness R) (schema : Schema)
    i fks (column : Column) (r : row) (w : world S R) key :
  Options.autoIncrement (options column) = false ->
  values column = Some (ValuesName key) ->
  key <> "" ->
  (forall vs, schema_values schema !! key = Some vs ->
     exists v w',
       generateColumn Randomizer schema i fks column r w
       = (Ok (<[col_name column := v]> r), w') /\
       (vs = [] -> v = VUndefined) /\
       (randomizer_contract Randomizer -> vs <> [] -> v ∈ vs)) /\
  (schema_values schema !! key = None ->
   generateColumn Randomizer schema i fks column r w
   = match Object_prototype_length key with
     | Some len =>
         (Ok (<[col_name column := VUndefined]> r),
          World (db w)
            (randomInt Randomizer (Some 0) (Z.pred <$> len) (rng w)).2
            (trace w))
     | None =>
         (Throw "Cannot read properties of undefined (reading 'length')", w)
     end) /\
  (Object_prototype_length key = None <->
   key ∉ ["constructor"; "__defineGetter__"; "__defineSetter__";
          "hasOwnProperty"; "__lookupGetter__"; "__lookupSetter__";
          "isPrototypeOf"; "propertyIsEnumerable"; "toString"; "valueOf";
          "__proto__"; "toLocaleString"]).
Proof.
  intros Hauto Hvals Hkey. unfold generateColumn. rewrite Hauto, Hvals. simpl.
  assert (String.eqb key "" = false) as -> by (by apply String.eqb_neq).
  simpl. split; [| split].
  - intros vs ->.
    destruct (pick_spec (S := S) Randomizer id vs w)
      as (v & w' & Hpick & _ & _ & Hnil & Hin).
    exists v, w'. unfold bind. rewrite Hpick. repeat split; try done.
    intros Hc Hne. by destruct (Hin Hc Hne) as (a & Ha & ->).
  - intros ->. destruct (Object_prototype_length key) as [len |]; [| done].
    unfold bind, random, ret.
    by destruct (randomInt Randomizer (Some 0) (Z.pred <$> len) (rng w)).
  - unfold Object_prototype_length, Object_prototype. cbn [find fst].
    rewrite !not_elem_of_cons.
    repeat (match goal with
            | |- context [String.eqb ?a key] =>
                destruct (String.eqb_spec a key) as [<- | ?]
            end; [split; [done | intros H; exfalso; tauto] |]).
    split; [| done]. intros _. repeat split; try done.
    apply not_elem_of_nil.
Qed.

(** X18.  A column whose [values] is a ratio mapping takes its value from
    the pool that repeats every key as many times as its weight: with
    weights that are array lengths, the value is the entry of that pool at
    the index [randomInt(0, pool.length - 1)], which is a key of positive
    weight when the [Randomizer] keeps to its description and some weight is
    positive.  A weight that is not an array length (a negative one) makes
    the synthesis throw. *)
Theorem values_ratio_pick {S R} (Randomizer : Randomness R) (schema : Schema)
    i fks (column : Column) (r : row) (w : world S R) weights :
  Options.autoIncrement (options column) = false ->
  values column = Some (ValuesRatio weights) ->
  (Forall (fun kn => array_length kn.2) weights ->
   exists v w',
     generateColumn Randomizer schema i fks column r w
     = (Ok (<[col_name column := v]> r), w') /\
     v = or_undefined
           (VStr <$> js_index (expanded weights)
              (randomInt Randomizer (Some 0)
                 (Some (Z.of_nat (length (expanded weights)) - 1)) (rng w)).1) /\
     (randomizer_contract Randomizer -> expanded weights <> [] ->
      exists key n, (key, n) ∈ weights /\ 0 < n /\ v = VStr key)) /\
  (Exists (fun kn => ~ array_length kn.2) weights ->
   generateColumn Randomizer schema i fks column r w
   = (Throw "Invalid array length", w)).
Proof.
  intros Hauto Hvals. unfold generateColumn. rewrite Hauto, Hvals. simpl.
  split.
  - intros Hall. unfold bind at 1 2.
    rewrite (valuesWithRatio_ok weights [] w Hall). simpl.
    destruct (pick_spec (S := S) Randomizer VStr (expanded weights) w)
      as (v & w' & Hpick & _ & _ & _ & Hin).
    exists v, w'. rewrite Hpick. split; [done |]. split.
    + revert Hpick. unfold pick, bind, random, ret.
      destruct (randomInt _ _ _ _) as [idx r1]. by intros [= <- _].
    + intros Hc Hne. destruct (Hin Hc Hne) as (key & Hkey & ->).
      destruct (expanded_elem key weights Hkey) as (n & Hn & Hpos). eauto.
  - intros Hex. unfold bind at 1 2.
    by rewrite (valuesWithRatio_throw weights [] w Hex).
Qed.

(** * Further runs on concrete collaborators *)

(** A connector whose answers are given: every fetch answers [fetch], every
    [insert] answers [ins (rows.length)], every statement [q] answers
    [query q]. *)
Module Faulty.

Definition connector (fetch : reply (list value)) (ins : Z -> reply Z)
    (query : string -> reply unit) : DatabaseConnector Z := {|
  countLines _ s := (Resolved s, s);
  emptyTable _ _ := (Resolved tt, 0);
  executeRawQuery q s := (query q, s);
  getValuesForForeignKeys _ _ _ _ _ _ _ s := (fetch, s);
  insert _ rows s := (ins (Z.of_nat (length rows)), s)
|}.

Definition fine (q : string) : reply unit := Resolved tt.


Definition lost_fetch : DatabaseConnector Z :=
  connector (Rejected "connection lost") Resolved fine.

Definition deadlocked : DatabaseConnector Z :=
  connector (Resolved []) (fun _ => Rejected "deadlock") fine.



End Faulty.

Definition a_column (tag : GeneratorTag) (vals : option Values) : Column := {|
  col_name := "c"; generator := tag; options := Stub.plain;
  foreignKey := None; values := vals
|}.

Definition five_rows : list row :=
  match (generateRows Stub.randomness Stub.schema five_users ∅ 5 0
           (Stub.start 0)).1 with
  | Ok rows => rows
  | _ => []
  end.

Lemma accepting_insert_all : insert_all accepting.
Proof. intros tableName rows s. reflexivity. Defined.

Lemma reached_means_exact_witness : 5 = Z.max 0 (targetLines five_users 0).
Proof.
  eapply (reached_means_exact accepting Stub.randomness Stub.schema 1%nat
            five_users (Stub.start 0) 0 0 5 _ (stub_insert_bounded (fun _ => []))).
  - reflexivity.
  - evaluate.
Defined.

Lemma inserting_all_never_stalls_witness :
  (Reached = Reached /\ 5 = Z.max 0 (targetLines five_users 0)) \/
  (exists msg, Reached = Starved msg /\
               0 <= 5 <= Z.max 0 (targetLines five_users 0)).
Proof.
  eapply (inserting_all_never_stalls accepting Stub.randomness Stub.schema
            1%nat five_users (Stub.start 0) 0 0 Reached 5 _ accepting_insert_all).
  - reflexivity.
  - evaluate.
Defined.

Lemma row_counter_follows_insert_witness :
  (0 = 0 /\
   (batch rejecting Stub.randomness Stub.schema five_users 5 ∅ 0
      (Stub.start 0)).1 = Ok (Break Stalled 0)) \/
  (0 <> 0 /\
   exists fks',
     (batch rejecting Stub.randomness Stub.schema five_users 5 ∅ 0
        (Stub.start 0)).1 = Ok (Continue (0 + 0) fks')).
Proof.
  apply (row_counter_follows_insert rejecting Stub.randomness Stub.schema
           five_users 5 ∅ 0 (Stub.start 0)
           (trace (batch rejecting Stub.randomness Stub.schema five_users 5 ∅ 0
                     (Stub.start 0)).2) "users" five_rows 0).
  - reflexivity.
  - vm_compute. apply list_elem_of_here.
Defined.

Lemma fetches_of_a_batch_witness :
  exists pools,
    length pools = length (fk_columns (columns Stub.orders)) /\
    [fetch_of Stub.orders 3 (user_id_column, users_id) (Resolved [VInt 7])]
    = zip_with (fun x pool => fetch_of Stub.orders 3 x (Resolved pool))
        (fk_columns (columns Stub.orders)) pools /\
    short_pool = foldl store_pool ∅ (zip (fk_columns (columns Stub.orders)) pools) /\
    Forall2 (fun x pool =>
               Options.nullable (options x.1) = false -> pool <> [])
      (fk_columns (columns Stub.orders)) pools.
Proof.
  apply (fetches_of_a_batch referencing Stub.orders ∅ 3 (Stub.start 0)
           short_pool
           (World 0 O [fetch_of Stub.orders 3 (user_id_column, users_id)
                         (Resolved [VInt 7])])).
  - vm_compute. reflexivity.
  - reflexivity.
Defined.

Lemma starved_means_witness :
  0 = 0 /\
  exists evs0 column fk,
    column ∈ columns Stub.orders /\ foreignKey column = Some fk /\
    Forall is_fetch evs0 /\
    ([fetch_of Stub.orders 3 (user_id_column, users_id) (Resolved []);
      ConsoleWarn (starvation_message users_id)]
     = evs0 ++ [fetch_of Stub.orders (runRows_at 3 0) (column, fk)
                  (Rejected (starvation_message users_id));
                ConsoleWarn (starvation_message users_id)] \/
     ([fetch_of Stub.orders 3 (user_id_column, users_id) (Resolved []);
       ConsoleWarn (starvation_message users_id)]
      = evs0 ++ [fetch_of Stub.orders (runRows_at 3 0) (column, fk)
                   (Resolved []);
                 ConsoleWarn (starvation_message users_id)] /\
      Options.nullable (options column) = false /\
      starvation_message users_id = starvation_message fk)).
Proof.
  eapply (starved_means accepting Stub.randomness Stub.schema Stub.orders 3 ∅ 0
            (Stub.start 0)).
  - evaluate.
  - reflexivity.
Defined.

Lemma rejected_fetch_is_swallowed_witness :
  (fill Faulty.lost_fetch Stub.randomness Stub.schema 1 Stub.orders false
     (Stub.start 0)).1 = Ok (Starved "connection lost", 0).
Proof.
  erewrite (rejected_fetch_is_swallowed Faulty.lost_fetch Stub.randomness
              Stub.schema Stub.orders false (Stub.start 0))
    with (k := O) (pre := @nil Column) (column := user_id_column)
         (fk := users_id) (msg := "connection lost").
  - vm_compute. reflexivity.
  - evaluate.
  - evaluate.
  - apply turns_O.
  - reflexivity.
  - reflexivity.
  - reflexivity.
  - evaluate.
  - evaluate.
  - lia.
Defined.

Lemma loop_errors_propagate_witness :
  (fill Faulty.deadlocked Stub.randomness Stub.schema 1 five_users false
     (Stub.start 0)).1 = Throw "deadlock".
Proof.
  edestruct (loop_errors_propagate Faulty.deadlocked Stub.randomness Stub.schema
               five_users false (Stub.start 0))
    with (k := O) (fuel := 1%nat) (msg := "deadlock") as [Hfill _].
  - evaluate.
  - evaluate.
  - apply turns_O.
  - reflexivity.
  - evaluate.
  - lia.
  - by rewrite Hfill.
Defined.




Definition reset_run : result (Exit * Z) * world Z nat :=
  fill accepting Stub.randomness Stub.schema 1 five_users true (Stub.start 10).

Lemma reset_empties_first_witness :
  Forall (fun e => ~ is_empty e) (trace full_run.2) /\
  (exists a rest,
    trace reset_run.2
    = ConsoleLog ("empty:  " +:+ name five_users)
        :: EmptyTable (name five_users) a :: rest /\
    Forall (fun e => ~ is_empty e) rest /\
    (emptyTable accepting five_users (db (Stub.start 10))).1 = a /\
    forall msg, a = Rejected msg -> rest = [] /\ reset_run.1 = Throw msg) /\
  reset_run
  = fill accepting Stub.randomness Stub.schema 1 five_users false
      (World 0 O [ConsoleLog "empty:  users"; EmptyTable "users" (Resolved tt)]).
Proof.
  destruct (reset_empties_first accepting Stub.randomness Stub.schema 1%nat
              five_users (Stub.start 10)) as (Hkeep & Hreset & Hthen).
  split; [| split].
  - apply Hkeep. reflexivity.
  - apply Hreset. reflexivity.
  - unfold reset_run. rewrite Hthen. vm_compute. reflexivity.
Defined.


Lemma rows_hold_only_generated_columns_witness :
  Forall (inserts (only_generated_columns five_users)) (trace seeding_run.2).
Proof.
  apply (rows_hold_only_generated_columns accepting Stub.randomness Stub.schema
           1%nat five_users false (Stub.start 0)).
  reflexivity.
Defined.

Lemma enum_range_witness :
  exists k,
    generateColumn Stub.randomness Stub.schema O ∅ (a_column g_enum None) ∅
      (Stub.start 0)
    = (Ok (<["c" := VInt k]> ∅),
       World 0 (Math_random Stub.randomness O).2 []) /\
    (Options.nullable Stub.plain = true -> 0 <= 10 -> 0 <= k <= 10) /\
    (Options.nullable Stub.plain = false -> 1 <= 10 -> 1 <= k <= 10).
Proof.
  apply (enum_range (S := Z) Stub.randomness Stub.schema O ∅
           (a_column g_enum None) ∅ (Stub.start 0) 10).
  - by repeat split.
  - reflexivity.
  - reflexivity.
  - vm_compute. discriminate.
  - reflexivity.
Defined.

Lemma integer_column_range_witness :
  (exists n, ({["c" := VInt 0]} : row) !! "c" = Some (VInt n) /\ 0 <= n <= 10) \/
  (Options.nullable Stub.plain = true /\
   ({["c" := VInt 0]} : row) !! "c" = Some VNull).
Proof.
  apply (integer_column_range (S := Z) Stub.randomness Stub.schema O ∅
           (a_column g_smallint None) ∅ (Stub.start 0) 0 10
           {["c" := VInt 0]} (World 0 1%nat [])).
  - by repeat split.
  - reflexivity.
  - lia.
  - exact stub_randomizer_contract.
  - vm_compute. reflexivity.
Defined.

Lemma blob_column_length_witness :
  (exists s, ({["c" := VStr ""]} : row) !! "c" = Some (VStr s) /\
             Z.of_nat (String.length s) <= 10) \/
  (Options.nullable Stub.plain = true /\
   ({["c" := VStr ""]} : row) !! "c" = Some VNull).
Proof.
  apply (blob_column_length (S := Z) Stub.randomness Stub.schema O ∅
           (a_column g_tinyblob None) ∅ (Stub.start 0) 10
           {["c" := VStr ""]} (World 0 2%nat [])).
  - by repeat split.
  - reflexivity.
  - lia.
  - exact stub_randomizer_contract.
  - vm_compute. reflexivity.
Defined.

Definition colours : list value := [VStr "red"; VStr "green"].

Lemma values_array_pick_witness :
  exists v w',
    generateColumn Stub.randomness Stub.schema O ∅
      (a_column g_int (Some (ValuesArray colours))) ∅ (Stub.start 0)
    = (Ok (<["c" := v]> ∅), w') /\
    (colours = [] -> v = VUndefined) /\
    (randomizer_contract Stub.randomness -> colours <> [] -> v ∈ colours).
Proof.
  apply (values_array_pick (S := Z) Stub.randomness Stub.schema O ∅
           (a_column g_int (Some (ValuesArray colours))) ∅ (Stub.start 0)
           colours); reflexivity.
Defined.

Definition palette : Schema :=
  {| maxCharLength := Some 255; schema_values := {["colours" := colours]} |}.

Lemma values_named_pool_witness :
  (exists v w',
     generateColumn Stub.randomness palette O ∅
       (a_column g_int (Some (ValuesName "colours"))) ∅ (Stub.start 0)
     = (Ok (<["c" := v]> ∅), w') /\ v ∈ colours) /\
  generateColumn Stub.randomness palette O ∅
    (a_column g_int (Some (ValuesName "shades"))) ∅ (Stub.start 0)
  = (Throw "Cannot read properties of undefined (reading 'length')",
     Stub.start 0) /\
  generateColumn Stub.randomness palette O ∅
    (a_column g_int (Some (ValuesName "constructor"))) ∅ (Stub.start 0)
  = (Ok {["c" := VUndefined]}, World 0 1%nat []).
Proof.
  split; [| split].
  - destruct (values_named_pool (S := Z) Stub.randomness palette O ∅
                (a_column g_int (Some (ValuesName "colours"))) ∅ (Stub.start 0)
                "colours") as [Hpool _]; [reflexivity | reflexivity | discriminate |].
    destruct (Hpool colours) as (v & w' & Hrun & _ & Hin); [reflexivity |].
    exists v, w'. split; [exact Hrun |].
    apply Hin; [exact stub_randomizer_contract | discriminate].
  - destruct (values_named_pool (S := Z) Stub.randomness palette O ∅
                (a_column g_int (Some (ValuesName "shades"))) ∅ (Stub.start 0)
                "shades") as (_ & Hmissing & _);
      [reflexivity | reflexivity | discriminate |].
    apply Hmissing. reflexivity.
  - destruct (values_named_pool (S := Z) Stub.randomness palette O ∅
                (a_column g_int (Some (ValuesName "constructor"))) ∅
                (Stub.start 0) "constructor") as (_ & Hmissing & _);
      [reflexivity | reflexivity | discriminate |].
    apply Hmissing. reflexivity.
Defined.

Definition two_to_one : list (string * Z) := [("red", 2); ("green", 1)].

Lemma values_ratio_pick_witness :
  (exists v w',
     generateColumn Stub.randomness Stub.schema O ∅
       (a_column g_int (Some (ValuesRatio two_to_one))) ∅ (Stub.start 0)
     = (Ok (<["c" := v]> ∅), w') /\
     v = or_undefined
           (VStr <$> js_index (expanded two_to_one)
              (randomInt Stub.randomness (Some 0)
                 (Some (Z.of_nat (length (expanded two_to_one)) - 1)) O).1) /\
     (randomizer_contract Stub.randomness -> expanded two_to_one <> [] ->
      exists key n, (key, n) ∈ two_to_one /\ 0 < n /\ v = VStr key)) /\
  generateColumn Stub.randomness Stub.schema O ∅
    (a_column g_int (Some (ValuesRatio [("red", -1)]))) ∅ (Stub.start 0)
  = (Throw "Invalid array length", Stub.start 0).
Proof.
  split.
  - destruct (values_ratio_pick (S := Z) Stub.randomness Stub.schema O ∅
                (a_column g_int (Some (ValuesRatio two_to_one))) ∅
                (Stub.start 0) two_to_one eq_refl eq_refl) as [Hok _].
    apply Hok. repeat constructor; simpl; unfold array_length; simpl; lia.
  - destruct (values_ratio_pick (S := Z) Stub.randomness Stub.schema O ∅
                (a_column g_int (Some (ValuesRatio [("red", -1)]))) ∅
                (Stub.start 0) [("red", -1)] eq_refl eq_refl) as [_ Hbad].
    apply Hbad. apply Exists_cons_hd. unfold array_length. simpl. lia.
Defined.

(** ** The number of batches *)

(** The number of calls of [insert] among the events. *)
Definition count_inserts (evs : list event) : nat :=
  length (omap (fun e => match e with
                         | Insert _ rows _ => Some rows
                         | _ => None
                         end) evs).

Lemma count_inserts_app evs1 evs2 :
  count_inserts (evs1 ++ evs2) = (count_inserts evs1 + count_inserts evs2)%nat.
Proof. unfold count_inserts. by rewrite omap_app, length_app. Qed.

Lemma count_inserts_fetches fetches :
  Forall is_fetch fetches -> count_inserts fetches = O.
Proof.
  induction 1 as [| e rest He _ IH]; [done |].
  by destruct e.
Qed.

Lemma batches_of_a_thousand (d : Z) :
  0 < d ->
  (d + 999) / 1000 = 1 + (Z.max 0 (d - Z.min 1000 d) + 999) / 1000.
Proof.
  intros Hd. destruct (Z.le_gt_cases 1000 d) as [Hbig | Hsmall].
  - rewrite Z.min_l, Z.max_r by lia.
    replace (d + 999) with (d - 1000 + 999 + 1 * 1000) by lia.
    rewrite Z.div_add by lia. lia.
  - assert (H1 : (d + 999) / 1000 = 1).
    { symmetry. apply Z.div_unique with (r := d - 1); lia. }
    assert (H2 : (0 + 999) / 1000 = 0) by reflexivity.
    rewrite Z.min_r, Z.max_l, H1, H2 by lia. reflexivity.
Qed.

Lemma batches_insert_count {S R} (dbConnector : DatabaseConnector S)
    (Randomizer : Randomness R) schema table target :
  insert_all dbConnector ->
  forall fuel fks cur (w : world S R) final w' evs,
    batches dbConnector Randomizer schema fuel table target fks cur w
      = (Ok (Reached, final), w') ->
    trace w' = trace w ++ evs ->
    Z.of_nat (count_inserts evs) = (Z.max 0 (target - cur) + 999) / 1000.
Proof.
  intros Hall.
  assert (Hdone : forall cur (w : world S R) fuel fks final w' evs,
            target <= cur ->
            batches dbConnector Randomizer schema fuel table target fks cur w
              = (Ok (Reached, final), w') ->
            trace w' = trace w ++ evs ->
            Z.of_nat (count_inserts evs) = (Z.max 0 (target - cur) + 999) / 1000).
  { intros cur w fuel fks final w' evs Hge. rewrite batches_reached by done.
    intros [= _ <-]. rewrite <- (app_nil_r (trace w)) at 1.
    intros <-%app_inv_head. rewrite Z.max_l by lia. reflexivity. }
  induction fuel as [| fuel IH]; intros fks cur w final w' evs.
  - destruct (Z.lt_ge_cases cur target) as [Hlt | Hge]; [| by apply Hdone].
    simpl. by destruct (Z.ltb_spec cur target); [| lia].
  - destruct (Z.lt_ge_cases cur target) as [Hlt | Hge]; [| by apply Hdone].
    rewrite batches_unfold by done.
    destruct (batch dbConnector Randomizer schema table target fks cur w)
      as [r w1] eqn:E.
    apply batch_outcome_of in E.
    destruct E as
      [ msg w1 fetches _ _ _ _
      | fks' w1 fetches msg w2 _ _ _
      | fks' w1 fetches rows w2 msg s0 _ _ _
      | fks' w1 fetches rows w2 s0 _ _ _
      | fks' w1 fetches rows w2 k s0 (_ & Ht & Hf & _) (_ & Ht2 & _ & Hlen) Hi _ ];
      try done.
    specialize (Hall (name table) rows (db w2)). rewrite Hi in Hall.
    simpl in Hall. injection Hall as ->.
    intros Hrest Htr.
    match type of Hrest with
    | batches _ _ _ _ _ _ _ _ ?w0 = _ =>
        destruct (emits_batches dbConnector Randomizer schema (fun _ => True)
                    fuel table target fks' (cur + Z.of_nat (length rows))
                    (fun fks1 cur1 _ =>
                       emits_weaken _ _ _ (fun _ _ => I)
                         (emits_batch dbConnector Randomizer schema table target
                            fks1 cur1)) w0) as (rest & Htrest & _)
    end.
    rewrite Hrest in Htrest. simpl in Htrest.
    rewrite Htr in Htrest. rewrite Ht2, Ht, <- !app_assoc in Htrest.
    apply app_inv_head in Htrest as ->.
    rewrite !count_inserts_app, (count_inserts_fetches fetches Hf).
    assert (HIH : Z.of_nat (count_inserts rest)
                  = (Z.max 0 (target - (cur + Z.of_nat (length rows))) + 999)
                      / 1000).
    { eapply IH; [exact Hrest |]. simpl. by rewrite Htr, Ht2, Ht, <- !app_assoc. }
    rewrite !Nat2Z.inj_add, HIH, Hlen. unfold runRows_at.
    rewrite (Z.max_r 0 (target - cur)) by lia.
    rewrite (batches_of_a_thousand (target - cur)) by lia.
    replace (target - (cur + Z.of_nat (Z.to_nat (Z.min 1000 (target - cur)))))
      with (target - cur - Z.min 1000 (target - cur)) by lia.
    reflexivity.
Qed.

(** X19.  With a connector whose [insert] reports every row as inserted, a
    [generateData] that reaches its target has called [insert] once per
    thousand rows that were missing, rounded up, and not at all on a table
    that was at or above its target. *)
Theorem insert_calls_count {S R} (dbConnector : DatabaseConnector S)
    (Randomizer : Randomness R) (schema : Schema) fuel (table : Table)
    (w : world S R) n s' final w' evs :
  insert_all dbConnector ->
  countLines dbConnector table (db w) = (Resolved n, s') ->
  generateData dbConnector Randomizer schema fuel table w
    = (Ok (Reached, final), w') ->
  trace w' = trace w ++ evs ->
  Z.of_nat (count_inserts evs)
  = (Z.max 0 (targetLines table n - n) + 999) / 1000.
Proof.
  intros Hall Hc. rewrite generateData_eq, Hc. intros Hb Ht.
  destruct (emits_batches dbConnector Randomizer schema (fun _ => True) fuel
              table (targetLines table n) ∅ n
              (fun fks1 cur1 _ =>
                 emits_weaken _ _ _ (fun _ _ => I)
                   (emits_batch dbConnector Randomizer schema table
                      (targetLines table n) fks1 cur1))
              (counted table (Resolved n) s' w)) as (loop & Hloop & _).
  rewrite Hb in Hloop. simpl in Hloop.
  rewrite Ht, <- app_assoc in Hloop. apply app_inv_head in Hloop as ->.
  rewrite count_inserts_app. simpl.
  eapply (batches_insert_count dbConnector Randomizer schema table
            (targetLines table n) Hall); [exact Hb |].
  simpl. by rewrite Ht, <- app_assoc.
Qed.

Lemma insert_calls_count_witness :
  Z.of_nat
    (count_inserts
       (trace (generateData accepting Stub.randomness Stub.schema 2 many_users
                 (Stub.start 0)).2))
  = (Z.max 0 (targetLines many_users 0 - 0) + 999) / 1000.
Proof.
  eapply (insert_calls_count accepting Stub.randomness Stub.schema 2%nat
            many_users (Stub.start 0) 0 0 1001 _ _ accepting_insert_all).
  - reflexivity.
  - apply injective_projections; [vm_compute; reflexivity | reflexivity].
  - reflexivity.
Defined.
